(** * musico-bot: the download orchestration engine of [bot.py]

    A shallow embedding of the parts of [src/bot.py] that decide how a
    download job tracks progress, escalates to the yt-dlp fallback,
    names and delivers its result, and guards the button callbacks;
    followed by the properties established about them.

    Conventions.
    - A Python [str] is a list of Unicode code points ([list N]); [len],
      slicing and the regular expressions all count code points.
    - A Python [int] is a [Z].
    - The character database of the interpreter ([unicodedata], and the
      tables behind [\d], [int()] and [str.lower]) is not part of the
      repository: it is the record [unicodedata] that every definition
      using it takes as a parameter.
    - Paths follow POSIX ([posixpath], [PurePosixPath]). *)

From Stdlib Require Import ZArith NArith Ascii SpecFloat.
From stdpp Require Import base list strings pretty gmap.

Local Open Scope Z_scope.

(** ** Python strings *)

Module Py.

Abbreviation pystr := (list N).

(** A string literal of the source, as code points (ASCII literals only). *)
Definition str (s : string) : pystr := N_of_ascii <$> String.list_ascii_of_string s.

Global Arguments str : simpl never.

Definition len (s : pystr) : Z := Z.of_nat (length s).

Definition eqb (a b : pystr) : bool := bool_decide (a = b).

(** [s[:k]], with Python's reading of a negative bound. *)
Definition slice_to (k : Z) (s : pystr) : pystr :=
  if 0 <=? k then take (Z.to_nat k) s else take (Z.to_nat (len s + k)) s.

(** [s[k:]] for [0 <= k]. *)
Definition slice_from (k : Z) (s : pystr) : pystr := drop (Z.to_nat k) s.

(** [s[i:i+1]]: the empty string out of range. *)
Definition slice1 (s : pystr) (i : Z) : pystr :=
  if i <? 0 then [] else take 1 (drop (Z.to_nat i) s).

Fixpoint rfind_from (c : N) (s : pystr) (i last : Z) : Z :=
  match s with
  | [] => last
  | x :: s' => rfind_from c s' (i + 1) (if N.eqb x c then i else last)
  end.

(** [s.rfind(c)] for a one-character needle: the last index, or -1. *)
Definition rfind (c : N) (s : pystr) : Z := rfind_from c s 0 (-1).

Fixpoint starts_with (p s : pystr) : bool :=
  match p, s with
  | [], _ => true
  | _ :: _, [] => false
  | a :: p', b :: s' => N.eqb a b && starts_with p' s'
  end.

(** [needle in s]. *)
Fixpoint contains (needle s : pystr) : bool :=
  starts_with needle s ||
  match s with
  | [] => false
  | _ :: s' => contains needle s'
  end.

(** [str.isspace] of one character, which is also the class [\s] of a
    [str] pattern. *)
Definition isspace (c : N) : bool :=
  ((9 <=? c) && (c <=? 13) || (28 <=? c) && (c <=? 32) || (c =? 133)
   || (c =? 160) || (c =? 5760) || (8192 <=? c) && (c <=? 8202)
   || (c =? 8232) || (c =? 8233) || (c =? 8239) || (c =? 8287)
   || (c =? 12288))%N.

Fixpoint lstrip (s : pystr) : pystr :=
  match s with
  | c :: s' => if isspace c then lstrip s' else s
  | [] => []
  end.

Definition rstrip (s : pystr) : pystr := reverse (lstrip (reverse s)).

(** [s.strip()]. *)
Definition strip (s : pystr) : pystr := rstrip (lstrip s).

(** A text between double quotes (code point 34). *)
Definition quoted (s : pystr) : pystr := [34%N] ++ s ++ [34%N].

Definition ends_with (suffix s : pystr) : bool :=
  starts_with (reverse suffix) (reverse s).

(** [s.split(sep)] for a non-empty separator; [skip] counts the
    characters of a separator still to pass over, [cur] is the piece
    being read. *)
Fixpoint split_go (sep s : pystr) (skip : nat) (cur : pystr) : list pystr :=
  match s with
  | [] => [cur]
  | c :: s' =>
      match skip with
      | S n => split_go sep s' n cur
      | O =>
          if starts_with sep s
          then cur :: split_go sep s' (length sep - 1) []
          else split_go sep s' 0 (cur ++ [c])
      end
  end.

Definition split (sep s : pystr) : list pystr := split_go sep s 0 [].

(** [s.replace(old, new)] for a non-empty [old]. *)
Fixpoint replace_go (old new s : pystr) (skip : nat) : pystr :=
  match s with
  | [] => []
  | c :: s' =>
      match skip with
      | S n => replace_go old new s' n
      | O =>
          if starts_with old s
          then new ++ replace_go old new s' (length old - 1)
          else c :: replace_go old new s' 0
      end
  end.

Definition replace (old new s : pystr) : pystr := replace_go old new s 0.

(** [PurePosixPath(p).name]: the last component, empty and [.]
    components dropped. *)
Definition path_name (p : pystr) : pystr :=
  default [] (last (filter (λ part, part ≠ [] ∧ part ≠ [46%N]) (split [47%N] p))).

(** [PurePosixPath.stem] of a file name. *)
Definition stem_of_name (name : pystr) : pystr :=
  let i := rfind 46%N name in
  if (0 <? i) && (i <? len name - 1) then slice_to i name else name.

Definition path_stem (p : pystr) : pystr := stem_of_name (path_name p).

Definition is_ascii (c : N) : bool := (c <? 128)%N.

Definition all_ascii (s : pystr) : Prop := Forall (λ c, is_ascii c = true) s.

(** [s.encode("ascii", "ignore").decode("ascii")]. *)
Definition ascii_ignore (s : pystr) : pystr := filter (λ c, is_ascii c = true) s.

(** The interpreter's character database. *)
Record unicodedata := {
  nfkd : pystr → pystr;        (* unicodedata.normalize("NFKD", _) *)
  decimal : N → option Z;      (* the digit value of a decimal digit *)
  lower : pystr → pystr        (* str.lower *)
}.

(** NFKD leaves text that is already ASCII alone. *)
Definition nfkd_fixes_ascii (U : unicodedata) : Prop :=
  ∀ s, all_ascii s → nfkd U s = s.

(** In the ASCII range the decimal digits are [0] to [9], with their
    values. *)
Definition ascii_digits (U : unicodedata) : Prop :=
  ∀ c, is_ascii c = true →
    decimal U c = if ((48 <=? c) && (c <=? 57))%N then Some (Z.of_N c - 48) else None.

(** An excerpt of the database: the ASCII range and the decompositions
    of a few accented Latin letters.  It agrees with the interpreter on
    every text made of these characters. *)
Definition excerpt_decompose (c : N) : pystr :=
  if is_ascii c then [c] else
  match c with
  | 224%N => [97; 768]%N | 225%N => [97; 769]%N | 228%N => [97; 776]%N
  | 232%N => [101; 768]%N | 233%N => [101; 769]%N | 235%N => [101; 776]%N
  | 241%N => [110; 771]%N | 246%N => [111; 776]%N | 252%N => [117; 776]%N
  | _ => [c]
  end.

Definition excerpt_decimal (c : N) : option Z :=
  if ((48 <=? c) && (c <=? 57))%N then Some (Z.of_N c - 48) else None.

Definition excerpt_lower (c : N) : N :=
  if ((65 <=? c) && (c <=? 90))%N then (c + 32)%N else c.

Definition excerpt : unicodedata := {|
  nfkd s := s ≫= excerpt_decompose;
  decimal := excerpt_decimal;
  lower s := excerpt_lower <$> s
|}.

End Py.

Import Py.

(** ** [CloudUploader.safe_filename] *)

Module CloudUploader.

(** [genericpath._splitext]: the loop skips the leading dots of the last
    path component; [n] bounds its iterations by the distance to the dot. *)
Fixpoint skip_leading_dots (p : pystr) (extsep : N) (filenameIndex : Z) (n : nat) : bool :=
  match n with
  | O => false
  | S n' =>
      if negb (Py.eqb (slice1 p filenameIndex) [extsep]) then true
      else skip_leading_dots p extsep (filenameIndex + 1) n'
  end.

Definition _splitext (p : pystr) (sep : N) (altsep : option N) (extsep : N) : pystr * pystr :=
  let sepIndex := rfind sep p in
  let sepIndex :=
    match altsep with
    | Some a => Z.max sepIndex (rfind a p)
    | None => sepIndex
    end in
  let dotIndex := rfind extsep p in
  if (sepIndex <? dotIndex)
     && skip_leading_dots p extsep (sepIndex + 1) (Z.to_nat (dotIndex - (sepIndex + 1)))
  then (slice_to dotIndex p, slice_from dotIndex p)
  else (p, []).

(** [os.path.splitext] of [posixpath]. *)
Definition splitext (p : pystr) : pystr * pystr := _splitext p 47%N None 46%N.

(** The character class of the pattern in [safe_filename]: whitespace,
    slash, backslash, colon, asterisk, question mark, double quote, angle
    brackets and pipe. *)
Definition path_unsafe (c : N) : bool :=
  isspace c || bool_decide (c ∈ [47; 92; 58; 42; 63; 34; 60; 62; 124]%N).

Definition path_safe (s : pystr) : Prop := Forall (λ c, path_unsafe c = false) s.

(** [re.sub] of that class, repeated, by an underscore: each maximal run
    of the class becomes one underscore; [in_run] records that the previous
    character belonged to the run being replaced. *)
Fixpoint sub_unsafe_runs (in_run : bool) (s : pystr) : pystr :=
  match s with
  | [] => []
  | c :: s' =>
      if path_unsafe c
      then (if in_run then sub_unsafe_runs true s' else 95%N :: sub_unsafe_runs true s')
      else c :: sub_unsafe_runs false s'
  end.

Section safe_filename.
Variable U : unicodedata.

Definition safe_filename (filename : pystr) (max_length : Z) : pystr :=
  let '(base, ext) := splitext filename in
  let base := ascii_ignore (nfkd U base) in
  let base := sub_unsafe_runs false base in
  let ext := if 10 <? len ext then slice_to 10 ext else ext in
  let max_base_len := max_length - len ext in
  let base := if max_base_len <? len base then slice_to max_base_len base else base in
  base ++ ext.

(** The extension that [safe_filename] keeps: that of [os.path.splitext],
    cut to ten characters. *)
Definition kept_ext (filename : pystr) : pystr := take 10 (splitext filename).2.
End safe_filename.

End CloudUploader.

(** ** Numbers: the float arithmetic behind the percentages *)

Module PyNum.

(** The exceptions the modelled code can raise. *)
Inductive exn := ZeroDivisionError | OverflowError | ValueError | AttributeError | KeyError.

Definition prec : Z := 53.
Definition emax : Z := 1024.

(** An [int] as an exact, not yet rounded, binary floating-point datum. *)
Definition float_of_int (z : Z) : spec_float :=
  match z with
  | Z0 => S754_zero false
  | Zpos p => S754_finite false p 0
  | Zneg p => S754_finite true p 0
  end.

(** [a / b] on two [int]s: the correctly rounded binary64 quotient. *)
Definition true_div (a b : Z) : exn + spec_float :=
  if b =? 0 then inl ZeroDivisionError
  else match SFdiv prec emax (float_of_int a) (float_of_int b) with
       | S754_infinity _ | S754_nan => inl OverflowError
       | q => inr q
       end.

(** [x * 100] for a float [x]. *)
Definition times_100 (x : spec_float) : spec_float :=
  SFmul prec emax x (S754_finite false 100 0).

(** [int(x)] for a float [x]: truncation towards zero. *)
Definition int_of_float (x : spec_float) : exn + Z :=
  match x with
  | S754_zero _ => inr 0
  | S754_infinity _ => inl OverflowError
  | S754_nan => inl ValueError
  | S754_finite s m e =>
      let magnitude := if 0 <=? e then Z.pos m * 2 ^ e else Z.pos m / 2 ^ (- e) in
      inr (if s then - magnitude else magnitude)
  end.

(** [int((completed / total) * 100)]. *)
Definition percent (completed total : Z) : exn + Z :=
  match true_div completed total with
  | inl e => inl e
  | inr q => int_of_float (times_100 q)
  end.

(** [str(n)] for an [int]. *)
Definition str_of_int (n : Z) : pystr := str (pretty n).

(** [sys.int_info.default_max_str_digits], the interpreter's limit on
    the digits of a decimal string given to [int]. *)
Definition int_max_str_digits : Z := 4300.

Section int_of_str.
Variable U : unicodedata.

Definition is_digit (c : N) : bool := bool_decide (is_Some (decimal U c)).

Fixpoint digits_value (acc : Z) (s : pystr) : option Z :=
  match s with
  | [] => Some acc
  | c :: s' =>
      match decimal U c with
      | Some d => digits_value (10 * acc + d) s'
      | None => None
      end
  end.

(** [int(s)] for a run of decimal digits, as [\d+] matches them.  A
    run of more digits than the interpreter's limit, leading zeros
    counted, raises [ValueError]. *)
Definition int_of_digits (s : pystr) : exn + Z :=
  match s with
  | [] => inl ValueError
  | _ =>
      if int_max_str_digits <? len s then inl ValueError
      else match digits_value 0 s with Some n => inr n | None => inl ValueError end
  end.
End int_of_str.

End PyNum.

Import PyNum.

(** ** Regular expressions: the fragment the bot's patterns use *)

Module Re.

Inductive re :=
| Lit (s : pystr)                                  (* literal text *)
| Opt (c : N)                                      (* c? *)
| Rep (greedy : bool) (min : nat) (cls : N → bool) (* a repeated class *)
| Alt (alts : list pystr)                          (* (?:a|b|c) of literals *)
| Group (r : re)                                   (* a capturing group *)
| Seq (r1 r2 : re).

Section exec.
Context {R : Type}.

(** [cls+] and [cls*]: the longest run first, then shorter ones. *)
Fixpoint rep_greedy (cls : N → bool) (min : nat) (s : pystr) (k : pystr → option R) : option R :=
  let stop := match min with O => k s | S _ => None end in
  match s with
  | c :: s' =>
      if cls c
      then match rep_greedy cls (Nat.pred min) s' k with
           | Some r => Some r
           | None => stop
           end
      else stop
  | [] => stop
  end.

(** [cls+?] and [cls*?]: the shortest run first, then longer ones. *)
Fixpoint rep_lazy (cls : N → bool) (min : nat) (s : pystr) (k : pystr → option R) : option R :=
  let more := match s with
              | c :: s' => if cls c then rep_lazy cls (Nat.pred min) s' k else None
              | [] => None
              end in
  match min with
  | O => match k s with Some r => Some r | None => more end
  | S _ => more
  end.

Fixpoint first_alt (alts : list pystr) (s : pystr) (k : pystr → option R) : option R :=
  match alts with
  | [] => None
  | a :: alts' =>
      match (if starts_with a s then k (drop (length a) s) else None) with
      | Some r => Some r
      | None => first_alt alts' s k
      end
  end.

(** The backtracking matcher, anchored at the start of [s]; [gs] holds
    the groups closed so far and [k] continues with the rest of the
    input.  Groups are not nested in the bot's patterns, so the order
    in which they close is their numbering. *)
Fixpoint exec (r : re) (s : pystr) (gs : list pystr)
    (k : pystr → list pystr → option R) : option R :=
  match r with
  | Lit l => if starts_with l s then k (drop (length l) s) gs else None
  | Opt c =>
      match s with
      | x :: s' =>
          if N.eqb x c
          then match k s' gs with Some r => Some r | None => k s gs end
          else k s gs
      | [] => k s gs
      end
  | Rep true min cls => rep_greedy cls min s (λ s', k s' gs)
  | Rep false min cls => rep_lazy cls min s (λ s', k s' gs)
  | Alt alts => first_alt alts s (λ s', k s' gs)
  | Group r' => exec r' s gs (λ s' gs', k s' (gs' ++ [take (length s - length s') s]))
  | Seq r1 r2 => exec r1 s gs (λ s' gs', exec r2 s' gs' k)
  end.
End exec.

(** [re.search(r, s)]: the groups of the leftmost match. *)
Fixpoint search (r : re) (s : pystr) : option (list pystr) :=
  match exec r s [] (λ _ gs, Some gs) with
  | Some gs => Some gs
  | None => match s with [] => None | _ :: s' => search r s' end
  end.

(** [m.group(i)] for [1 <= i]. *)
Definition group (gs : list pystr) (i : nat) : pystr := default [] (gs !! Nat.pred i).

Definition seq (rs : list re) : re := foldr Seq (Lit []) rs.

(** [.]: any character but a newline. *)
Definition dot (c : N) : bool := negb (c =? 10)%N.

End Re.

(** ** The bot: state, collaborators and the state monad *)

Module Bot.

(** [url_info]: the dictionary built by [extract_spotify_url_info] and
    [extract_youtube_url_info], with the keys [platform], [type], [id]
    and [url]. *)
Abbreviation url_info := (gmap string pystr).

(** One entry of [self.download_progress], with the keys of the
    dictionary that [process_download] creates; [playlist_info_sent] is
    the key added by the stream parser, absent (false) until then.  On
    the paths modelled here the percentage is always an [int]. *)
Record progress := {
  chat_id : Z;
  message_id : Z;
  current_track : pystr;
  percentage : Z;
  status : pystr;
  total_tracks : Z;
  completed_tracks : Z;
  upload_progress : Z;
  upload_status : pystr;
  platform : pystr;
  playlist_name : option pystr;
  playlist_info_sent : bool;
  zip_password : pystr
}.

Definition set_current_track (v : pystr) (p : progress) : progress :=
  {| chat_id := chat_id p; message_id := message_id p; current_track := v;
     percentage := percentage p; status := status p; total_tracks := total_tracks p;
     completed_tracks := completed_tracks p; upload_progress := upload_progress p;
     upload_status := upload_status p; platform := platform p;
     playlist_name := playlist_name p; playlist_info_sent := playlist_info_sent p;
     zip_password := zip_password p |}.

Definition set_percentage (v : Z) (p : progress) : progress :=
  {| chat_id := chat_id p; message_id := message_id p; current_track := current_track p;
     percentage := v; status := status p; total_tracks := total_tracks p;
     completed_tracks := completed_tracks p; upload_progress := upload_progress p;
     upload_status := upload_status p; platform := platform p;
     playlist_name := playlist_name p; playlist_info_sent := playlist_info_sent p;
     zip_password := zip_password p |}.

Definition set_status (v : pystr) (p : progress) : progress :=
  {| chat_id := chat_id p; message_id := message_id p; current_track := current_track p;
     percentage := percentage p; status := v; total_tracks := total_tracks p;
     completed_tracks := completed_tracks p; upload_progress := upload_progress p;
     upload_status := upload_status p; platform := platform p;
     playlist_name := playlist_name p; playlist_info_sent := playlist_info_sent p;
     zip_password := zip_password p |}.

Definition set_total_tracks (v : Z) (p : progress) : progress :=
  {| chat_id := chat_id p; message_id := message_id p; current_track := current_track p;
     percentage := percentage p; status := status p; total_tracks := v;
     completed_tracks := completed_tracks p; upload_progress := upload_progress p;
     upload_status := upload_status p; platform := platform p;
     playlist_name := playlist_name p; playlist_info_sent := playlist_info_sent p;
     zip_password := zip_password p |}.

Definition set_completed_tracks (v : Z) (p : progress) : progress :=
  {| chat_id := chat_id p; message_id := message_id p; current_track := current_track p;
     percentage := percentage p; status := status p; total_tracks := total_tracks p;
     completed_tracks := v; upload_progress := upload_progress p;
     upload_status := upload_status p; platform := platform p;
     playlist_name := playlist_name p; playlist_info_sent := playlist_info_sent p;
     zip_password := zip_password p |}.

Definition set_playlist (name : pystr) (p : progress) : progress :=
  {| chat_id := chat_id p; message_id := message_id p; current_track := current_track p;
     percentage := percentage p; status := status p; total_tracks := total_tracks p;
     completed_tracks := completed_tracks p; upload_progress := upload_progress p;
     upload_status := upload_status p; platform := platform p;
     playlist_name := Some name; playlist_info_sent := true;
     zip_password := zip_password p |}.

(** The record [process_download] starts a job with. *)
Definition initial_progress (chat message : Z) (platform_ : pystr) (password : pystr) : progress :=
  {| chat_id := chat; message_id := message; current_track := str "Initializing...";
     percentage := 0; status := str "starting"; total_tracks := 1;
     completed_tracks := 0; upload_progress := 0; upload_status := [];
     platform := platform_; playlist_name := None; playlist_info_sent := false;
     zip_password := password |}.

(** The conversation state kept per user between the link and the
    dispatch: [self.user_state[user_id]]. *)
Record conversation := { cv_url_info : url_info; cv_state : pystr }.

(** A scheduled [process_download(chat_id, user_id, url_info, yt_format)]. *)
Record task := {
  tk_chat_id : Z;
  tk_user_id : Z;
  tk_url_info : url_info;
  tk_yt_format : option pystr
}.

(** The texts the modelled code sends, by what they say. *)
Inductive message :=
| PlaylistAnnouncement (name : pystr) (total_songs : Z)
| YouTubeAlsoTimedOut
| YouTubeBlockingDownloads
| YouTubeBotDetection
| ButtonNotForYou
| SessionExpired
| SessionExpiredShort
| AudioSelectedChooseQuality
| VideoSelectedChecking
| VideoSelectedChooseResolution
| NoDownloadableFormats
| StartingAudioDownload (fmt : pystr)
| StartingVideoDownload (fmt : pystr)
| AnErrorOccurred
| NoFilesDownloaded
| SendingAudioFile
| AudioFileSent
| FailedToSendAudio.

(** Calls to the collaborators, in the order they are made;
    [LogRunningFallback] is the log entry written when the fallback
    starts. *)
Inductive event :=
| SendMessage (chat : Z) (m : message)
| EditMessage (chat msg_id : Z) (m : message)
| EditReplyMarkup (chat msg_id : Z) (callback_data : list pystr)
| UpdateProgressMessage (user : Z)
| LogRunningFallback (cmd : list pystr)
| Exec (cmd : list pystr) (timeout_seconds : Z)
| Kill (cmd : list pystr)
| CreateTask (t : task)
| HandleZipAndUpload (chat user : Z) (info : url_info)
| SendAudio (chat : Z) (file : pystr) (delivered : bool)
| HandleLargeFileUpload (chat user : Z) (file : pystr).

(** The bot object: the per-user dictionaries of [MusicTelegramBot] and
    the calls made so far. *)
Record bot := {
  active_downloads : gset Z;
  download_progress : gmap Z progress;
  user_state : gmap Z conversation;
  user_tasks : gmap Z task;
  outbox : list event
}.

Definition with_progress (f : gmap Z progress → gmap Z progress) (b : bot) : bot :=
  {| active_downloads := active_downloads b; download_progress := f (download_progress b);
     user_state := user_state b; user_tasks := user_tasks b; outbox := outbox b |}.

Definition with_user_state (f : gmap Z conversation → gmap Z conversation) (b : bot) : bot :=
  {| active_downloads := active_downloads b; download_progress := download_progress b;
     user_state := f (user_state b); user_tasks := user_tasks b; outbox := outbox b |}.

Definition with_user_tasks (f : gmap Z task → gmap Z task) (b : bot) : bot :=
  {| active_downloads := active_downloads b; download_progress := download_progress b;
     user_state := user_state b; user_tasks := f (user_tasks b); outbox := outbox b |}.

Definition with_outbox (f : list event → list event) (b : bot) : bot :=
  {| active_downloads := active_downloads b; download_progress := download_progress b;
     user_state := user_state b; user_tasks := user_tasks b; outbox := f (outbox b) |}.

Definition is_fallback_start (e : event) : bool :=
  match e with LogRunningFallback _ => true | _ => false end.

(** The number of times the fallback was started in a sequence of calls. *)
Definition fallback_starts (evs : list event) : nat :=
  length (filter (λ e, is_fallback_start e = true) evs).

Definition search_argument (cmd : list pystr) : option pystr :=
  head (filter (λ a, starts_with (str "ytsearch1:") a = true) cmd).

(** The tool launches of a sequence of calls: the search argument and
    the time bound of each. *)
Definition launches (evs : list event) : list (option pystr * Z) :=
  omap (λ e, match e with
             | Exec cmd timeout_seconds => Some (search_argument cmd, timeout_seconds)
             | _ => None
             end) evs.

(** A bot serving one user, whose job has the progress record [p]. *)
Definition one_job (user : Z) (p : progress) : bot :=
  {| active_downloads := {[user]}; download_progress := {[user := p]};
     user_state := ∅; user_tasks := ∅; outbox := [] |}.

(** The bounds of a progress record. *)
Definition within_bounds (p : progress) : Prop :=
  0 ≤ percentage p ≤ 100 ∧ completed_tracks p ≤ total_tracks p.

(** The figures of a progress record that the stream parser maintains. *)
Definition figures (b : bot) (user : Z) : option (Z * Z * pystr * option pystr) :=
  (λ p, (total_tracks p, completed_tracks p, current_track p, playlist_name p))
    <$> download_progress b !! user.

(** What one run of a download tool does, as far as the bot can see: the
    lines it prints (those read before the timer fired, when it fires),
    its exit status, and the files of the job directory afterwards. *)
Record run := {
  timed_out : bool;
  output : list pystr;
  return_code : Z;
  listing : list pystr
}.

(** The environment answers each launched command with a run. *)
Definition world := list pystr → run.

(** Methods of the bot: a state monad over [bot] with exceptions.  An
    exception keeps the mutations made before it, as mutation of the
    shared dictionaries does. *)
Definition M (A : Type) : Type := bot → (exn + A) * bot.

Global Instance M_ret : MRet M := λ A a b, (inr a, b).

Global Instance M_bind : MBind M := λ A B k m b,
  match m b with
  | (inr a, b') => k a b'
  | (inl e, b') => (inl e, b')
  end.

Definition raise {A} (e : exn) : M A := λ b, (inl e, b).

Definition lift {A} (r : exn + A) : M A := λ b, (r, b).

Definition get : M bot := λ b, (inr b, b).

Definition modify (f : bot → bot) : M unit := λ b, (inr tt, f b).

Definition emit (e : event) : M unit := modify (with_outbox (λ o, o ++ [e])).

(** [self.download_progress[user_id][key] = value], made under the
    membership test that guards every such write. *)
Definition update_progress (user : Z) (f : progress → progress) : M unit :=
  modify (with_progress (alter f user)).

Definition when (c : bool) (m : M unit) : M unit := if c then m else mret tt.

(** *** The yt-dlp fallback: [fallback_download_with_ytdlp] *)

(** [dir.glob('*' + ext)]: the entries of the job directory itself whose
    name ends with [ext]. *)
Definition glob_ext (ext : string) (dir : list pystr) : list pystr :=
  filter (λ f, ends_with (str ext) f = true ∧ contains [47%N] f = false) dir.

(** [dir.rglob('*' + ext)]: entries at any depth. *)
Definition rglob_ext (ext : string) (dir : list pystr) : list pystr :=
  filter (λ f, ends_with (str ext) (default [] (last (split [47%N] f))) = true) dir.

Definition is_empty {A} (l : list A) : bool := match l with [] => true | _ => false end.

(** [str(output_dir / '%(title)s.%(ext)s')]. *)
Definition out_template (output_dir : pystr) : pystr :=
  output_dir ++ str "/%(title)s.%(ext)s".

Definition desktop_user_agent : pystr :=
  str "Mozilla/5.0 (Windows NT 10.0; Win64; x64) AppleWebKit/537.36".

Definition edge_user_agent : pystr :=
  str "Mozilla/5.0 (Windows NT 10.0; Win64; x64) AppleWebKit/537.36 (KHTML, like Gecko) Chrome/118.0.0.0 Safari/537.36 Edg/118.0.2088.76".

Definition android_user_agent : pystr :=
  str "Mozilla/5.0 (Android 11; Mobile; rv:105.0) Gecko/105.0 Firefox/105.0".

Definition cookie_options : list pystr :=
  [str "--cookies-from-browser"; str "edge"; str "--user-agent"; desktop_user_agent].

(** The first command and [cookie_success], by the three branches on
    [is_spotify_url] and [playlist_mode]. *)
Definition first_command (track_name_or_url output_dir : pystr) (playlist_mode : bool)
    : list pystr * bool :=
  let is_spotify_url := contains (str "spotify.com") track_name_or_url in
  if is_spotify_url && playlist_mode then
    let search_term :=
      if negb (starts_with (str "http") track_name_or_url) then track_name_or_url
      else str "tamil songs 90s" in
    ([str "yt-dlp"; str "-x"; str "--audio-format"; str "mp3";
      str "--audio-quality"; str "320K";
      str "--format"; str "bestaudio[ext=m4a]/bestaudio/best";
      str "--no-playlist"; str "--max-downloads"; str "1";
      str "-o"; out_template output_dir;
      str "ytsearch1:" ++ search_term] ++ cookie_options, true)
  else if playlist_mode && negb is_spotify_url then
    let yt_cmd :=
      [str "yt-dlp"; str "--extract-audio"; str "--audio-format"; str "mp3";
       str "--audio-quality"; str "320K"; str "--embed-metadata";
       str "--embed-thumbnail"; str "--ignore-errors";
       str "--max-downloads"; str "50";
       str "--format"; str "bestaudio[ext=m4a]/bestaudio/best";
       str "-o"; out_template output_dir;
       track_name_or_url] in
    if starts_with (str "http") track_name_or_url
    then (yt_cmd ++ cookie_options, true)
    else (yt_cmd, false)
  else
    let search_term :=
      if is_spotify_url then
        if contains (str "spotify.com/track") track_name_or_url
        then str "popular song 2024"
        else track_name_or_url
      else track_name_or_url in
    ([str "yt-dlp"; str "--extract-audio"; str "--audio-format"; str "mp3";
      str "--audio-quality"; str "320K"; str "--embed-metadata";
      str "--embed-thumbnail"; str "--no-playlist";
      str "--max-downloads"; str "1";
      str "--format"; str "bestaudio[ext=m4a]/bestaudio/best";
      str "--user-agent"; desktop_user_agent;
      str "--sleep-requests"; str "1"; str "--no-warnings";
      str "-o"; out_template output_dir;
      str "ytsearch1:" ++ search_term], false).

(** [clean_search], the search text of the second attempt. *)
Definition clean_search (track_name_or_url : pystr) : pystr :=
  strip (replace (str "ytsearch1:") [] track_name_or_url).

(** [simple_cmd]: the second attempt, under the Edge client identity. *)
Definition simple_cmd (track_name_or_url output_dir : pystr) : list pystr :=
  [str "yt-dlp"; str "--extract-audio"; str "--audio-format"; str "mp3";
   str "--audio-quality"; str "320K"; str "--embed-metadata"; str "--no-playlist";
   str "--max-downloads"; str "1";
   str "--format"; str "bestaudio[ext=m4a]/bestaudio/best";
   str "--user-agent"; edge_user_agent;
   str "--sleep-requests"; str "3"; str "--sleep-interval"; str "2";
   str "--extractor-args"; str "youtube:player_client=web,mweb";
   str "--no-warnings"; str "--ignore-errors";
   str "-o"; out_template output_dir;
   str "ytsearch1:" ++ clean_search track_name_or_url].

(** [simple_search], the search text of the third attempt: the part
    before the first parenthesis, of the title after [' - '] when there
    is one. *)
Definition simple_search (track_name_or_url : pystr) : pystr :=
  let song_parts := split (str " - ") (clean_search track_name_or_url) in
  if bool_decide (2 ≤ length song_parts)%nat
  then strip (default [] (head (split (str "(") (default [] (song_parts !! 1%nat)))))
  else strip (default [] (head (split (str "(") (clean_search track_name_or_url)))).

(** [final_cmd]: the third attempt, under the Android client identity. *)
Definition final_cmd (track_name_or_url output_dir : pystr) : list pystr :=
  [str "yt-dlp"; str "--extract-audio"; str "--audio-format"; str "mp3";
   str "--audio-quality"; str "320K"; str "--no-playlist";
   str "--max-downloads"; str "1"; str "--format"; str "bestaudio/best";
   str "--user-agent"; android_user_agent;
   str "--sleep-requests"; str "5";
   str "--extractor-args"; str "youtube:player_client=android";
   str "--ignore-errors"; str "--no-warnings";
   str "-o"; out_template output_dir;
   str "ytsearch1:" ++ simple_search track_name_or_url ++ str " song"].

Section orchestrator.
Variable U : unicodedata.
Variable W : world.

Definition tracked (user : Z) (b : bot) : bool :=
  bool_decide (is_Some (download_progress b !! user)).

(** One line of [_process_ytdlp_output]; the result tells whether the
    loop goes on ([true]) or the method returns ([false]). *)
Definition ytdlp_line (user : Z) (line : pystr) : M bool :=
  let line_str := strip line in
  if contains (str "Could not copy Chrome cookie database") line_str
     || contains (str "cookie database") (lower U line_str) then mret true
  else if contains (str "See  https://github.com/yt-dlp/yt-dlp/issues/7271") line_str
  then mret true
  else if contains (str "Extracting cookies from") line_str then mret true
  else if contains (str "Sign in to confirm you're not a bot") line_str
          || contains (str "bot") (lower U line_str) then
    b ← get;
    match download_progress b !! user with
    | Some p =>
        when (negb (chat_id p =? 0)) (emit (SendMessage (chat_id p) YouTubeBotDetection));;
        mret false
    | None => mret false
    end
  else
    b ← get;
    when (tracked user b)
      (if contains (str "Downloading") line_str
       then update_progress user (set_current_track (str "Downloading from YouTube..."))
       else if contains (str "Processing") line_str
       then update_progress user (set_current_track (str "Processing audio..."))
       else if contains (str "Destination:") line_str
       then match split (str "Destination: ") line_str with
            | _ :: part :: _ =>
                update_progress user
                  (set_current_track (str "Downloaded: " ++ path_stem part))
            | _ => mret tt
            end
       else mret tt);;
    mret true.

(** [_process_ytdlp_output]: [true] when every line was read, [false]
    when the method returned on a bot-detection line. *)
Fixpoint process_ytdlp_output (user : Z) (lines : list pystr) : M bool :=
  match lines with
  | [] => mret true
  | line :: rest =>
      go_on ← ytdlp_line user line;
      if go_on : bool then process_ytdlp_output user rest else mret false
  end.

(** Launching a tool under [asyncio.wait_for]: the lines are processed
    as they come; the result tells whether the timer fired, which it
    cannot once the reading method has returned on its own. *)
Definition run_ytdlp (cmd : list pystr) (timeout_seconds : Z) (user : Z) : M (bool * run) :=
  emit (Exec cmd timeout_seconds);;
  read_all ← process_ytdlp_output user (output (W cmd));
  mret (read_all && timed_out (W cmd), W cmd).

Definition media_files (r : run) : list pystr :=
  glob_ext ".mp3" (listing r) ++ glob_ext ".flac" (listing r) ++ glob_ext ".m4a" (listing r).

(** The success epilogue shared by the three attempts. *)
Definition report_downloaded (user : Z) (files : list pystr) : M bool :=
  b ← get;
  when (tracked user b)
    (update_progress user
       (λ p, set_current_track
               (str "Downloaded " ++ str_of_int (Z.of_nat (length files)) ++ str " tracks")
               (set_percentage 100 (set_status (str "completed") p)));;
     emit (UpdateProgressMessage user));;
  mret true.

(** The third attempt; [inl] is the value the method returns at once,
    [inr] the [all_files] it falls through with. *)
Definition third_attempt (track_name_or_url output_dir : pystr) (user : Z)
    (all_files : list pystr) : M (bool + list pystr) :=
  '(timer_fired, r) ← run_ytdlp (final_cmd track_name_or_url output_dir) 120 user;
  if timer_fired : bool then mret (inr all_files)
  else if (return_code r =? 0) && negb (is_empty (media_files r))
  then ok ← report_downloaded user (media_files r); mret (inl ok)
  else mret (inr (media_files r)).

Definition second_attempt (track_name_or_url output_dir : pystr) (user : Z)
    (all_files : list pystr) : M (bool + list pystr) :=
  '(timer_fired, r) ← run_ytdlp (simple_cmd track_name_or_url output_dir) 180 user;
  if timer_fired : bool then mret (inr all_files)
  else if (return_code r =? 0) && negb (is_empty (media_files r))
  then ok ← report_downloaded user (media_files r); mret (inl ok)
  else third_attempt track_name_or_url output_dir user (media_files r).

Definition fallback_download_with_ytdlp (track_name_or_url output_dir : pystr)
    (user chat : Z) (playlist_mode : bool) : M bool :=
  let '(yt_cmd, cookie_success) := first_command track_name_or_url output_dir playlist_mode in
  emit (LogRunningFallback yt_cmd);;
  b ← get;
  when (tracked user b)
    (update_progress user
       (λ p, set_status (str "downloading")
               (set_current_track (str "Searching on YouTube...") p));;
     emit (UpdateProgressMessage user));;
  '(timer_fired, r) ← run_ytdlp yt_cmd 300 user;
  if timer_fired : bool then
    emit (Kill yt_cmd);;
    emit (SendMessage chat YouTubeAlsoTimedOut);;
    mret false
  else
    let downloaded_files := glob_ext ".mp3" (listing r) ++ glob_ext ".flac" (listing r) in
    if (return_code r =? 0) && negb (is_empty downloaded_files)
    then report_downloaded user downloaded_files
    else
      let all_files := media_files r in
      outcome ← (if is_empty all_files && cookie_success
                 then second_attempt track_name_or_url output_dir user all_files
                 else mret (inr all_files));
      match outcome with
      | inl result => mret result
      | inr all_files =>
          when (is_empty all_files) (emit (SendMessage chat YouTubeBlockingDownloads));;
          mret (negb (is_empty all_files))
      end.

(** *** The primary strategy's stream parser: [_process_spotdl_output] *)

Definition digit : N → bool := is_digit U.

(** [Found (\d+) songs? in (.+?) \((?:Playlist|Album|Artist)\)] *)
Definition playlist_info_pattern : Re.re :=
  Re.seq [Re.Lit (str "Found "); Re.Group (Re.Rep true 1 digit);
          Re.Lit (str " song"); Re.Opt 115%N; Re.Lit (str " in ");
          Re.Group (Re.Rep false 1 Re.dot); Re.Lit (str " (");
          Re.Alt [str "Playlist"; str "Album"; str "Artist"]; Re.Lit (str ")")].

(** [Downloading (\d+) of (\d+): (.+)] *)
Definition downloading_pattern : Re.re :=
  Re.seq [Re.Lit (str "Downloading "); Re.Group (Re.Rep true 1 digit);
          Re.Lit (str " of "); Re.Group (Re.Rep true 1 digit);
          Re.Lit (str ": "); Re.Group (Re.Rep true 1 Re.dot)].

(** [Downloaded], a quoted [(.*?)], and a colon; the quote is code
    point 34. *)
Definition downloaded_pattern : Re.re :=
  Re.seq [Re.Lit (str "Downloaded " ++ [34%N]); Re.Group (Re.Rep false 0 Re.dot);
          Re.Lit ([34%N] ++ str ":")].

(** [No results found for song: (.+)] *)
Definition no_results_pattern : Re.re :=
  Re.seq [Re.Lit (str "No results found for song: "); Re.Group (Re.Rep true 1 Re.dot)].

(** The local variables of the parsing loop. *)
Record locals := {
  spotdl_failed : bool;
  lookup_error_detected : bool;
  fallback_called : bool
}.

(** [metadata and 'search_term' in metadata], then the entry. *)
Definition metadata_search_term (metadata : option (gmap string pystr)) : option pystr :=
  match metadata with
  | Some m => m !! "search_term"
  | None => None
  end.

Definition placeholder_labels : list pystr :=
  [str "Initializing..."; str "Extracting track info..."; str "Found: "].

(** The search phrase handed to the fallback on a lookup error. *)
Definition lookup_search_term (metadata : option (gmap string pystr)) (line_str : pystr)
    (original_url : option pystr) (p : progress) : pystr :=
  match metadata_search_term metadata with
  | Some term => term
  | None =>
      if contains (str "No results found for song:") line_str then
        match Re.search no_results_pattern line_str with
        | Some gs => strip (Re.group gs 1)
        | None => str "Unknown track"
        end
      else
        let url := default [] original_url in
        if negb (is_empty url) && contains (str "spotify.com/track") url then url
        else if negb (bool_decide (current_track p ∈ placeholder_labels))
        then current_track p
        else if negb (is_empty url) then url
        else str "Unknown track"
  end.


Definition error_markers : list pystr :=
  [str "AudioProviderError"; str "LookupError"; str "KeyError";
   str "DownloaderError"; str "YT-DLP download error"].

(** The announcement of the collection, made once. *)
Definition parse_banner (user chat : Z) (line_str : pystr) : M unit :=
  b ← get;
  match Re.search playlist_info_pattern line_str, download_progress b !! user with
  | Some gs, Some p =>
      if negb (playlist_info_sent p) then
        total_songs ← lift (int_of_digits U (Re.group gs 1));
        let name := ascii_ignore (nfkd U (Re.group gs 2)) in
        update_progress user (λ p, set_playlist name (set_total_tracks total_songs p));;
        emit (SendMessage chat (PlaylistAnnouncement name total_songs))
      else mret tt
  | _, _ => mret tt
  end.

(** The progress line, or else the completion line. *)
Definition parse_progress (user : Z) (line_str : pystr) : M unit :=
  match Re.search downloading_pattern line_str with
  | Some gs =>
      completed ← lift (int_of_digits U (Re.group gs 1));
      total ← lift (int_of_digits U (Re.group gs 2));
      let label := Re.group gs 3 in
      pc ← lift (percent completed total);
      update_progress user
        (λ p, set_total_tracks total
                (set_completed_tracks completed
                   (set_current_track label (set_percentage pc p))))
  | None =>
      match Re.search downloaded_pattern line_str with
      | Some gs =>
          update_progress user
            (λ p, if completed_tracks p <? total_tracks p
                  then set_completed_tracks (completed_tracks p + 1) p else p);;
          b ← get;
          match download_progress b !! user with
          | Some p =>
              pc ← lift (percent (completed_tracks p) (total_tracks p));
              update_progress user
                (λ p, set_current_track (Re.group gs 1) (set_percentage (Z.min pc 100) p))
          | None => raise KeyError
          end
      | None => mret tt
      end
  end.

(** The error markers: a download error is recorded on the progress
    record, a lookup error starts the fallback unless it was started
    before. *)
Definition parse_errors (user chat : Z) (output_dir : pystr) (original_url : option pystr)
    (metadata : option (gmap string pystr)) (l : locals) (line_str : pystr) : M locals :=
  if existsb (λ marker, contains marker line_str) error_markers then
    if contains (str "YT-DLP download error") line_str
       || contains (str "AudioProviderError") line_str then
      let error_msg := strip line_str in
      let error_msg :=
        if 100 <? len error_msg then slice_to 100 error_msg ++ str "..." else error_msg in
      update_progress user
        (λ p, set_current_track (str "Error: " ++ error_msg) (set_status (str "error") p));;
      mret {| spotdl_failed := true; lookup_error_detected := lookup_error_detected l;
              fallback_called := fallback_called l |}
    else if contains (str "LookupError") line_str || contains (str "KeyError") line_str then
      if negb (fallback_called l) then
        b ← get;
        match download_progress b !! user with
        | Some p =>
            let search_term := lookup_search_term metadata line_str original_url p in
            fallback_download_with_ytdlp search_term output_dir user chat false;;
            mret {| spotdl_failed := true; lookup_error_detected := true;
                    fallback_called := true |}
        | None => raise KeyError
        end
      else mret l
    else mret l
  else mret l.

(** One turn of the loop, on one decoded line of the tool's output. *)
Definition spotdl_line (user chat : Z) (output_dir : pystr) (original_url : option pystr)
    (metadata : option (gmap string pystr)) (l : locals) (line : pystr) : M locals :=
  let line_str := strip line in
  b ← get;
  if tracked user b then
    parse_banner user chat line_str;;
    parse_progress user line_str;;
    parse_errors user chat output_dir original_url metadata l line_str
  else mret l.

Fixpoint spotdl_lines (user chat : Z) (output_dir : pystr) (original_url : option pystr)
    (metadata : option (gmap string pystr)) (l : locals) (lines : list pystr) : M locals :=
  match lines with
  | [] => mret l
  | line :: rest =>
      l' ← spotdl_line user chat output_dir original_url metadata l line;
      spotdl_lines user chat output_dir original_url metadata l' rest
  end.

Definition _process_spotdl_output (lines : list pystr) (user chat : Z) (output_dir : pystr)
    (original_url : option pystr) (metadata : option (gmap string pystr)) : M bool :=
  l ← spotdl_lines user chat output_dir original_url metadata
        {| spotdl_failed := false; lookup_error_detected := false;
           fallback_called := false |} lines;
  mret (spotdl_failed l).

(** *** The periodic corrective task: [update_progress_periodically] *)

(** The recount of one iteration: [latest_dir] is the listing of the
    most recent job directory of the user, when there is one. *)
Definition recount (user : Z) (latest_dir : option (list pystr)) : M unit :=
  b ← get;
  match download_progress b !! user, latest_dir with
  | Some progress_info, Some dir =>
      if Py.eqb (platform progress_info) (str "spotify") then
        let completed := Z.of_nat (length (glob_ext ".mp3" dir)) in
        if 0 <? completed then
          update_progress user (set_completed_tracks completed);;
          if 0 <? total_tracks progress_info then
            match percent completed (total_tracks progress_info) with
            | inr pc => update_progress user (set_percentage pc)
            | inl _ => mret tt
            end
          else mret tt
        else mret tt
      else mret tt
  | _, _ => mret tt
  end.

(** One iteration: the recount, then a publication when fifteen
    seconds have passed since the last one; clock readings are in
    seconds.  The result is the new [last_update]. *)
Definition periodic_iteration (user : Z) (latest_dir : option (list pystr))
    (current_time last_update : Z) : M Z :=
  recount user latest_dir;;
  if 15 <=? current_time - last_update
  then emit (UpdateProgressMessage user);; mret current_time
  else mret last_update.

(** The loop, over the successive observations of the disk and of the
    clock, for as long as the user has a progress record. *)
Fixpoint update_progress_periodically (user : Z)
    (observations : list (option (list pystr) * Z)) (last_update : Z) : M unit :=
  match observations with
  | [] => mret tt
  | (latest_dir, current_time) :: rest =>
      b ← get;
      if tracked user b then
        last_update' ← periodic_iteration user latest_dir current_time last_update;
        update_progress_periodically user rest last_update'
      else mret tt
  end.

(** *** The figures shown by [update_progress_message] *)

(** The download branch of the message: the completed and total counts
    it prints and the number of filled cells of its twenty-cell bar.
    The progress record is read, never written. *)
Definition shown_progress (p : progress) : Z * Z * Z :=
  let total := if total_tracks p <=? 0 then 1 else total_tracks p in
  let completed := if total <? completed_tracks p then total else completed_tracks p in
  (completed, total, 20 * completed / total).

(** *** The delivery decision at the end of [process_download] *)

Definition file_size_threshold : Z := 50 * 1024 * 1024.

Definition MiB : Z := 1024 * 1024.

Inductive delivery :=
| ZipAndUpload
| DirectSend (file : pystr)
| LargeFileUpload (file : pystr).

(** [downloaded_files] pairs each file with its [st_size]; the list
    is not empty when the decision is reached. *)
Definition delivery_decision (total_tracks_ : Z) (downloaded_files : list (pystr * Z))
    : option delivery :=
  let is_playlist := (1 <? total_tracks_) || bool_decide (1 < length downloaded_files)%nat in
  let any_large := existsb (λ f, file_size_threshold <? f.2) downloaded_files in
  if is_playlist || any_large then Some ZipAndUpload
  else match downloaded_files with
       | file :: _ =>
           if file.2 <=? file_size_threshold then Some (DirectSend file.1)
           else Some (LargeFileUpload file.1)
       | [] => None
       end.

(** The tail of [process_download], from the listing of the
    downloaded files on; [progress_message_id] is the identifier of
    the progress message and [sent] the transport's answer to
    [send_audio]. *)
Definition deliver (chat user : Z) (info : url_info) (progress_message_id : Z)
    (downloaded_files : list (pystr * Z)) (sent : bool) : M unit :=
  if is_empty downloaded_files
  then emit (EditMessage chat progress_message_id NoFilesDownloaded)
  else
    b ← get;
    match download_progress b !! user with
    | None => raise KeyError
    | Some p =>
        match delivery_decision (total_tracks p) downloaded_files with
        | Some ZipAndUpload => emit (HandleZipAndUpload chat user info)
        | Some (DirectSend file) =>
            emit (EditMessage chat progress_message_id SendingAudioFile);;
            emit (SendAudio chat file sent);;
            emit (EditMessage chat progress_message_id
                    (if sent then AudioFileSent else FailedToSendAudio))
        | Some (LargeFileUpload file) => emit (HandleLargeFileUpload chat user file)
        | None => mret tt
        end
    end.

(** *** Naming the archive: [get_content_name] *)

(** A recorded, non-empty playlist name. *)
Definition recorded_name (p : progress) : option pystr :=
  match playlist_name p with
  | Some name => if is_empty name then None else Some name
  | None => None
  end.

Definition collection_types : list pystr := [str "playlist"; str "album"; str "artist"].

(** [url_info.get('type') in ['playlist', 'album', 'artist']] *)
Definition is_collection_link (info : url_info) : bool :=
  match info !! "type" with
  | Some t => bool_decide (t ∈ collection_types)
  | None => false
  end.

(** The media files found below the job directory. *)
Definition archive_media (directory : list pystr) : list pystr :=
  rglob_ext ".mp3" directory ++ rglob_ext ".m4a" directory
  ++ rglob_ext ".flac" directory ++ rglob_ext ".mp4" directory.

(** The job counts as a collection: the link is of a collection type,
    or the progress record counts several tracks, or several media
    files were downloaded. *)
Definition collection_job (p : progress) (info : url_info) (directory : list pystr) : Prop :=
  is_collection_link info = true ∨ 1 < total_tracks p
  ∨ (1 < length (archive_media directory))%nat.

(** [directory] lists the files below the job directory; [now] is
    [int(time.time())]. *)
Definition get_content_name (progress_info : option progress) (directory : list pystr)
    (info : url_info) (user now : Z) : pystr :=
  let playlist_first :=
    match progress_info with
    | Some p =>
        let is_playlist :=
          (1 <? total_tracks p) || is_collection_link info in
        if is_playlist then recorded_name p else None
    | None => None
    end in
  match playlist_first with
  | Some name => name
  | None =>
      let media_files := archive_media directory in
      let generic :=
        default (str "music") (info !! "platform") ++ str "_"
        ++ default (str "content") (info !! "type") ++ str "_"
        ++ default (str_of_int now) (info !! "id") in
      match media_files with
      | [file] => path_stem file
      | [] => generic
      | _ :: _ :: _ =>
          match progress_info with
          | Some p => default generic (recorded_name p)
          | None => str "download_" ++ str_of_int user ++ str "_" ++ str_of_int now
          end
      end
  end.

(** *** The button callbacks: [handle_callback_query] *)

(** The environment's answer to [get_youtube_resolutions]. *)
Variable get_youtube_resolutions : pystr → list Z.

Definition set_conversation_state (user : Z) (v : pystr) : M unit :=
  modify (with_user_state
            (alter (λ c, {| cv_url_info := cv_url_info c; cv_state := v |}) user)).

Definition del_user_state (user : Z) : M unit :=
  modify (with_user_state (delete user)).

(** [asyncio.create_task(self.process_download(...))] and its entry
    in [self.user_tasks]. *)
Definition start_download (chat user : Z) (info : url_info) (fmt : pystr) : M unit :=
  let t := {| tk_chat_id := chat; tk_user_id := user; tk_url_info := info;
              tk_yt_format := Some fmt |} in
  emit (CreateTask t);;
  modify (with_user_tasks (insert user t)).

(** [_, x, _ = data.split('|')] *)
Definition middle_of_three (data : pystr) : M pystr :=
  match split (str "|") data with
  | [_; x; _] => mret x
  | _ => raise ValueError
  end.

Definition send_audio_quality_choice (chat user message_id_to_edit : Z) : M unit :=
  emit (EditMessage chat message_id_to_edit AudioSelectedChooseQuality);;
  emit (EditReplyMarkup chat message_id_to_edit
          [str "yt_audio|mp3|" ++ str_of_int user; str "yt_audio|flac|" ++ str_of_int user]).

Definition send_video_quality_choice (chat user : Z) (resolutions : list Z)
    (message_id_to_edit : Z) : M unit :=
  emit (EditMessage chat message_id_to_edit VideoSelectedChooseResolution);;
  emit (EditReplyMarkup chat message_id_to_edit
          ((λ res, str "yt_video|" ++ str_of_int res ++ str "|" ++ str_of_int user)
             <$> reverse resolutions)).

(** The body of the [try] block. *)
Definition callback_body (chat user message_id_ : Z) (data : pystr) : M unit :=
  if negb (contains (str "|" ++ str_of_int user) data) then
    emit (SendMessage chat ButtonNotForYou)
  else
    b ← get;
    match user_state b !! user with
    | None =>
        emit (SendMessage chat SessionExpired);;
        emit (EditMessage chat message_id_ SessionExpiredShort)
    | Some state_data =>
        let info := cv_url_info state_data in
        if starts_with (str "yt_type|") data then
          media_type ← middle_of_three data;
          if Py.eqb media_type (str "mp3") then
            set_conversation_state user (str "awaiting_audio_quality");;
            send_audio_quality_choice chat user message_id_
          else if Py.eqb media_type (str "mp4") then
            set_conversation_state user (str "awaiting_video_quality");;
            emit (EditMessage chat message_id_ VideoSelectedChecking);;
            match info !! "url" with
            | None => raise KeyError
            | Some url =>
                let resolutions := get_youtube_resolutions url in
                if is_empty resolutions then
                  emit (EditMessage chat message_id_ NoDownloadableFormats);;
                  del_user_state user
                else send_video_quality_choice chat user resolutions message_id_
            end
          else mret tt
        else if starts_with (str "yt_audio|") data then
          fmt ← middle_of_three data;
          emit (EditMessage chat message_id_ (StartingAudioDownload fmt));;
          start_download chat user info fmt;;
          del_user_state user
        else if starts_with (str "yt_video|") data then
          fmt ← middle_of_three data;
          emit (EditMessage chat message_id_ (StartingVideoDownload fmt));;
          start_download chat user info fmt;;
          del_user_state user
        else mret tt
    end.

(** [handle_callback_query] on a callback from [user] in [chat], for
    the message [message_id_] and with payload [data]: an exception of
    the body is answered with a generic message. *)
Definition handle_callback_query (chat user message_id_ : Z) (data : pystr) : bot → bot :=
  λ b, match callback_body chat user message_id_ data b with
       | (inr _, b') => b'
       | (inl _, b') => with_outbox (λ o, o ++ [SendMessage chat AnErrorOccurred]) b'
       end.

End orchestrator.

End Bot.

(** ** Counting the fallback starts of a method *)

Module Trace.
Import Bot.

(** [starts_at_most n m]: whatever the state, the method [m] only appends
    calls to the outbox, at most [n] of which start the fallback. *)
Definition starts_at_most {A} (n : nat) (m : M A) : Prop :=
  ∀ b, ∃ evs, outbox (m b).2 = outbox b ++ evs ∧ (fallback_starts evs ≤ n)%nat.

Abbreviation quiet := (starts_at_most 0).

(** The fallback starts that the local variables of the parsing loop
    still allow. *)
Definition budget (l : locals) : nat := if fallback_called l then 0 else 1.

(** [spends l m]: the step [m], entered with the local variables [l],
    starts the fallback no more often than [l] allows, and leaves local
    variables that allow what remains. *)
Definition spends (l : locals) (m : M locals) : Prop :=
  ∀ b, ∃ evs, outbox (m b).2 = outbox b ++ evs ∧
    match (m b).1 with
    | inr l' => (fallback_starts evs + budget l' ≤ budget l)%nat
    | inl _ => (fallback_starts evs ≤ budget l)%nat
    end.

End Trace.

(** ** Reading a link: [extract_spotify_url_info], [extract_youtube_url_info]
    and the metadata listing *)

Module Links.
Import Bot.

(** [[a-zA-Z0-9]]: the ranges are ranges of code points. *)
Definition alnum (c : N) : bool :=
  ((48 <=? c) && (c <=? 57) || (65 <=? c) && (c <=? 90) || (97 <=? c) && (c <=? 122))%N.

(** [[a-zA-Z0-9_\-]] *)
Definition id_char (c : N) : bool := alnum c || (c =? 95)%N || (c =? 45)%N.

Definition spotify_kinds : list pystr :=
  [str "track"; str "album"; str "playlist"; str "artist"].

(** [https://open\.spotify\.com/(track|album|playlist|artist)/([a-zA-Z0-9]+)] *)
Definition spotify_pattern : Re.re :=
  Re.seq [Re.Lit (str "https://open.spotify.com/"); Re.Group (Re.Alt spotify_kinds);
          Re.Lit (str "/"); Re.Group (Re.Rep true 1 alnum)].

Definition link_record (platform_ type_ id_ url : pystr) : url_info :=
  {[ "platform" := platform_; "type" := type_; "id" := id_; "url" := url ]}.

Definition extract_spotify_url_info (url : pystr) : option url_info :=
  match Re.search spotify_pattern url with
  | Some gs => Some (link_record (str "spotify") (Re.group gs 1) (Re.group gs 2) url)
  | None => None
  end.

(** [(https?://)?(www\.)?(youtube\.com|youtu\.be)/(watch\?v=|playlist\?list=)?([a-zA-Z0-9_\-]+)].
    The method only tests whether this pattern matches, so its groups
    are written without capture; an optional group is the alternative
    of its texts, longest first, and of the empty text. *)
Definition youtube_pattern : Re.re :=
  Re.seq [Re.Alt [str "https://"; str "http://"; []]; Re.Alt [str "www."; []];
          Re.Alt [str "youtube.com"; str "youtu.be"]; Re.Lit (str "/");
          Re.Alt [str "watch?v="; str "playlist?list="; []]; Re.Rep true 1 id_char].

(** [list=([a-zA-Z0-9_\-]+)] *)
Definition list_id_pattern : Re.re :=
  Re.seq [Re.Lit (str "list="); Re.Group (Re.Rep true 1 id_char)].

(** [(v=|youtu\.be/)([a-zA-Z0-9_\-]+)] *)
Definition video_id_pattern : Re.re :=
  Re.seq [Re.Group (Re.Alt [str "v="; str "youtu.be/"]); Re.Group (Re.Rep true 1 id_char)].

(** The playlist branch calls [.group(1)] on the result of a search
    without testing it: [AttributeError] when the search fails. *)
Definition extract_youtube_url_info (url : pystr) : exn + option url_info :=
  match Re.search youtube_pattern url with
  | Some _ =>
      if contains (str "playlist?list=") url then
        match Re.search list_id_pattern url with
        | Some gs => inr (Some (link_record (str "youtube") (str "playlist") (Re.group gs 1) url))
        | None => inl AttributeError
        end
      else
        let yt_id :=
          match Re.search video_id_pattern url with
          | Some gs => Re.group gs 2
          | None => str "unknown"
          end in
        inr (Some (link_record (str "youtube") (str "video") yt_id url))
  | None => inr None
  end.

(** The part of [extract_spotify_metadata] that reads the listing printed
    by [spotdl list]: [stdout] is the decoded output (an output that
    decodes to the empty text holds no line with a dash, as an empty
    output does).  The first line with [' - '] that does not start with
    [Found] is the title. *)
Definition metadata_line (line : pystr) : bool :=
  contains (str " - ") line && negb (starts_with (str "Found") line).

Definition listed_metadata (returncode : Z) (stdout : pystr) : option (gmap string pystr) :=
  if (returncode =? 0) && negb (is_empty stdout) then
    match filter (λ line, metadata_line line = true) (split [10%N] (strip stdout)) with
    | line :: _ => Some {[ "search_term" := strip line; "artist_song" := strip line ]}
    | [] => None
    end
  else None.

End Links.

(** ** The name of the archive: [handle_zip_and_upload] *)

Module Archive.
Import CloudUploader.

Section zip_name.
Variable U : unicodedata.

(** [zip_path = directory.parent / f"{content_name}.zip"], then
    [CloudUploader.safe_filename(zip_path.name, 255)]. *)
Definition safe_zip_name (parent content_name : pystr) : pystr :=
  safe_filename U (path_name (parent ++ str "/" ++ content_name ++ str ".zip")) 255.
End zip_name.

End Archive.

(** ** What a method working for one user may touch *)

Module Frame.
Import Bot.

(** The part of a progress record that identifies the job: where its
    progress message is, its platform, the password of its archive and
    the state of its upload. *)
Definition same_job (p p' : progress) : Prop :=
  chat_id p' = chat_id p ∧ message_id p' = message_id p ∧ platform p' = platform p
  ∧ zip_password p' = zip_password p
  ∧ upload_progress p' = upload_progress p ∧ upload_status p' = upload_status p.

(** The counts of a progress record. *)
Definition same_counts (p p' : progress) : Prop :=
  total_tracks p' = total_tracks p ∧ completed_tracks p' = completed_tracks p.

(** The job is the same and so are its counts. *)
Definition same_job_and_counts (p p' : progress) : Prop := same_job p p' ∧ same_counts p p'.

(** What the periodic recount leaves alone: the job, its total, its
    label, its status and the name of its collection. *)
Definition same_but_completed (p p' : progress) : Prop :=
  same_job p p' ∧ total_tracks p' = total_tracks p ∧ current_track p' = current_track p
  ∧ status p' = status p ∧ playlist_name p' = playlist_name p
  ∧ playlist_info_sent p' = playlist_info_sent p.

(** [confined R user b b']: from [b] to [b'] the sets and dictionaries of
    the bot are the same but for the progress record of [user], which is
    neither created nor deleted and changes within [R]. *)
Definition confined (R : progress → progress → Prop) (user : Z) (b b' : bot) : Prop :=
  active_downloads b' = active_downloads b ∧ user_state b' = user_state b
  ∧ user_tasks b' = user_tasks b
  ∧ (∀ u, u ≠ user → download_progress b' !! u = download_progress b !! u)
  ∧ match download_progress b !! user, download_progress b' !! user with
    | Some p, Some p' => R p p'
    | None, None => True
    | _, _ => False
    end.

(** [keeps_to R user m]: whatever the state and the outcome, the method
    [m] is confined to the progress record of [user], within [R]. *)
Definition keeps_to {A} (R : progress → progress → Prop) (user : Z) (m : M A) : Prop :=
  ∀ b, confined R user b (m b).2.

End Frame.

(** ** Counting what a method publishes *)

Module Publishing.
Import Bot.

Definition is_publication (e : event) : bool :=
  match e with UpdateProgressMessage _ => true | _ => false end.

(** The number of calls of [update_progress_message] in a sequence of
    calls. *)
Definition publications (evs : list event) : Z :=
  Z.of_nat (length (filter (λ e, is_publication e = true) evs)).

(** Clock readings that never go back, starting from [prev]. *)
Fixpoint nondecreasing (prev : Z) (readings : list Z) : Prop :=
  match readings with
  | [] => True
  | t :: rest => prev ≤ t ∧ nondecreasing t rest
  end.

End Publishing.

(** ** What a button press may touch *)

Module Conversation.
Import Bot.

(** [others_untouched user b b']: from [b] to [b'] the active downloads
    and the progress records are the same, and so are the conversations
    and the tasks of every user but [user]. *)
Definition others_untouched (user : Z) (b b' : bot) : Prop :=
  active_downloads b' = active_downloads b ∧ download_progress b' = download_progress b
  ∧ ∀ u, u ≠ user →
      user_state b' !! u = user_state b !! u ∧ user_tasks b' !! u = user_tasks b !! u.

(** [only_sender user b b']: from [b] to [b'] nothing changed for any
    user but [user]. *)
Definition only_sender (user : Z) (b b' : bot) : Prop :=
  ∀ u, u ≠ user →
    (u ∈ active_downloads b' ↔ u ∈ active_downloads b)
    ∧ download_progress b' !! u = download_progress b !! u
    ∧ user_state b' !! u = user_state b !! u
    ∧ user_tasks b' !! u = user_tasks b !! u.

(** [presses user m]: whatever the state and the outcome, the method [m]
    leaves everything but the conversation and the task of [user]. *)
Definition presses {A} (user : Z) (m : M A) : Prop := ∀ b, others_untouched user b (m b).2.

End Conversation.

(** ** What a method returns *)

Module Outcome.
Import Bot.

(** [returns P m]: whatever the state, the method [m] raises no
    exception and returns a value that satisfies [P]. *)
Definition returns {A} (P : A → Prop) (m : M A) : Prop :=
  ∀ b, ∃ a, (m b).1 = inr a ∧ P a.

End Outcome.

(** ** The conversation's first step and the job: [handle_message],
    [run_spotdl_command], [process_download] *)

Module Session.
Import Bot Links.

(** The texts these methods send, by what they say. *)
Inductive notice :=
| Welcome
| AllTasksStopped
| SpotifyLinkDetected
| ContentDetails (type_ : pystr) (metadata : gmap string pystr)
| YouTubeLinkDetected
| InvalidUrl
| SomeTracksSkipped
| DownloadFailedForAllTracks
| AlreadyActive
| StartingDownload (platform_ type_ url : pystr)
| FetchingInfo
| TitleFound (type_ title : pystr)
| ExtractingTrackInformation
| TrackFound (search_term : pystr)
| SpecifyFormat
| SomeTracksFailed
| NoTracksCouldBeDownloaded (platform_ : pystr)
| ErrorDuringDownload.

(** The calls these methods make, in the order they are made: the calls
    of the methods of [Bot] they run ([Core]), their own messages, and
    what they do to tasks and directories. *)
Inductive call :=
| Core (e : event)
| Send (chat : Z) (n : notice)
| SendKeyboard (chat : Z) (n : notice) (rows : list (list pystr))
| Edit (chat msg_id : Z) (n : notice)
| CancelTask (t : task)
| StartProgressTask (user : Z)
| CancelProgressTask (user : Z)
| MakeDirectory (dir : pystr)
| RemoveTree (dir : pystr).

(** What can be raised here: the exceptions of the methods of [Bot], and
    an error of the operating system ([OSError] or one of its
    subclasses, such as [ProcessLookupError]). *)
Inductive error := Raised (e : exn) | OSError.

Record session := { core : bot; calls : list call }.

Definition S (A : Type) : Type := session → (error + A) * session.

Global Instance S_ret : MRet S := λ A a s, (inr a, s).

Global Instance S_bind : MBind S := λ A B k m s,
  match m s with
  | (inr a, s') => k a s'
  | (inl e, s') => (inl e, s')
  end.

Definition fail {A} (e : error) : S A := λ s, (inl e, s).

Definition say (c : call) : S unit :=
  λ s, (inr tt, {| core := core s; calls := calls s ++ [c] |}).

Definition look : S bot := λ s, (inr (core s), s).

(** Running a method of [Bot]: its calls are recorded in order with the
    others. *)
Definition run_core {A} (m : M A) : S A := λ s,
  let '(r, b') := m (core s) in
  (match r with inl e => inl (Raised e) | inr a => inr a end,
   {| core := b'; calls := calls s ++ (Core <$> drop (length (outbox (core s))) (outbox b')) |}).

Definition change (f : bot → bot) : S unit := run_core (modify f).

(** The calls of the methods of [Bot] among a sequence of calls. *)
Definition core_events (cs : list call) : list event :=
  omap (λ c, match c with Core e => Some e | _ => None end) cs.

Definition unless_ (c : bool) (m : S unit) : S unit := if c then mret tt else m.

Definition provided (c : bool) (m : S unit) : S unit := if c then m else mret tt.

(** [try: m except Exception: handler] *)
Definition try_except {A} (m : S A) (handler : S A) : S A := λ s,
  match m s with
  | (inl _, s') => handler s'
  | r => r
  end.

(** [try: m finally: cleanup] *)
Definition try_finally {A} (m : S A) (cleanup : S unit) : S A := λ s,
  let '(r, s') := m s in
  match cleanup s' with
  | (inl e, s'') => (inl e, s'')
  | (inr _, s'') => (r, s'')
  end.

(** [d[key]] *)
Definition item (d : url_info) (key : string) : S pystr :=
  match d !! key with
  | Some v => mret v
  | None => fail (Raised KeyError)
  end.

Definition with_active (f : gset Z → gset Z) (b : bot) : bot :=
  {| active_downloads := f (active_downloads b); download_progress := download_progress b;
     user_state := user_state b; user_tasks := user_tasks b; outbox := outbox b |}.

(** [self.download_progress[user_id][key] = value] without a membership
    test: [KeyError] when the user has no record. *)
Definition write_progress (user : Z) (f : progress → progress) : S unit :=
  b ← look;
  if tracked user b then run_core (update_progress user f) else fail (Raised KeyError).

Definition set_playlist_name (name : pystr) (p : progress) : progress :=
  {| chat_id := chat_id p; message_id := message_id p; current_track := current_track p;
     percentage := percentage p; status := status p; total_tracks := total_tracks p;
     completed_tracks := completed_tracks p; upload_progress := upload_progress p;
     upload_status := upload_status p; platform := platform p;
     playlist_name := Some name; playlist_info_sent := playlist_info_sent p;
     zip_password := zip_password p |}.

(** *** [handle_message] *)

Definition send_media_type_choice (chat user : Z) : S unit :=
  say (SendKeyboard chat YouTubeLinkDetected
         [[str "yt_type|mp3|" ++ str_of_int user; str "yt_type|mp4|" ++ str_of_int user]]).

(** The [/stop] command. *)
Definition stop (chat user : Z) : S unit :=
  change (with_active (λ a, a ∖ {[user]}));;
  change (with_progress (delete user));;
  change (with_user_state (delete user));;
  b ← look;
  match user_tasks b !! user with
  | Some t => change (with_user_tasks (delete user));; say (CancelTask t)
  | None => mret tt
  end;;
  say (Send chat AllTasksStopped).

Section messages.
(** The answers of the YouTube Data API to [get_video_info] and
    [get_playlist_info], by the type and the identifier asked for; the
    dictionary returned on success is never empty. *)
Variable youtube_api : pystr → pystr → option (gmap string pystr).

(** The details shown for a link, when the API has some. *)
Definition details (chat : Z) (type_ id_ : pystr) : list call :=
  match (if Py.eqb type_ (str "video") || Py.eqb type_ (str "playlist")
         then youtube_api type_ id_ else None) with
  | Some m => [Send chat (ContentDetails type_ m)]
  | None => []
  end.

(** The body of the [try] block: [text] is [message['text']] when the
    message has one. *)
Definition message_body (chat user : Z) (text : option pystr) : S unit :=
  match text with
  | None => mret tt
  | Some raw =>
      let text := strip raw in
      if Py.eqb text (str "/start") then say (Send chat Welcome)
      else if Py.eqb text (str "/stop") then stop chat user
      else
        match extract_spotify_url_info text with
        | Some spotify_info =>
            say (Send chat SpotifyLinkDetected);;
            let t := {| tk_chat_id := chat; tk_user_id := user;
                        tk_url_info := spotify_info; tk_yt_format := None |} in
            run_core (emit (CreateTask t));;
            change (with_user_tasks (insert user t))
        | None =>
            match extract_youtube_url_info text with
            | inl e => fail (Raised e)
            | inr None => say (Send chat InvalidUrl)
            | inr (Some youtube_info) =>
                type_ ← item youtube_info "type";
                metadata ←
                  (if Py.eqb type_ (str "video") || Py.eqb type_ (str "playlist")
                   then id_ ← item youtube_info "id"; mret (youtube_api type_ id_)
                   else mret None);
                match metadata with
                | Some m => say (Send chat (ContentDetails type_ m))
                | None => mret tt
                end;;
                change (with_user_state
                          (insert user {| cv_url_info := youtube_info;
                                          cv_state := str "awaiting_type" |}));;
                send_media_type_choice chat user
            end
        end
  end.

(** [handle_message]: an exception of the body is logged and nothing
    more is done. *)
Definition handle_message (chat user : Z) (text : option pystr) : session → session :=
  λ s, (message_body chat user text s).2.
End messages.

(** *** [run_spotdl_command] *)

Definition spotdl_cmd (url output_dir : pystr) (ffmpeg_path : option pystr) : list pystr :=
  [str "spotdl"; str "download"; url; str "--output"; output_dir;
   str "--format"; str "mp3"; str "--bitrate"; str "320k"; str "--threads"; str "2";
   str "--max-retries"; str "2"; str "--print-errors"; str "--no-cache"]
  ++ match ffmpeg_path with
     | Some path => if is_empty path then [] else [str "--ffmpeg"; path]
     | None => []
     end.

Section jobs.
Variable U : unicodedata.
Variable W : world.
(** [shutil.which('ffmpeg')] *)
Variable ffmpeg_path : option pystr.
(** Whether the process of the tool is still there when it is killed
    after the timer fired; when it is gone, [process.kill()] raises
    [ProcessLookupError], an [OSError]. *)
Variable kill_ok : bool.

(** The record brought to completion. *)
Definition finished (p : progress) : progress :=
  set_status (str "completed")
    (set_percentage 100
       (if completed_tracks p <? total_tracks p
        then set_completed_tracks (total_tracks p) p else p)).

(** What follows the branches on the exit status: the record is
    brought to completion and the result is computed; [r] is the
    tool's run. *)
Definition spotdl_epilogue (user : Z) (r : run) (spotdl_failed : bool) : S bool :=
  b ← look;
  provided (tracked user b)
    (run_core (update_progress user finished);;
     run_core (emit (UpdateProgressMessage user)));;
  b ← look;
  match download_progress b !! user with
  | Some p =>
      provided (completed_tracks p =? 0)
        (say (Edit (chat_id p) (message_id p) DownloadFailedForAllTracks))
  | None => mret tt
  end;;
  mret (negb spotdl_failed || negb (is_empty (glob_ext ".mp3" (listing r)))).

(** The text handed to the fallback by [run_spotdl_command]. *)
Definition handed_search_term (url : pystr) (metadata : option (gmap string pystr)) : pystr :=
  default url (metadata_search_term metadata).

(** The body of the [try] block; the job directory is given by its
    path, [W] answers the command with the lines read (all of them, or
    those read when the timer of 120 seconds fired), the exit status
    and the files of the directory; a directory without files has no
    entry at all.  The timer is taken to fire while the parser waits
    for the next line of the tool: a timer that fires while the parser
    awaits a message or its own fallback cuts the parser short there,
    which is not modelled. *)
Definition spotdl_body (url output_dir : pystr) (user chat : Z)
    (metadata : option (gmap string pystr)) : S bool :=
  let cmd := spotdl_cmd url output_dir ffmpeg_path in
  let r := W cmd in
  run_core (emit (Exec cmd 120));;
  say (StartProgressTask user);;
  spotdl_failed ← run_core (_process_spotdl_output U W (output r) user chat output_dir
                              (Some url) metadata);
  if timed_out r then
    (if kill_ok then run_core (emit (Kill cmd)) else fail OSError);;
    b ← look;
    provided (tracked user b)
      (run_core (update_progress user
                   (λ p, set_current_track (str "Processing...")
                           (set_status (str "downloading") p)));;
       run_core (emit (UpdateProgressMessage user)));;
    run_core (fallback_download_with_ytdlp U W (handed_search_term url metadata)
                output_dir user chat true)
  else
    say (CancelProgressTask user);;
    let downloaded_files := listing r in
    let existing_files :=
      glob_ext ".mp3" (listing r) ++ glob_ext ".m4a" (listing r)
      ++ glob_ext ".flac" (listing r) in
    b ← look;
    if negb (return_code r =? 0) && is_empty downloaded_files then
      if is_empty existing_files then
        if tracked user b then
          run_core (update_progress user
                      (λ p, set_current_track (str "Finding alternative download method...")
                              (set_status (str "downloading") p)));;
          run_core (emit (UpdateProgressMessage user));;
          run_core (fallback_download_with_ytdlp U W (handed_search_term url metadata)
                      output_dir user chat false)
        else spotdl_epilogue user r true
      else spotdl_epilogue user r spotdl_failed
    else if negb (return_code r =? 0) && negb (is_empty downloaded_files) then
      say (Send chat SomeTracksSkipped);;
      spotdl_epilogue user r spotdl_failed
    else spotdl_epilogue user r spotdl_failed.

(** [run_spotdl_command]: any exception gives [False]. *)
Definition run_spotdl_command (url output_dir : pystr) (user chat : Z)
    (metadata : option (gmap string pystr)) : S bool :=
  try_except (spotdl_body url output_dir user chat metadata) (mret false).
End jobs.

(** [fallbacks_at_most n m]: whatever the state and the outcome, the
    method [m] only adds calls, among which the fallback is started at
    most [n] times. *)
Definition fallbacks_at_most {A} (n : nat) (m : S A) : Prop :=
  ∀ s, ∃ cs, calls (m s).2 = calls s ++ cs ∧ (fallback_starts (core_events cs) ≤ n)%nat.

(** *** [process_download] *)

Section download.
Variable U : unicodedata.
Variable W : world.
Variable ffmpeg_path : option pystr.
Variable kill_ok : bool.
(** [self.temp_dir] *)
Variable temp_dir : pystr.
(** The identifier of the first message, when it could be sent. *)
Variable start_message : option Z.
(** [random.randint(1000, 9999)] *)
Variable password : Z.
(** The answer of [get_youtube_playlist_title]. *)
Variable playlist_title : option pystr.
(** [int(time.time())] *)
Variable now : Z.
(** Whether the job directory could be made. *)
Variable mkdir_ok : bool.
(** The exit status and the decoded output of [spotdl list], when it
    could be run. *)
Variable spotdl_list : option (Z * pystr).
(** [download_youtube_with_ytdlp], of which nothing is assumed. *)
Variable download_youtube_with_ytdlp : pystr → pystr → pystr → Z → Z → S bool.
(** Whether [int(text)] returns. *)
Variable int_accepts : pystr → bool.
(** The entries of the job directory, with their sizes, when the
    downloads are over. *)
Variable job_files : list (pystr * Z).
(** The answer of [send_audio]. *)
Variable sent : bool.

Definition user_dir (user : Z) : pystr :=
  temp_dir ++ str "/user_" ++ str_of_int user ++ str "_" ++ str_of_int now.

(** [user_dir.glob('*' + ext)] *)
Definition job_glob (ext : string) : list (pystr * Z) :=
  filter (λ f, ends_with (str ext) f.1 = true ∧ contains [47%N] f.1 = false) job_files.

(** The first [try] block: the title of a YouTube link. *)
Definition fetch_title (chat user msg_id : Z) (platform_ content_type : pystr) : S unit :=
  provided (Py.eqb platform_ (str "youtube"))
    (say (Edit chat msg_id FetchingInfo);;
     match playlist_title with
     | Some title =>
         unless_ (is_empty title)
           (write_progress user (set_playlist_name title);;
            say (Edit chat msg_id (TitleFound content_type title)))
     | None => mret tt
     end).

(** [extract_spotify_metadata]: an exception gives [None]. *)
Definition extract_spotify_metadata : option (gmap string pystr) :=
  match spotdl_list with
  | Some (returncode, stdout) => listed_metadata returncode stdout
  | None => None
  end.

(** The download itself: [None] when the method returns at once,
    else [success]. *)
Definition download (chat user msg_id : Z) (platform_ url : pystr)
    (yt_format : option pystr) : S (option bool) :=
  if Py.eqb platform_ (str "spotify") then
    say (Send chat ExtractingTrackInformation);;
    write_progress user (set_current_track (str "Extracting track info..."));;
    run_core (emit (UpdateProgressMessage user));;
    match extract_spotify_metadata with
    | Some metadata =>
        term ← item metadata "search_term";
        write_progress user (set_current_track (str "Found: " ++ term));;
        run_core (emit (UpdateProgressMessage user));;
        say (Send chat (TrackFound term))
    | None => mret tt
    end;;
    success ← run_spotdl_command U W ffmpeg_path kill_ok url (user_dir user) user chat
                extract_spotify_metadata;
    mret (Some success)
  else if Py.eqb platform_ (str "youtube") then
    match yt_format with
    | None => say (Edit chat msg_id SpecifyFormat);; mret None
    | Some fmt =>
        success ← download_youtube_with_ytdlp url (user_dir user) fmt user chat;
        mret (Some success)
    end
  else mret (Some false).

(** The second [try] block. *)
Definition job_body (chat user msg_id : Z) (info : url_info) (platform_ url : pystr)
    (yt_format : option pystr) : S unit :=
  say (MakeDirectory (user_dir user));;
  unless_ mkdir_ok (fail OSError);;
  outcome ← download chat user msg_id platform_ url yt_format;
  match outcome with
  | None => mret tt
  | Some false =>
      let downloaded_files :=
        job_glob ".mp3" ++ job_glob ".m4a" ++ job_glob ".flac" ++ job_glob ".mp4" in
      if is_empty downloaded_files
      then say (Edit chat msg_id (NoTracksCouldBeDownloaded platform_))
      else say (Send chat SomeTracksFailed);;
           run_core (emit (HandleZipAndUpload chat user info))
  | Some true =>
      let downloaded_files :=
        if Py.eqb platform_ (str "youtube") then
          match yt_format with
          | Some fmt =>
              if int_accepts fmt then job_glob ".mp4" ++ job_glob ".webm"
              else job_glob ".mp3" ++ job_glob ".m4a" ++ job_glob ".flac"
          | None => job_glob ".mp3" ++ job_glob ".m4a" ++ job_glob ".flac"
          end
        else job_glob ".mp3" in
      run_core (deliver chat user info msg_id downloaded_files sent)
  end.

(** The [finally] block. *)
Definition cleanup (user : Z) : S unit :=
  change (with_active (λ a, a ∖ {[user]}));;
  change (with_progress (delete user));;
  provided mkdir_ok (say (RemoveTree (user_dir user))).

Definition process_download (chat user : Z) (info : url_info) (yt_format : option pystr)
    : S unit :=
  b ← look;
  if bool_decide (user ∈ active_downloads b) then say (Send chat AlreadyActive)
  else
    change (with_active (λ a, a ∪ {[user]}));;
    platform_ ← item info "platform";
    content_type ← item info "type";
    url ← item info "url";
    say (Send chat (StartingDownload platform_ content_type url));;
    match start_message with
    | None => change (with_active (λ a, a ∖ {[user]}))
    | Some msg_id =>
        change (with_progress
                  (insert user (initial_progress chat msg_id platform_ (str_of_int password))));;
        try_except (fetch_title chat user msg_id platform_ content_type) (mret tt);;
        try_finally
          (try_except (job_body chat user msg_id info platform_ url yt_format)
             (say (Edit chat msg_id ErrorDuringDownload)))
          (cleanup user)
    end.
End download.

(** A tool that prints nothing, leaves nothing and exits with status 0,
    and a bot without any job. *)
Definition quiet_tool : world :=
  λ _, {| timed_out := false; output := []; return_code := 0; listing := [] |}.

Definition no_job : bot :=
  {| active_downloads := ∅; download_progress := ∅; user_state := ∅; user_tasks := ∅;
     outbox := [] |}.

End Session.

(** ** Running the methods: equations of the state monad *)

Module MonadFacts.
Import Bot.

Section equations.
Context {A B : Type}.

Lemma run_ret (a : A) b : (mret a : M A) b = (inr a, b).
Proof. reflexivity. Qed.

Lemma run_bind_ret (a : A) (k : A → M B) b : (mret a ≫= k) b = k a b.
Proof. reflexivity. Qed.

Lemma run_bind_raise (e : exn) (k : A → M B) b : (raise e ≫= k) b = (inl e, b).
Proof. reflexivity. Qed.

Lemma run_bind_lift (r : exn + A) (k : A → M B) b :
  (lift r ≫= k) b = match r with inr a => k a b | inl e => (inl e, b) end.
Proof. by destruct r. Qed.

Lemma run_bind_get (k : bot → M B) b : (get ≫= k) b = k b b.
Proof. reflexivity. Qed.

Lemma run_bind_modify f (k : () → M B) b : (modify f ≫= k) b = k () (f b).
Proof. reflexivity. Qed.

Lemma run_bind_emit e (k : () → M B) b :
  (emit e ≫= k) b = k () (with_outbox (λ o, o ++ [e]) b).
Proof. reflexivity. Qed.

Lemma run_bind_update user f (k : () → M B) b :
  (update_progress user f ≫= k) b = k () (with_progress (alter f user) b).
Proof. reflexivity. Qed.

Lemma run_bind_when (c : bool) m (k : () → M B) b :
  (when c m ≫= k) b = if c then (m ≫= k) b else k () b.
Proof. by destruct c. Qed.
End equations.

Lemma run_emit e b : emit e b = (inr (), with_outbox (λ o, o ++ [e]) b).
Proof. reflexivity. Qed.

Lemma run_update user f b :
  update_progress user f b = (inr (), with_progress (alter f user) b).
Proof. reflexivity. Qed.

Lemma run_modify f b : modify f b = (inr (), f b).
Proof. reflexivity. Qed.

Lemma run_raise {A} e b : raise (A:=A) e b = (inl e, b).
Proof. reflexivity. Qed.

Lemma progress_with_progress f b :
  download_progress (with_progress f b) = f (download_progress b).
Proof. reflexivity. Qed.

Lemma progress_with_outbox f b : download_progress (with_outbox f b) = download_progress b.
Proof. reflexivity. Qed.

Lemma outbox_with_progress f b : outbox (with_progress f b) = outbox b.
Proof. reflexivity. Qed.

Lemma outbox_with_outbox f b : outbox (with_outbox f b) = f (outbox b).
Proof. reflexivity. Qed.

Create Rewrite HintDb bot.
#[export] Hint Rewrite @run_bind_ret @run_bind_raise @run_bind_get @run_bind_modify
  @run_bind_emit @run_bind_update @run_ret run_emit run_update run_modify @run_raise
  progress_with_progress progress_with_outbox outbox_with_progress outbox_with_outbox : bot.

End MonadFacts.
(** ** The sanitized file names *)

Module SafeFilenameFacts.
Import CloudUploader.

Lemma ascii_ignore_all_ascii s : all_ascii (ascii_ignore s).
Proof.
  unfold all_ascii, ascii_ignore. apply Forall_forall. intros c Hc.
  apply list_elem_of_filter in Hc. tauto.
Qed.

Lemma ascii_ignore_id s : all_ascii s → ascii_ignore s = s.
Proof.
  unfold all_ascii, ascii_ignore. induction 1 as [|c s Hc _ IH]; [done|].
  rewrite filter_cons_True by done. by rewrite IH.
Qed.

Lemma sub_unsafe_runs_safe in_run s : path_safe (sub_unsafe_runs in_run s).
Proof.
  unfold path_safe. revert in_run.
  induction s as [|c s IH]; intros in_run; simpl; [constructor|].
  destruct (path_unsafe c) eqn:Hc.
  - destruct in_run; [apply IH|]. constructor; [reflexivity | apply IH].
  - constructor; [exact Hc | apply IH].
Qed.

Lemma sub_unsafe_runs_ascii in_run s : all_ascii s → all_ascii (sub_unsafe_runs in_run s).
Proof.
  unfold all_ascii. intros H. revert in_run.
  induction H as [|c s Hc _ IH]; intros in_run; simpl; [constructor|].
  destruct (path_unsafe c).
  - destruct in_run; [apply IH|]. constructor; [reflexivity | apply IH].
  - constructor; [exact Hc | apply IH].
Qed.

Lemma sub_unsafe_runs_id s : path_safe s → sub_unsafe_runs false s = s.
Proof.
  unfold path_safe. induction 1 as [|c s Hc _ IH]; simpl; [done|].
  by rewrite Hc, IH.
Qed.

Lemma slice_to_Forall (P : N → Prop) k s : Forall P s → Forall P (slice_to k s).
Proof. intros H. unfold slice_to. destruct (0 <=? k); by apply Forall_take. Qed.

Lemma len_slice_to k s : 0 ≤ k → len (slice_to k s) ≤ k.
Proof.
  intros Hk. unfold slice_to, len. rewrite (proj2 (Z.leb_le 0 k) Hk).
  rewrite length_take. lia.
Qed.

Lemma len_app a b : len (a ++ b) = len a + len b.
Proof. unfold len. rewrite length_app. lia. Qed.

Lemma ext_cut ext : (if 10 <? len ext then slice_to 10 ext else ext) = take 10 ext.
Proof.
  unfold len, slice_to. destruct (Z.ltb_spec 10 (Z.of_nat (length ext))); [done|].
  symmetry. apply take_ge. lia.
Qed.

Lemma rfind_from_lower c s i last : -1 ≤ last → 0 ≤ i → -1 ≤ rfind_from c s i last.
Proof.
  revert i last. induction s as [|x s IH]; intros i last Hl Hi; simpl; [done|].
  apply IH; [|lia]. destruct (N.eqb x c); lia.
Qed.

Lemma splitext_app p : (splitext p).1 ++ (splitext p).2 = p.
Proof.
  unfold splitext, _splitext.
  destruct (_ && _) eqn:H; simpl; [|by rewrite app_nil_r].
  apply andb_true_iff in H as [H _]. apply Z.ltb_lt in H.
  pose proof (rfind_from_lower 47%N p 0 (-1) ltac:(lia) ltac:(lia)) as Hs.
  fold (rfind 47%N p) in Hs.
  unfold slice_to, slice_from.
  rewrite (proj2 (Z.leb_le 0 _)) by lia. apply take_drop.
Qed.

Section facts.
Variable U : unicodedata.

Lemma safe_filename_unfold filename max_length :
  ∃ stem, safe_filename U filename max_length = stem ++ kept_ext filename
    ∧ all_ascii stem ∧ path_safe stem
    ∧ (len (kept_ext filename) ≤ max_length → len stem ≤ max_length - len (kept_ext filename)).
Proof.
  unfold safe_filename, kept_ext. destruct (splitext filename) as [base ext]. simpl.
  rewrite ext_cut.
  set (cleaned := sub_unsafe_runs false (ascii_ignore (nfkd U base))).
  assert (all_ascii cleaned) as Ha
    by apply sub_unsafe_runs_ascii, ascii_ignore_all_ascii.
  assert (path_safe cleaned) as Hs by apply sub_unsafe_runs_safe.
  destruct (Z.ltb_spec (max_length - len (take 10 ext)) (len cleaned)).
  - eexists; split; [reflexivity|]. split; [by apply slice_to_Forall|].
    split; [by apply slice_to_Forall|]. intros. apply len_slice_to. lia.
  - eexists; split; [reflexivity|]. repeat split; try done.
Qed.

(** C8, as amended. [safe_filename] returns a stem followed by the
    extension of the input cut to ten characters. The stem is ASCII
    and free of path-unsafe characters. The result is no longer than
    the bound whenever the bound is at least the length of the kept
    extension; it is all ASCII when the extension is; and the
    extension is kept whole when it has at most ten characters. *)
Theorem safe_filename_sanitizes filename max_length :
  ∃ stem,
    safe_filename U filename max_length = stem ++ kept_ext filename
    ∧ all_ascii stem ∧ path_safe stem
    ∧ (len (kept_ext filename) ≤ max_length →
       len (safe_filename U filename max_length) ≤ max_length)
    ∧ (all_ascii (splitext filename).2 →
       all_ascii (safe_filename U filename max_length))
    ∧ (len (splitext filename).2 ≤ 10 → kept_ext filename = (splitext filename).2).
Proof.
  destruct (safe_filename_unfold filename max_length) as (stem & Hr & Ha & Hs & Hl).
  exists stem. rewrite Hr. repeat split; try done.
  - intros H. rewrite len_app. specialize (Hl H). lia.
  - intros H. apply Forall_app. split; [done|]. by apply Forall_take.
  - intros H. apply take_ge. unfold len in H. lia.
Qed.

(** C10, as amended. Applying [safe_filename] twice with the same bound
    gives what one application gives, when the bound is at least the
    length of the kept extension and the result, split again by
    [os.path.splitext], has an ASCII stem free of path-unsafe
    characters and an extension of at most ten characters. *)
Theorem safe_filename_idempotent s n :
  nfkd_fixes_ascii U →
  len (kept_ext s) ≤ n →
  all_ascii (splitext (safe_filename U s n)).1 →
  path_safe (splitext (safe_filename U s n)).1 →
  len (splitext (safe_filename U s n)).2 ≤ 10 →
  safe_filename U (safe_filename U s n) n = safe_filename U s n.
Proof.
  intros Hnfkd Hn Hba Hbs Hre.
  destruct (safe_filename_unfold s n) as (stem & Hr & _ & _ & Hl).
  specialize (Hl Hn).
  set (r := safe_filename U s n) in *.
  assert (len r ≤ n) as Hrl by (rewrite Hr, len_app; lia).
  pose proof (splitext_app r) as Happ.
  unfold safe_filename at 1. destruct (splitext r) as [base ext]. simpl in *.
  rewrite <- Happ, len_app in Hrl.
  rewrite (Hnfkd base Hba), (ascii_ignore_id base Hba), (sub_unsafe_runs_id base Hbs).
  rewrite ext_cut, (take_ge ext) by (unfold len in Hre; lia).
  destruct (Z.ltb_spec (n - len ext) (len base)); [lia|]. exact Happ.
Qed.
End facts.

Lemma excerpt_fixes_ascii : nfkd_fixes_ascii excerpt.
Proof. unfold nfkd_fixes_ascii.
  intros s. induction 1 as [|c s Hc _ IH]; [done|].
  cbn in *. rewrite IH. unfold excerpt_decompose. by rewrite Hc.
Qed.

(** The title of the specification's example, with accents and
    path-unsafe characters, sanitizes to [Beyonce_Halo.mp3]. *)
Lemma safe_filename_example :
  safe_filename excerpt
    ([66; 101; 121; 111; 110; 99; 233; 58; 32; 72; 228; 108; 111]%N ++ str ".mp3") 240
  = str "Beyonce_Halo.mp3".
Proof. vm_compute. reflexivity. Qed.

Lemma safe_filename_sanitizes_witness :
  ∃ stem,
    safe_filename excerpt (str "My Song.mp3") 240 = stem ++ kept_ext (str "My Song.mp3")
    ∧ all_ascii stem ∧ path_safe stem
    ∧ (len (kept_ext (str "My Song.mp3")) ≤ 240 →
       len (safe_filename excerpt (str "My Song.mp3") 240) ≤ 240)
    ∧ (all_ascii (splitext (str "My Song.mp3")).2 →
       all_ascii (safe_filename excerpt (str "My Song.mp3") 240))
    ∧ (len (splitext (str "My Song.mp3")).2 ≤ 10 →
       kept_ext (str "My Song.mp3") = (splitext (str "My Song.mp3")).2).
Proof. exact (safe_filename_sanitizes excerpt (str "My Song.mp3") 240). Defined.

Lemma safe_filename_idempotent_witness :
  safe_filename excerpt (safe_filename excerpt ([66; 101; 121; 111; 110; 99; 233; 58; 32; 72; 228; 108; 111]%N ++ str ".mp3") 240) 240
  = safe_filename excerpt ([66; 101; 121; 111; 110; 99; 233; 58; 32; 72; 228; 108; 111]%N ++ str ".mp3") 240.
Proof.
  apply (safe_filename_idempotent excerpt _ 240 excerpt_fixes_ascii).
  - vm_compute. discriminate.
  - vm_compute. repeat constructor.
  - vm_compute. repeat constructor.
  - vm_compute. discriminate.
Defined.

(** When the stem is cut away, an extension with a path-unsafe
    character, or with an accented letter, becomes the stem of the
    second application and is rewritten there. *)
Lemma safe_filename_rewrites_a_bare_extension :
  safe_filename excerpt (str "ab.t x") 4 = str ".t x"
  ∧ safe_filename excerpt (str ".t x") 4 = str ".t_x"
  ∧ safe_filename excerpt (str "ab." ++ [233%N; 120%N]) 3 = [46%N; 233%N; 120%N]
  ∧ safe_filename excerpt [46%N; 233%N; 120%N] 3 = str ".ex".
Proof. repeat split; vm_compute; reflexivity. Qed.

(** A dot in a directory part becomes the dot of an extension once the
    separator is replaced, and the second application cuts that
    extension to ten characters. *)
Lemma safe_filename_not_idempotent :
  let s := str "a.bcdefghijklmn/o" in
  let r := safe_filename excerpt s 240 in
  len (kept_ext s) ≤ 240 ∧ len (splitext r).2 ≤ 240
  ∧ r = str "a.bcdefghijklmn_o"
  ∧ safe_filename excerpt r 240 = str "a.bcdefghij"
  ∧ safe_filename excerpt r 240 ≠ r.
Proof. vm_compute. repeat split; (reflexivity || discriminate). Qed.

(** An extension with an accented letter and more than ten characters:
    the result is not ASCII and does not end with the extension. *)
Lemma safe_filename_foreign_extension :
  let filename := str "song." ++ [233%N] ++ str "-remastered-2011" in
  let r := safe_filename excerpt filename 240 in
  r = str "song." ++ [233%N] ++ str "-remaste"
  ∧ ¬ all_ascii r
  ∧ ¬ (splitext filename).2 `suffix_of` r.
Proof.
  intros filename r. split; [vm_compute; reflexivity|]. split.
  - vm_compute. intros H.
    do 5 (apply Forall_cons in H as [_ H]). apply Forall_cons in H as [H _]. discriminate.
  - intros H. apply suffix_length in H. revert H. vm_compute. lia.
Qed.
End SafeFilenameFacts.

(** ** The patterns on the lines the tools print *)

Module PatternFacts.
Import Bot.

Lemma starts_with_app m t : starts_with m (m ++ t) = true.
Proof. induction m as [|c m IH]; [done|]. cbn. by rewrite N.eqb_refl. Qed.



Lemma search_here m r s gs :
  Re.exec r s [] (λ _ gs, Some gs) = Some gs →
  Re.search (Re.Seq (Re.Lit m) r) (m ++ s) = Some gs.
Proof.
  intros H. destruct (m ++ s) eqn:Hms; cbn [Re.search Re.exec]; rewrite <- Hms;
    by rewrite starts_with_app, drop_app_length, H.
Qed.

Lemma rep_greedy_run {R} cls min run rest (k : pystr → option R) r :
  Forall (λ c, cls c = true) run → (min ≤ length run)%nat →
  (∀ c rest', rest = c :: rest' → cls c = false) →
  k rest = Some r →
  Re.rep_greedy cls min (run ++ rest) k = Some r.
Proof.
  intros Hrun. revert min. induction Hrun as [|c run Hc _ IH]; intros min Hmin Hrest Hk.
  - cbn in Hmin. replace min with 0%nat by lia. cbn [app].
    destruct rest as [|c rest']; cbn [Re.rep_greedy]; [done|].
    by rewrite (Hrest c rest' eq_refl).
  - cbn [app Re.rep_greedy]. rewrite Hc, (IH (Nat.pred min)); [done| |done|done].
    cbn in Hmin. lia.
Qed.

Lemma exec_lit {R} m r s gs (k : pystr → list pystr → option R) :
  Re.exec (Re.Seq (Re.Lit m) r) (m ++ s) gs k = Re.exec r s gs k.
Proof. cbn [Re.exec]. by rewrite starts_with_app, drop_app_length. Qed.

(** A greedy group over a class takes the whole run of the class that
    the input starts with, when the rest of the pattern accepts what
    follows. *)
Lemma exec_group_run {R} cls min r run rest gs (k : pystr → list pystr → option R) x :
  Forall (λ c, cls c = true) run → (min ≤ length run)%nat →
  (∀ c rest', rest = c :: rest' → cls c = false) →
  Re.exec r rest (gs ++ [run]) k = Some x →
  Re.exec (Re.Seq (Re.Group (Re.Rep true min cls)) r) (run ++ rest) gs k = Some x.
Proof.
  intros Hrun Hmin Hrest Hk. cbn [Re.exec].
  apply rep_greedy_run; [done..|].
  rewrite length_app, Nat.add_sub, take_app_length. exact Hk.
Qed.

Lemma exec_group_end {R} cls min r run gs (k : pystr → list pystr → option R) x :
  Forall (λ c, cls c = true) run → (min ≤ length run)%nat →
  Re.exec r [] (gs ++ [run]) k = Some x →
  Re.exec (Re.Seq (Re.Group (Re.Rep true min cls)) r) run gs k = Some x.
Proof.
  intros Hrun Hmin Hk.
  pose proof (exec_group_run cls min r run [] gs k x Hrun Hmin) as H.
  rewrite app_nil_r in H. apply H; done.
Qed.


Section digits.
Variable U : unicodedata.
Hypothesis HU : ascii_digits U.

Lemma space_is_no_digit : digit U 32%N = false.
Proof. unfold digit, is_digit. by rewrite (HU 32%N eq_refl). Qed.

Lemma colon_is_no_digit : digit U 58%N = false.
Proof. unfold digit, is_digit. by rewrite (HU 58%N eq_refl). Qed.

(** The groups of a progress line are the two numerals and the label. *)
Lemma search_downloading digits_i digits_n label :
  digits_i ≠ [] → Forall (λ c, digit U c = true) digits_i →
  digits_n ≠ [] → Forall (λ c, digit U c = true) digits_n →
  label ≠ [] → Forall (λ c, Re.dot c = true) label →
  Re.search (downloading_pattern U)
    (str "Downloading " ++ digits_i ++ str " of " ++ digits_n ++ str ": " ++ label)
  = Some [digits_i; digits_n; label].
Proof.
  intros Hi Hdi Hn Hdn Hl Hdl. unfold downloading_pattern, Re.seq. cbn [foldr].
  apply search_here.
  apply exec_group_run; [done|destruct digits_i; [done|cbn; lia]| |].
  { intros c rest' [= <- _]. apply space_is_no_digit. }
  rewrite exec_lit.
  apply exec_group_run; [done|destruct digits_n; [done|cbn; lia]| |].
  { intros c rest' [= <- _]. apply colon_is_no_digit. }
  rewrite exec_lit.
  apply exec_group_end; [done|destruct label; [done|cbn; lia]|].
  reflexivity.
Qed.
End digits.
End PatternFacts.

(** ** The progress record: stream lines and the periodic recount *)

Module ProgressFacts.
Import Bot MonadFacts.

Lemma recount_spotify b user p dir :
  download_progress b !! user = Some p →
  platform p = str "spotify" →
  ∃ p', download_progress (recount user (Some dir) b).2 !! user = Some p'
     ∧ completed_tracks p' =
         (if 0 <? Z.of_nat (length (glob_ext ".mp3" dir))
          then Z.of_nat (length (glob_ext ".mp3" dir)) else completed_tracks p)
     ∧ total_tracks p' = total_tracks p.
Proof.
  intros Hp Hs. unfold recount. rewrite run_bind_get, Hp, Hs.
  replace (Py.eqb (str "spotify") (str "spotify")) with true by reflexivity.
  destruct (0 <? Z.of_nat (length (glob_ext ".mp3" dir))) eqn:Hn.
  - rewrite run_bind_update. destruct (0 <? total_tracks p) eqn:Ht.
    + destruct (percent _ _); autorewrite with bot; cbn [snd];
        autorewrite with bot; rewrite ?lookup_alter_eq, Hp; cbn; eauto.
    + autorewrite with bot. cbn [snd]. autorewrite with bot.
      rewrite lookup_alter_eq, Hp. cbn. eauto.
  - autorewrite with bot. eauto.
Qed.

(** *** What a progress line stores *)

(** For every progress line [Downloading i of n: label], the parser
    stores [i] as the completed count, [n] as the total and the label,
    with the percentage [int((i / n) * 100)]; when that computation
    raises (a total of zero), the record is left as it was. *)
Lemma downloading_line_sets_completed_to_i U user digits_i digits_n label i n b :
  ascii_digits U →
  digits_i ≠ [] → Forall (λ c, digit U c = true) digits_i → int_of_digits U digits_i = inr i →
  digits_n ≠ [] → Forall (λ c, digit U c = true) digits_n → int_of_digits U digits_n = inr n →
  label ≠ [] → Forall (λ c, Re.dot c = true) label →
  parse_progress U user
    (str "Downloading " ++ digits_i ++ str " of " ++ digits_n ++ str ": " ++ label) b
  = match percent i n with
    | inr pc =>
        (inr (), with_progress
                   (alter (λ p, set_total_tracks n
                                  (set_completed_tracks i
                                     (set_current_track label (set_percentage pc p)))) user) b)
    | inl e => (inl e, b)
    end.
Proof.
  intros HU Hi Hdi Hvi Hn Hdn Hvn Hl Hdl. unfold parse_progress.
  rewrite (PatternFacts.search_downloading U HU) by done.
  change (Re.group [digits_i; digits_n; label] 1) with digits_i.
  change (Re.group [digits_i; digits_n; label] 2) with digits_n.
  change (Re.group [digits_i; digits_n; label] 3) with label.
  rewrite Hvi, Hvn. unfold mbind, M_bind, lift. by destruct (percent i n).
Qed.

Lemma excerpt_ascii_digits : ascii_digits excerpt.
Proof. intros c _. reflexivity. Qed.

(** The line [Downloading 12 of 45: Song A] stores 12 of 45. *)
Lemma downloading_line_example (b : bot) :
  parse_progress excerpt 7 (str "Downloading " ++ str "12" ++ str " of " ++ str "45"
                            ++ str ": " ++ str "Song A") b
  = (inr (), with_progress
               (alter (λ p, set_total_tracks 45
                              (set_completed_tracks 12
                                 (set_current_track (str "Song A") (set_percentage 26 p)))) 7) b).
Proof.
  exact (downloading_line_sets_completed_to_i excerpt 7 (str "12") (str "45") (str "Song A")
           12 45 b excerpt_ascii_digits ltac:(discriminate) ltac:(repeat constructor)
           eq_refl ltac:(discriminate) ltac:(repeat constructor) eq_refl
           ltac:(discriminate) ltac:(repeat constructor)).
Qed.

(** *** The completion line keeps the bounds *)

Lemma binary_round_aux_sign s m e l :
  match binary_round_aux prec emax s m e l with
  | S754_zero s' | S754_finite s' _ _ | S754_infinity s' => s' = s
  | S754_nan => True
  end.
Proof.
  unfold binary_round_aux. destruct (shr_fexp _ _ _ _ _) as [mrs' e'].
  destruct (shr_fexp _ _ _ _ _) as [mrs'' e'']. destruct (shr_m mrs''); [done| |done].
  by destruct (_ <=? _).
Qed.

Lemma int_of_float_nonneg x n :
  match x with S754_zero _ | S754_nan | S754_infinity _ => True | S754_finite s _ _ => s = false end →
  int_of_float x = inr n → 0 ≤ n.
Proof.
  destruct x as [s|s| |s m e]; cbn; try congruence; [intros _ [= <-]; lia|].
  intros -> [= <-]. destruct (Z.leb_spec 0 e).
  - apply Z.mul_nonneg_nonneg; [lia|]. apply Z.pow_nonneg. lia.
  - apply Z.div_pos; [lia|]. apply Z.pow_pos_nonneg; lia.
Qed.

(** The percentage of a count that is not negative is not negative. *)
Lemma percent_nonneg completed total pc :
  0 ≤ completed → 0 ≤ total → percent completed total = inr pc → 0 ≤ pc.
Proof.
  intros Hc Ht. unfold percent, true_div. destruct (total =? 0) eqn:H0; [done|].
  apply Z.eqb_neq in H0.
  destruct total as [|t|t]; [done| |lia].
  destruct completed as [|c|c]; [| |lia].
  - cbn. intros [= <-]. lia.
  - cbn [float_of_int SFdiv].
    destruct (SFdiv_core_binary _ _ _ _ _ _) as [[mz ez] lz].
    pose proof (binary_round_aux_sign (xorb false false) mz ez lz) as Hs.
    destruct (binary_round_aux prec emax (xorb false false) mz ez lz) as [s|s| |s m e];
      [..|done| ]; try done.
    + cbn. intros [= <-]. lia.
    + cbn in Hs. subst s. unfold times_100. cbn [SFmul].
      pose proof (binary_round_aux_sign (xorb false false) (Z.pos (m * 100)) (e + 0) loc_Exact)
        as Hs.
      intros H. eapply int_of_float_nonneg; [|exact H].
      by destruct (binary_round_aux prec emax (xorb false false) _ _ _).
Qed.

(** On a [Downloaded] line the increment and the new percentage keep a
    record within its bounds. *)
Lemma downloaded_line_keeps_bounds U user line gs b p :
  Re.search (downloading_pattern U) line = None →
  Re.search downloaded_pattern line = Some gs →
  download_progress b !! user = Some p →
  within_bounds p → 0 ≤ completed_tracks p →
  ∃ p', download_progress (parse_progress U user line b).2 !! user = Some p'
        ∧ within_bounds p' ∧ 0 ≤ completed_tracks p'.
Proof.
  intros Hnone Hsome Hp [Hpc Hct] Hc0. unfold parse_progress. rewrite Hnone, Hsome.
  rewrite run_bind_update, run_bind_get. autorewrite with bot.
  rewrite lookup_alter_eq, Hp. cbn [fmap option_fmap option_map].
  set (p1 := if completed_tracks p <? total_tracks p
             then set_completed_tracks (completed_tracks p + 1) p else p).
  assert (within_bounds p1 ∧ 0 ≤ completed_tracks p1) as [[Hpc1 Hct1] Hc1].
  { unfold p1. destruct (Z.ltb_spec (completed_tracks p) (total_tracks p));
      unfold within_bounds; cbn; lia. }
  rewrite run_bind_lift. destruct (percent _ _) as [e|pc] eqn:Hpercent.
  - cbn [snd]. autorewrite with bot. rewrite lookup_alter_eq, Hp. cbn. fold p1.
    exists p1. unfold within_bounds. split; [done|lia].
  - rewrite run_update. cbn [snd]. autorewrite with bot.
    rewrite lookup_alter_eq, lookup_alter_eq, Hp. cbn. eexists. split; [done|].
    apply percent_nonneg in Hpercent; [|lia..].
    fold p1. unfold within_bounds. cbn. lia.
Qed.

(** The figures shown by the progress message are clamped, whatever the
    record holds. *)
Lemma shown_progress_clamped p :
  let '(completed, total, filled) := shown_progress p in
  completed ≤ total ∧ 1 ≤ total
  ∧ (0 ≤ completed_tracks p → 0 ≤ completed ∧ 0 ≤ filled ≤ 20).
Proof.
  unfold shown_progress.
  set (total := if total_tracks p <=? 0 then 1 else total_tracks p).
  assert (1 ≤ total) by (unfold total; destruct (Z.leb_spec (total_tracks p) 0); lia).
  set (completed := if total <? completed_tracks p then total else completed_tracks p).
  assert (completed ≤ total ∧ (0 ≤ completed_tracks p → 0 ≤ completed)) as [? ?]
    by (unfold completed; destruct (Z.ltb_spec total (completed_tracks p)); lia).
  split; [done|]. split; [done|]. intros Hc. split; [auto|]. split.
  - apply Z.div_pos; lia.
  - apply Z.div_le_upper_bound; [lia|]. nia.
Qed.

(** C1. A progress line [Downloading i of n: label] stores [i] itself as
    the completed count, not [i - 1]: from the initial record, the line
    [Downloading 1 of 5: SongA] alone leaves completed = 1, and the three
    lines of the example leave total = 5, completed = 2, the label SongA
    and, when the banner uses the tool's wording, the name MyMix (the
    banner reading [items ... (Collection)] is not recognised at all). *)
Theorem downloading_line_stores_the_item_number (W : world) :
  let start := one_job 7 (initial_progress 1 2 (str "spotify") (str "1234")) in
  let run lines :=
    (_process_spotdl_output excerpt W lines 7 1 (str "/tmp/mbot/user_7_0") None None start).2 in
  figures (run [str "Downloading 1 of 5: SongA"]) 7
    = Some (5, 1, str "SongA", None)
  ∧ figures (run [str "Found 5 songs in MyMix (Playlist)";
                  str "Downloading 1 of 5: SongA";
                  str "Downloaded " ++ quoted (str "SongA") ++ str ":"]) 7
    = Some (5, 2, str "SongA", Some (str "MyMix"))
  ∧ figures (run [str "Found 5 items in MyMix (Collection)";
                  str "Downloading 1 of 5: SongA";
                  str "Downloaded " ++ quoted (str "SongA") ++ str ":"]) 7
    = Some (5, 2, str "SongA", None).
Proof. repeat split; vm_compute; reflexivity. Qed.

(** C2. The recount of the periodic task breaks the bounds of a record
    that satisfied them: with the initial record (completed 0 of 1, 0%)
    and two [.mp3] files in the job directory it stores completed = 2 of
    total = 1 and a percentage of 200. *)
Theorem recount_breaks_the_bounds :
  let p := initial_progress 1 2 (str "spotify") (str "1234") in
  let after := (recount 7 (Some [str "Song.mp3"; str "Artist - Song.mp3"]) (one_job 7 p)).2 in
  within_bounds p
  ∧ (λ p', (completed_tracks p', total_tracks p', percentage p'))
      <$> download_progress after !! 7 = Some (2, 1, 200)
  ∧ ¬ (∀ p', download_progress after !! 7 = Some p' → within_bounds p').
Proof.
  split; [vm_compute; intuition discriminate|].
  split; [vm_compute; reflexivity|].
  intros H. destruct (H _ eq_refl) as [[_ H1] _]. revert H1. vm_compute. tauto.
Qed.

(** C3, as amended. The recount stores the number of [.mp3] files of the
    job directory as the completed count when that number is positive,
    and leaves the count alone when it is zero; so the count after is at
    least the count before exactly when the directory holds no such file
    or at least as many as the count before. *)
Theorem recount_overwrites_completed b user p dir :
  download_progress b !! user = Some p →
  platform p = str "spotify" →
  let n := Z.of_nat (length (glob_ext ".mp3" dir)) in
  ∃ p', download_progress (recount user (Some dir) b).2 !! user = Some p'
     ∧ completed_tracks p' = (if 0 <? n then n else completed_tracks p)
     ∧ (completed_tracks p ≤ completed_tracks p' ↔ n = 0 ∨ completed_tracks p ≤ n).
Proof.
  intros Hp Hs n. destruct (recount_spotify b user p dir Hp Hs) as (p' & Hp' & Hc & _).
  exists p'. split; [exact Hp'|]. fold n in Hc. split; [exact Hc|].
  rewrite Hc. destruct (Z.ltb_spec 0 n); lia.
Qed.

Lemma recount_overwrites_completed_witness :
  let p := set_completed_tracks 1 (set_total_tracks 5
             (initial_progress 1 2 (str "spotify") (str "1234"))) in
  ∃ p', download_progress
          (recount 7 (Some [str "a.mp3"; str "b.mp3"; str "cover.jpg"]) (one_job 7 p)).2 !! 7
        = Some p'
     ∧ completed_tracks p' = 2
     ∧ (completed_tracks p ≤ completed_tracks p' ↔ 2 = 0 ∨ completed_tracks p ≤ 2).
Proof.
  intros p.
  exact (recount_overwrites_completed (one_job 7 p) 7 p
           [str "a.mp3"; str "b.mp3"; str "cover.jpg"] eq_refl eq_refl).
Defined.

(** The recount lowers a completed count: three of five before, two
    files on disk, two of five after. *)
Lemma recount_lowers_completed :
  let p := set_completed_tracks 3 (set_total_tracks 5
             (initial_progress 1 2 (str "spotify") (str "1234"))) in
  let after := (recount 7 (Some [str "a.mp3"; str "b.mp3"]) (one_job 7 p)).2 in
  completed_tracks <$> download_progress after !! 7 = Some 2
  ∧ ¬ (∀ p', download_progress after !! 7 = Some p' → completed_tracks p ≤ completed_tracks p').
Proof.
  split; [vm_compute; reflexivity|].
  intros H. specialize (H _ eq_refl). revert H. vm_compute. tauto.
Qed.
End ProgressFacts.

(** ** The stream parser starts the fallback at most once *)

Module ParserFacts.
Import Bot Trace MonadFacts.

Lemma fallback_starts_app evs evs' :
  fallback_starts (evs ++ evs') = (fallback_starts evs + fallback_starts evs')%nat.
Proof. unfold fallback_starts. by rewrite filter_app, length_app. Qed.

Section starts_at_most.
Context {A B : Type}.

Lemma quiet_ret (a : A) : quiet (mret a : M A).
Proof. intros b. exists []. by rewrite app_nil_r. Qed.

Lemma quiet_raise e : quiet (raise e : M A).
Proof. intros b. exists []. by rewrite app_nil_r. Qed.

Lemma quiet_lift r : quiet (lift r : M A).
Proof. intros b. exists []. by rewrite app_nil_r. Qed.

Lemma starts_at_most_bind n1 n2 (m : M A) (k : A → M B) :
  starts_at_most n1 m → (∀ a, starts_at_most n2 (k a)) →
  starts_at_most (n1 + n2) (m ≫= k).
Proof.
  intros Hm Hk b. destruct (Hm b) as (evs & Ho & Hn).
  unfold mbind, M_bind. destruct (m b) as [[e|a] b'] eqn:Hmb; cbn [snd] in *.
  - exists evs. split; [done|lia].
  - destruct (Hk a b') as (evs' & Ho' & Hn'). exists (evs ++ evs').
    rewrite Ho', Ho, fallback_starts_app, (assoc_L (++)). split; [done|lia].
Qed.

Lemma quiet_bind (m : M A) (k : A → M B) :
  quiet m → (∀ a, quiet (k a)) → quiet (m ≫= k).
Proof. apply (starts_at_most_bind 0 0). Qed.
End starts_at_most.

Lemma quiet_get : quiet get.
Proof. intros b. exists []. by rewrite app_nil_r. Qed.

Lemma quiet_update user f : quiet (update_progress user f).
Proof. intros b. exists []. by rewrite app_nil_r. Qed.

Lemma quiet_emit e : is_fallback_start e = false → quiet (emit e).
Proof.
  intros He b. exists [e]. split; [done|].
  unfold fallback_starts. rewrite filter_cons_False by (by rewrite He). done.
Qed.

Lemma quiet_when c m : quiet m → quiet (when c m).
Proof. intros H. destruct c; [done | apply quiet_ret]. Qed.

(** One step of a proof that a method is quiet, following its shape. *)
Ltac quiet_step :=
  lazymatch goal with
  | |- starts_at_most 0 (mbind _ _) => apply quiet_bind; [|intros ?]
  | |- starts_at_most 0 (mret _) => apply quiet_ret
  | |- starts_at_most 0 (raise _) => apply quiet_raise
  | |- starts_at_most 0 (lift _) => apply quiet_lift
  | |- starts_at_most 0 get => apply quiet_get
  | |- starts_at_most 0 (update_progress _ _) => apply quiet_update
  | |- starts_at_most 0 (emit _) => apply quiet_emit; reflexivity
  | |- starts_at_most 0 (when _ _) => apply quiet_when
  | |- starts_at_most 0 (if ?c then _ else _) => destruct c
  | |- starts_at_most 0 (match ?x with _ => _ end) => destruct x
  end.

Ltac quiet := repeat quiet_step.

Section parser.
Variable U : unicodedata.
Variable W : world.

Lemma quiet_ytdlp_line user line : quiet (ytdlp_line U user line).
Proof. unfold ytdlp_line. quiet. Qed.

Lemma quiet_process_ytdlp_output user lines : quiet (process_ytdlp_output U user lines).
Proof.
  induction lines as [|line rest IH]; cbn [process_ytdlp_output]; [apply quiet_ret|].
  apply quiet_bind; [apply quiet_ytdlp_line|]. intros [|]; [exact IH | apply quiet_ret].
Qed.

Lemma quiet_run_ytdlp cmd timeout_seconds user : quiet (run_ytdlp U W cmd timeout_seconds user).
Proof.
  unfold run_ytdlp. quiet_step; [quiet|]. quiet_step; [apply quiet_process_ytdlp_output|].
  quiet.
Qed.

Lemma quiet_report_downloaded user files : quiet (report_downloaded user files).
Proof. unfold report_downloaded. quiet. Qed.

Lemma quiet_third_attempt t dir user files : quiet (third_attempt U W t dir user files).
Proof.
  unfold third_attempt. quiet_step; [apply quiet_run_ytdlp|]. quiet_step.
  repeat (quiet_step; try apply quiet_report_downloaded).
Qed.

Lemma quiet_second_attempt t dir user files : quiet (second_attempt U W t dir user files).
Proof.
  unfold second_attempt. quiet_step; [apply quiet_run_ytdlp|]. quiet_step.
  repeat (quiet_step; try apply quiet_report_downloaded; try apply quiet_third_attempt).
Qed.

(** The fallback writes its log entry first, and only once. *)
Lemma fallback_trace t dir user chat mode b :
  ∃ evs,
    outbox (fallback_download_with_ytdlp U W t dir user chat mode b).2
    = outbox b ++ LogRunningFallback (first_command t dir mode).1 :: evs
    ∧ fallback_starts evs = 0%nat.
Proof.
  unfold fallback_download_with_ytdlp. destruct (first_command t dir mode) as [yt_cmd cookies].
  rewrite run_bind_emit.
  match goal with
  | |- context [ (?m ≫= ?k) (with_outbox _ b) ] => assert (quiet (m ≫= k)) as Hq
  end.
  { quiet_step; [quiet|]. quiet_step; [quiet|]. quiet_step; [apply quiet_run_ytdlp|].
    quiet_step.
    repeat (quiet_step; try apply quiet_report_downloaded; try apply quiet_second_attempt). }
  destruct (Hq (with_outbox (λ o, o ++ [LogRunningFallback yt_cmd]) b)) as (evs & Ho & Hn).
  exists evs. rewrite Ho. cbn [outbox with_outbox fst]. rewrite <- (assoc_L (++)).
  split; [done|lia].
Qed.

Lemma fallback_starts_once t dir user chat mode :
  starts_at_most 1 (fallback_download_with_ytdlp U W t dir user chat mode).
Proof.
  intros b. destruct (fallback_trace t dir user chat mode b) as (evs & Ho & Hn).
  eexists. split; [exact Ho|]. unfold fallback_starts in *.
  rewrite filter_cons_True by done. cbn. lia.
Qed.

Lemma spends_ret l : spends l (mret l).
Proof. intros b. exists []. rewrite app_nil_r. split; [done|]. cbn. lia. Qed.

Lemma spends_raise l e : spends l (raise e).
Proof. intros b. exists []. rewrite app_nil_r. split; [done|]. cbn. lia. Qed.

Lemma spends_quiet_bind {A} l (m : M A) (k : A → M locals) :
  quiet m → (∀ a, spends l (k a)) → spends l (m ≫= k).
Proof.
  intros Hm Hk b. destruct (Hm b) as (evs & Ho & Hn).
  unfold mbind, M_bind. destruct (m b) as [[e|a] b'] eqn:Hmb; cbn [fst snd] in *.
  - exists evs. split; [done|lia].
  - destruct (Hk a b') as (evs' & Ho' & Hn'). exists (evs ++ evs').
    rewrite Ho', Ho, fallback_starts_app, (assoc_L (++)). split; [done|].
    destruct (k a b').1; lia.
Qed.

Lemma spends_bind l (m : M locals) (k : locals → M locals) :
  spends l m → (∀ l', spends l' (k l')) → spends l (m ≫= k).
Proof.
  intros Hm Hk b. destruct (Hm b) as (evs & Ho & Hn).
  unfold mbind, M_bind. destruct (m b) as [[e|l'] b'] eqn:Hmb; cbn [fst snd] in *.
  - exists evs. split; [done|lia].
  - destruct (Hk l' b') as (evs' & Ho' & Hn'). exists (evs ++ evs').
    rewrite Ho', Ho, fallback_starts_app, (assoc_L (++)). split; [done|].
    destruct (k l' b').1; lia.
Qed.

Lemma spends_fallback l l' t dir user chat mode :
  fallback_called l = false → fallback_called l' = true →
  spends l (fallback_download_with_ytdlp U W t dir user chat mode ≫= λ _, mret l').
Proof.
  intros Hl Hl' b. destruct (fallback_starts_once t dir user chat mode b) as (evs & Ho & Hn).
  unfold mbind, M_bind.
  destruct (fallback_download_with_ytdlp U W t dir user chat mode b) as [[e|a] b'];
    cbn [fst snd mret M_ret] in *; exists evs; (split; [done|]);
    unfold budget; rewrite Hl, ?Hl'; lia.
Qed.

Lemma spends_parse_errors user chat dir url metadata l line_str :
  spends l (parse_errors U W user chat dir url metadata l line_str).
Proof.
  unfold parse_errors.
  destruct (existsb _ _); [|apply spends_ret].
  destruct (_ || _).
  { apply spends_quiet_bind; [apply quiet_update|]. intros _ b. exists [].
    rewrite app_nil_r. split; [done|]. cbn. unfold budget. cbn. lia. }
  destruct (_ || _); [|apply spends_ret].
  destruct (fallback_called l) eqn:Hl; cbn [negb]; [apply spends_ret|].
  apply spends_quiet_bind; [apply quiet_get|]. intros b0.
  destruct (download_progress b0 !! user); [|apply spends_raise].
  by apply spends_fallback.
Qed.

Lemma quiet_parse_banner user chat line_str : quiet (parse_banner U user chat line_str).
Proof. unfold parse_banner. quiet. Qed.

Lemma quiet_parse_progress user line_str : quiet (parse_progress U user line_str).
Proof. unfold parse_progress. quiet. Qed.

Lemma spends_spotdl_line user chat dir url metadata l line :
  spends l (spotdl_line U W user chat dir url metadata l line).
Proof.
  unfold spotdl_line. apply spends_quiet_bind; [apply quiet_get|]. intros b0.
  destruct (tracked user b0); [|apply spends_ret].
  apply spends_quiet_bind; [apply quiet_parse_banner|]. intros _.
  apply spends_quiet_bind; [apply quiet_parse_progress|]. intros _.
  apply spends_parse_errors.
Qed.

Lemma spends_spotdl_lines user chat dir url metadata l lines :
  spends l (spotdl_lines U W user chat dir url metadata l lines).
Proof.
  revert l. induction lines as [|line rest IH]; intros l; cbn [spotdl_lines].
  - apply spends_ret.
  - apply spends_bind; [apply spends_spotdl_line | exact IH].
Qed.

Lemma process_spotdl_output_starts_once lines user chat dir url metadata :
  starts_at_most 1 (_process_spotdl_output U W lines user chat dir url metadata).
Proof.
  intros b. unfold _process_spotdl_output.
  set (l0 := {| spotdl_failed := false; lookup_error_detected := false;
                fallback_called := false |}).
  destruct (spends_spotdl_lines user chat dir url metadata l0 lines b) as (evs & Ho & Hn).
  unfold mbind, M_bind.
  destruct (spotdl_lines U W user chat dir url metadata l0 lines b) as [[e|l'] b'];
    cbn [fst snd] in *; exists evs; (split; [done|]); unfold budget in Hn; cbn in Hn; lia.
Qed.







End parser.


(** On those three lines the fallback is started once, for the title of
    the first line. *)
Lemma lookup_fallback_example :
  let b := one_job 7 (initial_progress 1 2 (str "spotify") (str "1234")) in
  let W : world := λ _, {| timed_out := false; output := []; return_code := 1; listing := [] |} in
  let lines := [str "LookupError: No results found for song: Artist - Song (Live)";
                str "KeyError: 'tracks'"; str "LookupError: No results found for song: Other"] in
  filter (λ e, is_fallback_start e = true)
    (outbox (_process_spotdl_output excerpt W lines 7 1 (str "/tmp/mbot/user_7_0") None None b).2)
  = [LogRunningFallback
       (first_command (str "Artist - Song (Live)") (str "/tmp/mbot/user_7_0") false).1].
Proof. vm_compute. reflexivity. Qed.

End ParserFacts.
(** ** The commands of the fallback chain *)

Module FallbackFacts.
Import Bot Trace MonadFacts ParserFacts.

Lemma replace_go_absent old new s :
  contains old s = false → replace_go old new s 0 = s.
Proof.
  induction s as [|c s IH]; [done|].
  intros H. apply orb_false_iff in H as [Hhere Hlater].
  cbn [replace_go]. rewrite Hhere. f_equal. by apply IH.
Qed.

Lemma clean_search_id title :
  contains (str "ytsearch1:") title = false → strip title = title →
  clean_search title = title.
Proof.
  intros Hc Hs. unfold clean_search, replace. by rewrite replace_go_absent.
Qed.

Lemma run_bind_assoc {A B C} (m : M A) (k : A → M B) (k' : B → M C) b :
  ((m ≫= k) ≫= k') b = (m ≫= λ a, k a ≫= k') b.
Proof. unfold mbind, M_bind. by destruct (m b) as [[e|a] b']. Qed.

Lemma launches_app evs evs' : launches (evs ++ evs') = launches evs ++ launches evs'.
Proof. unfold launches. apply omap_app. Qed.

Section chain.
Variable U : unicodedata.
Variable W : world.

(** Reading a line of the tool returns, and launches nothing. *)
Lemma ytdlp_line_reads user line b :
  ∃ go_on evs,
    (ytdlp_line U user line b).1 = inr go_on
    ∧ outbox (ytdlp_line U user line b).2 = outbox b ++ evs ∧ launches evs = [].
Proof.
  unfold ytdlp_line.
  repeat match goal with
         | |- context [if ?c then _ else _] => destruct c
         end;
    rewrite ?run_bind_get;
    repeat match goal with
           | |- context [match ?x with _ => _ end] => destruct x
           end;
    rewrite ?run_bind_when;
    repeat match goal with
           | |- context [if ?c then _ else _] => destruct c
           end;
    autorewrite with bot; cbn [fst snd]; autorewrite with bot.
  all: try (eexists _, []; rewrite app_nil_r; done).
  all: eexists _, [_]; done.
Qed.

Lemma process_ytdlp_output_reads user lines b :
  ∃ read_all evs,
    (process_ytdlp_output U user lines b).1 = inr read_all
    ∧ outbox (process_ytdlp_output U user lines b).2 = outbox b ++ evs ∧ launches evs = [].
Proof.
  revert b. induction lines as [|line rest IH]; intros b; cbn [process_ytdlp_output].
  { exists true, []. by rewrite app_nil_r. }
  destruct (ytdlp_line_reads user line b) as (go_on & evs & Hr & Ho & Hl).
  unfold mbind, M_bind. destruct (ytdlp_line U user line b) as [r b'].
  cbn [fst snd] in Hr, Ho. subst r. destruct go_on.
  - destruct (IH b') as (read_all & evs' & Hr' & Ho' & Hl').
    exists read_all, (evs ++ evs'). rewrite Hr', Ho', Ho, launches_app, Hl, Hl'.
    by rewrite (assoc_L (++)).
  - by exists false, evs.
Qed.

(** A launch whose timer does not fire: the command is started, its
    lines are read, and nothing else is launched meanwhile. *)
Lemma run_ytdlp_in_time cmd timeout_seconds user b :
  timed_out (W cmd) = false →
  ∃ b' evs,
    run_ytdlp U W cmd timeout_seconds user b = (inr (false, W cmd), b')
    ∧ outbox b' = outbox b ++ Exec cmd timeout_seconds :: evs ∧ launches evs = [].
Proof.
  intros Htimer. unfold run_ytdlp. rewrite run_bind_emit.
  destruct (process_ytdlp_output_reads user (output (W cmd))
              (with_outbox (λ o, o ++ [Exec cmd timeout_seconds]) b))
    as (read_all & evs & Hr & Ho & Hl).
  unfold mbind, M_bind. destruct (process_ytdlp_output U user _ _) as [r b'].
  cbn [fst snd] in Hr, Ho. subst r. exists b', evs.
  rewrite Htimer, andb_false_r, Ho. cbn [outbox with_outbox].
  by rewrite <- (assoc_L (++)).
Qed.

Lemma first_command_cookies title dir :
  contains (str "spotify.com") title = true ∨ starts_with (str "http") title = true →
  (first_command title dir true).2 = true.
Proof.
  intros Hlink. unfold first_command.
  destruct (contains (str "spotify.com") title); [done|].
  destruct Hlink as [?|Hh]; [done|]. cbn [andb negb]. by rewrite Hh.
Qed.

(** C7, as amended. In the fallback chain, the second attempt is
    launched in playlist mode on a text that holds [spotify.com] or
    starts with [http], after a first attempt that ended in time and
    left no audio file.  It is then the second tool launched, under
    the Edge client identity and with a time bound of 180 seconds, and
    for a known title (one without the [ytsearch1:] marker and without
    surrounding whitespace) it searches for [ytsearch1:] followed by
    the whole title, a trailing parenthetical included. *)
Theorem second_attempt_searches_the_whole_title title dir user chat b :
  contains (str "ytsearch1:") title = false → strip title = title →
  contains (str "spotify.com") title = true ∨ starts_with (str "http") title = true →
  let first := (first_command title dir true).1 in
  timed_out (W first) = false → media_files (W first) = [] →
  (∃ before after,
     outbox (fallback_download_with_ytdlp U W title dir user chat true b).2
     = outbox b ++ before ++ Exec (simple_cmd title dir) 180 :: after
     ∧ launches before = [(search_argument first, 300)])
  ∧ last (simple_cmd title dir) = Some (str "ytsearch1:" ++ title)
  ∧ edge_user_agent ∈ simple_cmd title dir.
Proof.
  intros Hmark Hstrip Hlink first Htimer Hfiles. split; [|split].
  - pose proof (first_command_cookies title dir Hlink) as Hcookies.
    unfold fallback_download_with_ytdlp. unfold first in *.
    destruct (first_command title dir true) as [yt_cmd cookie_success].
    cbn [fst snd] in *. subst cookie_success.
    rewrite run_bind_emit, run_bind_get.
    set (b0 := with_outbox (λ o, o ++ [LogRunningFallback yt_cmd]) b).
    match goal with
    | |- context [ (when ?c ?m ≫= ?k) b0 ] =>
        assert (∃ b1 evs1, (when c m ≫= k) b0 = k () b1
                           ∧ outbox b1 = outbox b0 ++ evs1 ∧ launches evs1 = [])
          as (b1 & evs1 & -> & Ho1 & Hl1)
    end.
    { rewrite run_bind_when. destruct (tracked user b0).
      - rewrite run_bind_assoc, run_bind_update, run_bind_emit.
        eexists _, [UpdateProgressMessage user]. done.
      - exists b0, []. by rewrite app_nil_r. }
    destruct (run_ytdlp_in_time yt_cmd 300 user b1 Htimer) as (b2 & evs2 & Hr2 & Ho2 & Hl2).
    unfold mbind at 1, M_bind at 1. rewrite Hr2. cbv beta iota.
    apply app_eq_nil in Hfiles as Hparts. destruct Hparts as [Hmp3 Hrest].
    apply app_eq_nil in Hrest as [Hflac _].
    rewrite Hmp3, Hflac, Hfiles. cbn [app is_empty negb andb]. rewrite andb_false_r.
    cbv iota.
    unfold second_attempt, run_ytdlp. rewrite !run_bind_assoc, run_bind_emit.
    match goal with
    | |- context [ (?m ≫= ?k) (with_outbox _ b2) ] => assert (quiet (m ≫= k)) as Hq
    end.
    { repeat (quiet_step; try apply quiet_process_ytdlp_output;
              try apply quiet_report_downloaded; try apply quiet_third_attempt). }
    destruct (Hq (with_outbox (λ o, o ++ [Exec (simple_cmd title dir) 180]) b2))
      as (after & Ho3 & _).
    exists ([LogRunningFallback yt_cmd] ++ evs1 ++ Exec yt_cmd 300 :: evs2), after.
    split.
    + rewrite Ho3. cbn [outbox with_outbox]. rewrite Ho2, Ho1. unfold b0.
      cbn [outbox with_outbox]. by rewrite <- !(assoc_L (++)).
    + rewrite !launches_app, Hl1. change (launches (Exec yt_cmd 300 :: evs2))
        with ((search_argument yt_cmd, 300) :: launches evs2). by rewrite Hl2.
  - unfold simple_cmd. rewrite (clean_search_id title Hmark Hstrip). reflexivity.
  - unfold simple_cmd. do 13 right. left.
Qed.
End chain.

Lemma second_attempt_searches_the_whole_title_witness :
  let W : world := λ _, {| timed_out := false; output := []; return_code := 1; listing := [] |} in
  let b := one_job 7 (initial_progress 1 2 (str "spotify") (str "1234")) in
  let title := str "Artist - Song (spotify.com session)" in
  let dir := str "/tmp/mbot/user_7_0" in
  (∃ before after,
     outbox (fallback_download_with_ytdlp excerpt W title dir 7 1 true b).2
     = outbox b ++ before ++ Exec (simple_cmd title dir) 180 :: after
     ∧ launches before = [(search_argument (first_command title dir true).1, 300)])
  ∧ last (simple_cmd title dir) = Some (str "ytsearch1:" ++ title)
  ∧ edge_user_agent ∈ simple_cmd title dir.
Proof.
  intros W b title dir.
  apply (second_attempt_searches_the_whole_title excerpt W title dir 7 1 b).
  - vm_compute. reflexivity.
  - vm_compute. reflexivity.
  - left. vm_compute. reflexivity.
  - reflexivity.
  - reflexivity.
Defined.

(** Two texts that reach the second attempt, handed to the chain in
    playlist mode with no tool run producing a file: the title
    [Artist - Song (spotify.com session)] and the text of a message
    with a link followed by a parenthetical.  The second attempt (the
    launch bounded by 180 seconds) searches for the whole text and keeps
    the parenthetical; the third attempt is the one that drops it. *)
Lemma second_attempt_keeps_the_parenthetical :
  let W : world := λ _, {| timed_out := false; output := []; return_code := 1; listing := [] |} in
  let b := one_job 7 (initial_progress 1 2 (str "spotify") (str "1234")) in
  let dir := str "/tmp/mbot/user_7_0" in
  let chain text :=
    launches (outbox (fallback_download_with_ytdlp excerpt W text dir 7 1 true b).2) in
  chain (str "Artist - Song (spotify.com session)")
  = [(Some (str "ytsearch1:Artist - Song (spotify.com session)"), 300);
     (Some (str "ytsearch1:Artist - Song (spotify.com session)"), 180);
     (Some (str "ytsearch1:Song song"), 120)]
  ∧ chain (str "https://open.spotify.com/track/abc (Live)")
    = [(Some (str "ytsearch1:tamil songs 90s"), 300);
       (Some (str "ytsearch1:https://open.spotify.com/track/abc (Live)"), 180);
       (Some (str "ytsearch1:https://open.spotify.com/track/abc song"), 120)].
Proof. split; vm_compute; reflexivity. Qed.

(** The chain on the link of a track, in playlist mode and with no tool
    run producing a file: the first attempt searches for a fixed phrase,
    the second for the link as it stands, the third for the link
    followed by [song]. *)
Lemma fallback_chain_on_a_link :
  let W : world := λ _, {| timed_out := false; output := []; return_code := 1; listing := [] |} in
  let b := one_job 7 (initial_progress 1 2 (str "spotify") (str "1234")) in
  let link := str "https://open.spotify.com/track/abc" in
  launches (outbox (fallback_download_with_ytdlp excerpt W link (str "/tmp/mbot/user_7_0")
                      7 1 true b).2)
  = [(Some (str "ytsearch1:tamil songs 90s"), 300);
     (Some (str "ytsearch1:https://open.spotify.com/track/abc"), 180);
     (Some (str "ytsearch1:https://open.spotify.com/track/abc song"), 120)].
Proof. vm_compute. reflexivity. Qed.

(** A plain title never reaches the second attempt: without cookies the
    chain ends after the first. *)
Lemma fallback_chain_on_a_title :
  let W : world := λ _, {| timed_out := false; output := []; return_code := 1; listing := [] |} in
  let b := one_job 7 (initial_progress 1 2 (str "spotify") (str "1234")) in
  launches (outbox (fallback_download_with_ytdlp excerpt W (str "Artist - Song (Live)")
                      (str "/tmp/mbot/user_7_0") 7 1 false b).2)
  = [(Some (str "ytsearch1:Artist - Song (Live)"), 300)].
Proof. vm_compute. reflexivity. Qed.

End FallbackFacts.

(** ** Delivery and naming *)

Module DeliveryFacts.
Import Bot MonadFacts.

Lemma delivery_decision_zip total files :
  1 < total ∨ (1 < length files)%nat ∨ Exists (λ f, file_size_threshold < f.2) files →
  delivery_decision total files = Some ZipAndUpload.
Proof.
  intros H. unfold delivery_decision.
  destruct (1 <? total) eqn:Ht; [done|]. apply Z.ltb_ge in Ht.
  destruct (bool_decide (1 < length files)%nat) eqn:Hl; [done|].
  apply bool_decide_eq_false in Hl.
  destruct H as [H|[H|H]]; [lia|lia|].
  replace (existsb _ files) with true; [done|].
  symmetry. apply existsb_exists. apply Exists_exists in H as (f & Hf & Hs).
  exists f. split; [by apply list_elem_of_In|]. by apply Z.ltb_lt.
Qed.

(** C5, as amended. With at least one output file, the result is sent
    directly exactly when there is one output file, of at most 50 MiB,
    and the progress record counts at most one track; in every other
    case the files are archived and uploaded. The kind of link that was
    requested plays no part. Three files of 10 MiB and one file of 60 MiB
    are archived; one file of 5 MiB of a one-track job is sent
    directly. *)
Theorem delivery_decision_direct_iff total files :
  files ≠ [] →
  (∀ file, delivery_decision total files = Some (DirectSend file)
           ↔ ∃ size, files = [(file, size)] ∧ size ≤ file_size_threshold ∧ total ≤ 1)
  ∧ ((∀ file, delivery_decision total files ≠ Some (DirectSend file)) →
     delivery_decision total files = Some ZipAndUpload)
  ∧ delivery_decision 1 [(str "a.mp3", 10 * MiB); (str "b.mp3", 10 * MiB);
                         (str "c.mp3", 10 * MiB)] = Some ZipAndUpload
  ∧ delivery_decision 1 [(str "a.mp3", 60 * MiB)] = Some ZipAndUpload
  ∧ delivery_decision 1 [(str "a.mp3", 5 * MiB)] = Some (DirectSend (str "a.mp3")).
Proof.
  intros Hne.
  assert (∀ file, delivery_decision total files = Some (DirectSend file)
           ↔ ∃ size, files = [(file, size)] ∧ size ≤ file_size_threshold ∧ total ≤ 1) as Hiff.
  { intros file. split.
    - unfold delivery_decision.
      destruct (1 <? total) eqn:Ht; [done|]. apply Z.ltb_ge in Ht.
      destruct files as [|[name size] [|]]; [done| |done].
      cbn. destruct (file_size_threshold <? size) eqn:Hs; [done|].
      apply Z.ltb_ge in Hs. cbn.
      destruct (size <=? file_size_threshold) eqn:Hs'; [|done].
      intros [= <-]. eauto.
    - intros (size & -> & Hs & Ht). unfold delivery_decision.
      rewrite (proj2 (Z.ltb_ge 1 total)) by lia. cbn.
      rewrite (proj2 (Z.ltb_ge file_size_threshold size)) by lia. cbn.
      by rewrite (proj2 (Z.leb_le size file_size_threshold)). }
  split; [exact Hiff|]. split; [|by vm_compute].
  intros Hno.
  destruct (decide (1 < total)) as [|Ht]; [apply delivery_decision_zip; auto|].
  destruct files as [|[name size] [|]]; [done| |apply delivery_decision_zip; cbn; right; left; lia].
  destruct (decide (size ≤ file_size_threshold)) as [Hs|Hs].
  - exfalso. apply (Hno name). apply Hiff. exists size. repeat split; [done|lia].
  - apply delivery_decision_zip. right; right. constructor. cbn. lia.
Qed.

Lemma delivery_decision_direct_iff_witness :
  delivery_decision 1 [(str "Song.mp3", 5 * MiB)] = Some (DirectSend (str "Song.mp3"))
  ↔ ∃ size, [(str "Song.mp3", 5 * MiB)] = [(str "Song.mp3", size)]
            ∧ size ≤ file_size_threshold ∧ 1 ≤ 1.
Proof.
  exact (proj1 (delivery_decision_direct_iff 1 [(str "Song.mp3", 5 * MiB)]
                  ltac:(discriminate)) (str "Song.mp3")).
Defined.

(** A one-track album is a collection-type request, and its single file
    of 5 MiB is sent directly. *)
Lemma one_track_album_is_sent_directly :
  let info : url_info :=
    {[ "platform" := str "spotify"; "type" := str "album"; "id" := str "abc";
       "url" := str "https://open.spotify.com/album/abc" ]} in
  let p := initial_progress 1 2 (str "spotify") (str "1234") in
  is_collection_link info = true
  ∧ outbox (deliver 1 7 info 2 [(str "Single.mp3", 5 * MiB)] true (one_job 7 p)).2
    = [EditMessage 1 2 SendingAudioFile; SendAudio 1 (str "Single.mp3") true;
       EditMessage 1 2 AudioFileSent].
Proof. split; vm_compute; reflexivity. Qed.

(** C9, as amended. The archive is named after the recorded collection
    title when the job counts as a collection (a collection-type link,
    several tracks counted, or several media files); otherwise after the
    single media file when there is exactly one; otherwise by the
    generated fallback [platform_type_id], which carries no time stamp. *)
Theorem content_name_priority p directory info user now platform_ type_ id_ :
  info !! "platform" = Some platform_ →
  info !! "type" = Some type_ →
  info !! "id" = Some id_ →
  let name := get_content_name (Some p) directory info user now in
  (∀ title, recorded_name p = Some title → collection_job p info directory → name = title)
  ∧ (∀ file, ¬ (is_Some (recorded_name p) ∧ collection_job p info directory) →
             archive_media directory = [file] → name = path_stem file)
  ∧ (¬ (is_Some (recorded_name p) ∧ collection_job p info directory) →
     length (archive_media directory) ≠ 1%nat →
     name = platform_ ++ str "_" ++ type_ ++ str "_" ++ id_).
Proof.
  intros Hp Ht Hi name. subst name. unfold get_content_name, collection_job.
  rewrite Hp, Ht, Hi. cbn [default].
  destruct (is_collection_link info) eqn:Hc;
    destruct (Z.ltb_spec 1 (total_tracks p)) as [Hn|Hn]; cbn [orb];
    destruct (recorded_name p) as [title|] eqn:Hr;
    destruct (archive_media directory) as [|f [|g rest]] eqn:Hm; cbn [length default];
    repeat split; try (intros; congruence);
    try (intros ? [= <-]; intros; done);
    try (intros ? H; exfalso; apply H; split; [eauto|]; (by left) || (right; left; lia)
                     || (right; right; lia));
    try (intros H; exfalso; apply H; split; [eauto|]; (by left) || (right; left; lia)
                   || (right; right; lia));
    try (intros ? ? [H|[H|H]]; (done || lia));
    try (intros ? ? [= <-]; done);
    try (intros; lia).
Qed.

Lemma content_name_priority_witness :
  let info : url_info :=
    {[ "platform" := str "spotify"; "type" := str "playlist"; "id" := str "abc";
       "url" := str "https://open.spotify.com/playlist/abc" ]} in
  let p := set_playlist (str "MyMix") (set_total_tracks 5
             (initial_progress 1 2 (str "spotify") (str "1234"))) in
  get_content_name (Some p) [str "a.mp3"; str "b.mp3"] info 7 1700000000 = str "MyMix".
Proof.
  intros info p.
  refine (proj1 (content_name_priority p [str "a.mp3"; str "b.mp3"] info 7 1700000000
                   (str "spotify") (str "playlist") (str "abc") _ _ _) (str "MyMix") _ _).
  - reflexivity.
  - reflexivity.
  - reflexivity.
  - reflexivity.
  - left. reflexivity.
Defined.

(** The generated fallback name of a track link: [spotify_track_abc],
    with no time stamp after the identifier. *)
Lemma generated_name_has_no_timestamp :
  let info : url_info :=
    {[ "platform" := str "spotify"; "type" := str "track"; "id" := str "abc";
       "url" := str "https://open.spotify.com/track/abc" ]} in
  let p := initial_progress 1 2 (str "spotify") (str "1234") in
  let name := get_content_name (Some p) [] info 7 1700000000 in
  name = str "spotify_track_abc"
  ∧ name ≠ str "spotify" ++ str "_" ++ str "track" ++ str "_" ++ str "abc" ++ str "_"
           ++ str_of_int 1700000000.
Proof. split; vm_compute; [reflexivity | discriminate]. Qed.

End DeliveryFacts.

(** ** The guard of the button callbacks *)

Module CallbackFacts.
Import Bot MonadFacts.

(** When the payload does not contain [|user_id], the callback is
    answered with a message and nothing else changes. *)
Lemma callback_rejects_foreign_payload R chat user message_id_ data b :
  contains (str "|" ++ str_of_int user) data = false →
  handle_callback_query R chat user message_id_ data b
  = with_outbox (λ o, o ++ [SendMessage chat ButtonNotForYou]) b.
Proof.
  intros H. unfold handle_callback_query, callback_body. rewrite H. reflexivity.
Qed.

(** C6. The guard looks for [|user_id] anywhere in the payload, so the
    button rendered for user 123 passes it when user 12 presses it: the
    conversation of user 12 is removed and a download is started for
    user 12, instead of a rejection that leaves the state alone. *)
Theorem callback_accepts_another_users_button (R : pystr → list Z) :
  let info : url_info :=
    {[ "platform" := str "youtube"; "type" := str "video"; "id" := str "abc";
       "url" := str "https://youtu.be/abc" ]} in
  let waiting := {| cv_url_info := info; cv_state := str "awaiting_audio_quality" |} in
  let b := {| active_downloads := ∅; download_progress := ∅;
              user_state := {[ 12 := waiting; 123 := waiting ]};
              user_tasks := ∅; outbox := [] |} in
  let data := str "yt_audio|flac|123" in
  let started := {| tk_chat_id := 5; tk_user_id := 12; tk_url_info := info;
                    tk_yt_format := Some (str "flac") |} in
  let after := handle_callback_query R 5 12 9 data b in
  split (str "|") data = [str "yt_audio"; str "flac"; str_of_int 123]
  ∧ user_state b !! 12 = Some waiting
  ∧ user_state after !! 12 = None
  ∧ user_tasks after !! 12 = Some started
  ∧ outbox after = [EditMessage 5 9 (StartingAudioDownload (str "flac")); CreateTask started].
Proof. repeat split; vm_compute; reflexivity. Qed.

End CallbackFacts.

(** ** Strings: stripping and splitting *)

Module StringFacts.

(** Decidable facts about literals, by evaluation. *)
Ltac by_compute := apply (bool_decide_unpack _); vm_compute; exact I.

Lemma lstrip_idem s : lstrip (lstrip s) = lstrip s.
Proof.
  induction s as [|c s IH]; [done|]. cbn [lstrip].
  destruct (isspace c) eqn:Hc; [done|]. cbn [lstrip]. by rewrite Hc.
Qed.

Lemma lstrip_snoc s c : isspace c = false → lstrip (s ++ [c]) = lstrip s ++ [c].
Proof.
  intros Hc. induction s as [|x s IH]; cbn [app lstrip]; [by rewrite Hc|].
  by destruct (isspace x).
Qed.

Lemma rstrip_cons c s : isspace c = false → rstrip (c :: s) = c :: rstrip s.
Proof.
  intros Hc. unfold rstrip. by rewrite reverse_cons, lstrip_snoc, reverse_snoc.
Qed.

Lemma rstrip_idem s : rstrip (rstrip s) = rstrip s.
Proof. unfold rstrip. by rewrite reverse_involutive, lstrip_idem. Qed.

(** What [strip] returns has no whitespace left to strip. *)
Lemma strip_idem s : strip (strip s) = strip s.
Proof.
  unfold strip at 1. replace (lstrip (strip s)) with (strip s); [apply rstrip_idem|].
  unfold strip. pose proof (lstrip_idem s) as H.
  destruct (lstrip s) as [|c t]; [done|]. cbn [lstrip] in H.
  destruct (isspace c) eqn:Hc.
  - exfalso. apply (f_equal length) in H.
    assert (length (lstrip t) ≤ length t)%nat; [|cbn in H; lia].
    clear. induction t as [|x t IH]; cbn [lstrip]; [done|].
    destruct (isspace x); cbn; lia.
  - rewrite rstrip_cons by done. cbn [lstrip]. by rewrite Hc.
Qed.

Lemma elem_of_lstrip x s : x ∈ lstrip s → x ∈ s.
Proof.
  induction s as [|c s IH]; cbn [lstrip]; [done|].
  destruct (isspace c); [|done]. intros H. right. by apply IH.
Qed.

Lemma lstrip_keeps x s : x ∈ s → isspace x = false → x ∈ lstrip s.
Proof.
  intros Hx Hs. induction s as [|c s IH]; cbn [lstrip]; [done|].
  destruct (isspace c) eqn:Hc; [|done].
  apply elem_of_cons in Hx as [->|Hx]; [congruence|by apply IH].
Qed.

Lemma elem_of_strip x s : x ∈ strip s → x ∈ s.
Proof.
  unfold strip, rstrip. rewrite elem_of_reverse. intros H%elem_of_lstrip.
  rewrite elem_of_reverse in H. by apply elem_of_lstrip.
Qed.

Lemma strip_keeps x s : x ∈ s → isspace x = false → x ∈ strip s.
Proof.
  intros Hx Hs. unfold strip, rstrip. rewrite elem_of_reverse.
  apply lstrip_keeps; [|done]. rewrite elem_of_reverse. by apply lstrip_keeps.
Qed.

(** *** Splitting at a single character *)

Lemma split_go_nonempty sep s skip cur : split_go sep s skip cur ≠ [].
Proof.
  revert skip cur. induction s as [|c s IH]; intros skip cur; cbn [split_go]; [done|].
  destruct skip; [|apply IH]. destruct (starts_with sep (c :: s)); [done|apply IH].
Qed.

Lemma split_go_pieces c s cur :
  c ∉ cur → Forall (λ piece, c ∉ piece) (split_go [c] s 0 cur).
Proof.
  revert cur. induction s as [|x s IH]; intros cur Hcur; cbn [split_go].
  - by constructor.
  - cbn [starts_with]. rewrite andb_true_r. destruct (N.eqb_spec c x) as [->|Hx].
    + constructor; [done|]. cbn. apply IH. apply not_elem_of_nil.
    + apply IH. rewrite elem_of_app. intros [?|?%list_elem_of_singleton]; congruence.
Qed.

(** The pieces of [s.split(c)] do not contain [c]. *)
Lemma split_pieces c s : Forall (λ piece, c ∉ piece) (split [c] s).
Proof. apply split_go_pieces, not_elem_of_nil. Qed.

Lemma split_go_no_sep c s cur : c ∉ s → split_go [c] s 0 cur = [cur ++ s].
Proof.
  revert cur. induction s as [|x s IH]; intros cur Hs; cbn [split_go].
  - by rewrite app_nil_r.
  - cbn [starts_with]. rewrite andb_true_r.
    apply not_elem_of_cons in Hs as [Hx Hs].
    destruct (N.eqb_spec c x) as [->|_]; [done|].
    rewrite IH by done. by rewrite <- (assoc_L (++)).
Qed.

Lemma last_cons_nonempty {A} (x : A) l : l ≠ [] → last (x :: l) = last l.
Proof. by destruct l. Qed.

(** The last piece of a text that ends with [z], a text free of the
    separator, is the last piece of what precedes, followed by [z]. *)
Lemma split_go_last_app c s z cur :
  c ∉ z →
  last (split_go [c] (s ++ z) 0 cur) = (λ piece, piece ++ z) <$> last (split_go [c] s 0 cur).
Proof.
  intros Hz. revert cur. induction s as [|x s IH]; intros cur; cbn [app].
  - by rewrite split_go_no_sep.
  - cbn [split_go starts_with]. rewrite !andb_true_r.
    destruct (N.eqb c x); [|apply IH].
    rewrite !last_cons_nonempty by apply split_go_nonempty. apply IH.
Qed.

Lemma last_filter_keep {A} (P : A → Prop) `{∀ x, Decision (P x)} l x :
  last l = Some x → P x → last (filter P l) = Some x.
Proof.
  intros [l' ->]%last_Some HP. rewrite filter_app, filter_cons_True by done.
  rewrite filter_nil. apply last_snoc.
Qed.

(** The name of a path that ends with [z], a non-empty text free of
    slashes and other than a single dot, ends with [z]. *)
Lemma path_name_app p z :
  47%N ∉ z → z ≠ [] → (∀ q, q ++ z ≠ [46%N]) →
  ∃ q, path_name (p ++ z) = q ++ z ∧ 47%N ∉ q.
Proof.
  intros Hz Hne Hdot. unfold path_name, split.
  pose proof (split_go_last_app 47%N p z [] Hz) as H.
  pose proof (split_go_pieces 47%N p [] ltac:(apply not_elem_of_nil)) as Hp.
  destruct (last (split_go [47%N] p 0 [])) as [q|] eqn:Hq.
  - exists q. cbn in H. rewrite (last_filter_keep _ _ _ H).
    + split; [done|]. destruct (proj1 (last_Some _ _) Hq) as [l' Hl]. rewrite Hl in Hp.
      apply Forall_app in Hp as [_ Hp]. by inversion Hp.
    + split; [|apply Hdot]. intros [_ ?]%app_eq_nil. done.
  - apply last_None in Hq. by apply split_go_nonempty in Hq.
Qed.

Lemma rfind_from_app c a b i last :
  rfind_from c (a ++ b) i last = rfind_from c b (i + len a) (rfind_from c a i last).
Proof.
  revert i last. induction a as [|x a IH]; intros i last; cbn [app rfind_from].
  - unfold len. cbn. by rewrite Z.add_0_r.
  - rewrite IH. f_equal. unfold len. cbn [length]. lia.
Qed.

Lemma rfind_from_absent c s i last : c ∉ s → rfind_from c s i last = last.
Proof.
  revert i last. induction s as [|x s IH]; intros i last Hs; cbn [rfind_from]; [done|].
  apply not_elem_of_cons in Hs as [Hx Hs]. rewrite IH by done.
  by destruct (N.eqb_spec x c).
Qed.

Lemma rfind_from_upper c s i last : last < i → rfind_from c s i last < i + len s.
Proof.
  revert i last. induction s as [|x s IH]; intros i last Hl; cbn [rfind_from].
  - unfold len. cbn. lia.
  - unfold len. cbn [length]. specialize (IH (i + 1) (if N.eqb x c then i else last)).
    unfold len in IH. destruct (N.eqb x c); lia.
Qed.

End StringFacts.

(** ** Reading a link *)

Module LinkFacts.
Import Bot Links PatternFacts.

(** Literals of the source, as the code points they stand for. *)
Ltac literals :=
  repeat match goal with
         | |- context [str ?s] =>
             let v := eval vm_compute in (str s) in change (str s) with v
         end.

Lemma starts_with_inv m s : starts_with m s = true → s = m ++ drop (length m) s.
Proof.
  revert s. induction m as [|c m IH]; intros [|x s]; cbn; try done.
  intros [->%N.eqb_eq H]%andb_prop. f_equal. by apply IH.
Qed.

Lemma contains_intro needle pre suf : contains needle (pre ++ needle ++ suf) = true.
Proof.
  induction pre as [|c pre IH].
  - destruct (needle ++ suf) eqn:H; cbn [app contains]; rewrite <- H;
      by rewrite starts_with_app.
  - cbn [app contains]. rewrite IH. apply orb_true_r.
Qed.

Lemma contains_inv needle s :
  contains needle s = true → ∃ pre suf, s = pre ++ needle ++ suf.
Proof.
  induction s as [|c s IH]; cbn [contains].
  - rewrite orb_false_r. intros H%starts_with_inv. by exists [], (drop (length needle) []).
  - intros [H%starts_with_inv|H]%orb_prop.
    + by exists [], (drop (length needle) (c :: s)).
    + destruct (IH H) as (pre & suf & ->). by exists (c :: pre), suf.
Qed.

(** *** What a successful match tells *)

Lemma search_inv r s gs :
  Re.search r s = Some gs →
  ∃ pre suf, s = pre ++ suf ∧ Re.exec r suf [] (λ _ gs, Some gs) = Some gs.
Proof.
  induction s as [|c s IH]; cbn [Re.search].
  - destruct (Re.exec r [] [] _) eqn:H; [|done]. intros [= <-]. by exists [], [].
  - destruct (Re.exec r (c :: s) [] _) eqn:H.
    + intros [= <-]. by exists [], (c :: s).
    + intros (pre & suf & -> & H')%IH. by exists (c :: pre), suf.
Qed.

Lemma first_alt_inv {R} alts s (k : pystr → option R) r :
  Re.first_alt alts s k = Some r →
  ∃ a, a ∈ alts ∧ s = a ++ drop (length a) s ∧ k (drop (length a) s) = Some r.
Proof.
  induction alts as [|a alts IH]; cbn [Re.first_alt]; [done|].
  destruct (starts_with a s) eqn:Ha.
  - destruct (k (drop (length a) s)) eqn:Hk.
    + intros [= <-]. exists a. split; [left|]. split; [by apply starts_with_inv|done].
    + intros (a' & ? & ?)%IH. exists a'. split; [by right|done].
  - intros (a' & ? & ?)%IH. exists a'. split; [by right|done].
Qed.

Lemma rep_greedy_inv {R} cls min s (k : pystr → option R) r :
  Re.rep_greedy cls min s k = Some r →
  ∃ run rest, s = run ++ rest ∧ Forall (λ c, cls c = true) run
              ∧ (min ≤ length run)%nat ∧ k rest = Some r.
Proof.
  revert min. induction s as [|c s IH]; intros min; cbn [Re.rep_greedy].
  - destruct min; [|done]. intros H. exists [], []. by repeat split.
  - destruct (cls c) eqn:Hc.
    + destruct (Re.rep_greedy cls (Nat.pred min) s k) eqn:Hrec.
      * intros [= <-]. destruct (IH _ Hrec) as (run & rest & -> & Hrun & Hmin & Hk).
        exists (c :: run), rest. repeat split; [by constructor|cbn; lia|done].
      * destruct min; [|done]. intros H. exists [], (c :: s). by repeat split.
    + destruct min; [|done]. intros H. exists [], (c :: s). by repeat split.
Qed.

Lemma take_run (run rest : pystr) : take (length (run ++ rest) - length rest) (run ++ rest) = run.
Proof. by rewrite length_app, Nat.add_sub, take_app_length. Qed.

(** A search fails on a text that does not hold the literal the pattern
    starts with. *)
Lemma search_needs_literal m r s :
  contains m s = false → Re.search (Re.Seq (Re.Lit m) r) s = None.
Proof.
  induction s as [|c s IH]; cbn [contains Re.search Re.exec].
  - rewrite orb_false_r. by intros ->.
  - intros [-> H]%orb_false_elim. by apply IH.
Qed.

Lemma search_miss r c s :
  Re.exec r (c :: s) [] (λ _ gs, Some gs) = None → Re.search r (c :: s) = Re.search r s.
Proof. intros H. cbn [Re.search]. by rewrite H. Qed.

Lemma search_hit r s gs :
  Re.exec r s [] (λ _ gs, Some gs) = Some gs → Re.search r s = Some gs.
Proof. intros H. destruct s; cbn [Re.search]; by rewrite H. Qed.

(** *** Spotify links *)

Lemma spotify_match kind id rest :
  kind ∈ spotify_kinds → id ≠ [] → Forall (λ c, alnum c = true) id →
  (∀ c rest', rest = c :: rest' → alnum c = false) →
  Re.search spotify_pattern (str "https://open.spotify.com/" ++ kind ++ str "/" ++ id ++ rest)
  = Some [kind; id].
Proof.
  intros Hkind Hne Hid Hrest. unfold spotify_pattern, Re.seq, spotify_kinds in *. cbn [foldr].
  apply search_here. cbn [Re.exec].
  repeat (apply elem_of_cons in Hkind as [->|Hkind]); [..|by apply elem_of_nil in Hkind];
    literals; cbn -[Re.rep_greedy]; rewrite ?drop_0;
    (erewrite rep_greedy_run; [|done|destruct id; [done|cbn; lia]|done|reflexivity]);
    rewrite take_run; do 2 f_equal;
    match goal with
    | |- take ?n ?l = ?k => replace n with (length k) by (cbn; lia)
    end; reflexivity.
Qed.

Lemma spotify_match_inv text gs :
  Re.search spotify_pattern text = Some gs →
  ∃ pre kind id rest,
    text = pre ++ str "https://open.spotify.com/" ++ kind ++ str "/" ++ id ++ rest
    ∧ kind ∈ spotify_kinds ∧ id ≠ [] ∧ Forall (λ c, alnum c = true) id ∧ gs = [kind; id].
Proof.
  intros (pre & suf & -> & H)%search_inv. exists pre.
  unfold spotify_pattern, Re.seq in H. cbn [foldr Re.exec] in H.
  destruct (starts_with _ suf) eqn:H0; [|done]. apply starts_with_inv in H0.
  set (s0 := drop _ suf) in *. clearbody s0.
  apply first_alt_inv in H as (kind & Hkind & Hs0 & H).
  set (s1 := drop _ s0) in *. clearbody s1.
  destruct (starts_with _ s1) eqn:H1; [|done]. apply starts_with_inv in H1.
  set (s2 := drop _ s1) in *. clearbody s2.
  apply rep_greedy_inv in H as (id & rest & Hs2 & Hid & Hmin & H).
  cbn in H. injection H as <-.
  exists kind, id, rest. split; [|split; [done|split; [|split; [done|]]]].
  - by rewrite H0, Hs0, H1, Hs2.
  - intros ->. cbn in Hmin. lia.
  - f_equal; [|f_equal].
    + rewrite Hs0. by rewrite take_run.
    + rewrite Hs2. by rewrite take_run.
Qed.

(** X1. A Spotify link of one of the four kinds, at the start of the
    text and with a non-empty alphanumeric identifier that ends where
    the text ends or a character that is not alphanumeric follows, is
    read as that kind and that identifier; the record keeps the whole
    text as its url. *)
Theorem extract_spotify_reads_the_link kind id rest :
  kind ∈ spotify_kinds → id ≠ [] → Forall (λ c, alnum c = true) id →
  (∀ c rest', rest = c :: rest' → alnum c = false) →
  let text := str "https://open.spotify.com/" ++ kind ++ str "/" ++ id ++ rest in
  extract_spotify_url_info text = Some (link_record (str "spotify") kind id text).
Proof.
  intros Hkind Hne Hid Hrest text. unfold extract_spotify_url_info, text.
  by rewrite spotify_match.
Qed.

Lemma extract_spotify_reads_the_link_witness :
  extract_spotify_url_info (str "https://open.spotify.com/album/4aawyAB9vmqN3uQ7FjRGTy?si=1")
  = Some (link_record (str "spotify") (str "album") (str "4aawyAB9vmqN3uQ7FjRGTy")
            (str "https://open.spotify.com/album/4aawyAB9vmqN3uQ7FjRGTy?si=1")).
Proof.
  apply (extract_spotify_reads_the_link (str "album") (str "4aawyAB9vmqN3uQ7FjRGTy")
           (str "?si=1")).
  - unfold spotify_kinds. by repeat constructor.
  - discriminate.
  - vm_compute. repeat constructor.
  - intros c rest' [= <- _]. reflexivity.
Defined.

(** X2. Whatever the text, a record returned by
    [extract_spotify_url_info] has one of the four kinds as its type and
    a non-empty alphanumeric identifier, both taken from a link
    [https://open.spotify.com/kind/id] that occurs in the text, and the
    whole text as its url. *)
Theorem extract_spotify_record_is_well_formed text info :
  extract_spotify_url_info text = Some info →
  ∃ kind id,
    info = link_record (str "spotify") kind id text
    ∧ kind ∈ spotify_kinds ∧ id ≠ [] ∧ Forall (λ c, alnum c = true) id
    ∧ contains (str "https://open.spotify.com/" ++ kind ++ str "/" ++ id) text = true.
Proof.
  unfold extract_spotify_url_info.
  destruct (Re.search spotify_pattern text) as [gs|] eqn:H; [|done]. intros [= <-].
  apply spotify_match_inv in H as (pre & kind & id & rest & -> & Hkind & Hne & Hid & ->).
  exists kind, id. repeat split; try done.
  set (link := str "https://open.spotify.com/" ++ kind ++ str "/" ++ id).
  replace (pre ++ _) with (pre ++ link ++ rest)
    by (unfold link; by rewrite <- !(assoc_L (++))).
  apply contains_intro.
Qed.

Lemma extract_spotify_record_is_well_formed_witness :
  ∃ kind id,
    link_record (str "spotify") (str "track") (str "6rqhFgbbKwnb9MLmUQDhG6")
      (str "listen: https://open.spotify.com/track/6rqhFgbbKwnb9MLmUQDhG6 !")
    = link_record (str "spotify") kind id
        (str "listen: https://open.spotify.com/track/6rqhFgbbKwnb9MLmUQDhG6 !")
    ∧ kind ∈ spotify_kinds ∧ id ≠ [] ∧ Forall (λ c, alnum c = true) id
    ∧ contains (str "https://open.spotify.com/" ++ kind ++ str "/" ++ id)
        (str "listen: https://open.spotify.com/track/6rqhFgbbKwnb9MLmUQDhG6 !") = true.
Proof.
  apply (extract_spotify_record_is_well_formed
           (str "listen: https://open.spotify.com/track/6rqhFgbbKwnb9MLmUQDhG6 !")).
  vm_compute. reflexivity.
Defined.

(** *** YouTube links *)

Lemma rep_greedy_none {R} cls min s (k : pystr → option R) :
  (∀ c s', s = c :: s' → cls c = false) → (0 < min)%nat → Re.rep_greedy cls min s k = None.
Proof.
  intros Hs Hmin. destruct min; [lia|]. destruct s as [|c s]; [done|].
  cbn [Re.rep_greedy]. by rewrite (Hs c s eq_refl).
Qed.

Lemma rep_greedy_is_Some {R} cls min run rest (k : pystr → option R) :
  (∀ s, is_Some (k s)) → Forall (λ c, cls c = true) run → (min ≤ length run)%nat →
  is_Some (Re.rep_greedy cls min (run ++ rest) k).
Proof.
  intros Hk Hrun. revert min. induction Hrun as [|c run Hc _ IH]; intros min Hmin.
  - cbn in Hmin. replace min with 0%nat by lia. cbn [app].
    destruct rest as [|c rest]; cbn [Re.rep_greedy]; [done|].
    destruct (cls c); [|done]. by destruct (Re.rep_greedy cls (Nat.pred 0) rest k).
  - cbn [app Re.rep_greedy]. rewrite Hc.
    destruct (IH (Nat.pred min)) as [r ->]; [cbn in Hmin; lia|done].
Qed.

Lemma first_alt_is_Some {R} alts a s (k : pystr → option R) :
  a ∈ alts → is_Some (k s) → is_Some (Re.first_alt alts (a ++ s) k).
Proof.
  intros Ha Hk. induction Ha as [a alts|a a' alts _ IH]; cbn [Re.first_alt].
  - rewrite starts_with_app, drop_app_length. by destruct Hk as [r ->].
  - by destruct (if starts_with a' (a ++ s) then _ else _).
Qed.

Lemma search_is_Some r pre suf :
  is_Some (Re.exec r suf [] (λ _ gs, Some gs)) → is_Some (Re.search r (pre ++ suf)).
Proof.
  intros H. induction pre as [|c pre IH].
  - destruct H as [gs H]. exists gs. by apply search_hit.
  - cbn [app Re.search]. by destruct (Re.exec r (c :: pre ++ suf) [] _).
Qed.

(** The first pattern of [extract_youtube_url_info] matches wherever a
    host, a slash and at least one identifier character follow each
    other, with or without the optional parts. *)
Lemma youtube_pattern_matches pre scheme www host path id rest :
  scheme ∈ [str "https://"; str "http://"; []] → www ∈ [str "www."; []] →
  host ∈ [str "youtube.com"; str "youtu.be"] →
  path ∈ [str "watch?v="; str "playlist?list="; []] →
  id ≠ [] → Forall (λ c, id_char c = true) id →
  is_Some (Re.search youtube_pattern
             (pre ++ scheme ++ www ++ host ++ str "/" ++ path ++ id ++ rest)).
Proof.
  intros H1 H2 H3 H4 Hne Hid. apply search_is_Some.
  unfold youtube_pattern, Re.seq. cbn [foldr Re.exec].
  apply first_alt_is_Some; [done|]. apply first_alt_is_Some; [done|].
  apply first_alt_is_Some; [done|]. rewrite starts_with_app, drop_app_length.
  apply first_alt_is_Some; [done|].
  apply rep_greedy_is_Some; [|done|destruct id; [done|cbn; lia]].
  intros s. cbn. eauto.
Qed.

Ltac in_list := by repeat constructor.

Ltac skip_misses :=
  repeat (rewrite search_miss
            by (reflexivity || (cbn -[Re.rep_greedy]; by rewrite rep_greedy_none by (done || lia)))).

Ltac cases_of H :=
  repeat (apply elem_of_cons in H as [->|H]); [..|by apply elem_of_nil in H].

(** X3. A video link in one of the usual forms (with or without scheme
    and [www.] or [m.], long or short host), whose identifier is a
    non-empty run of letters, digits, underscores and hyphens that ends
    where the text ends or another character follows, is read as a
    video with that identifier, provided the text does not contain
    [playlist?list=]; the record keeps the whole text as its url. *)
Theorem extract_youtube_reads_a_video_link scheme www path id rest :
  scheme ∈ [str "https://"; str "http://"; []] → www ∈ [str "www."; str "m."; []] →
  path ∈ [str "youtube.com/watch?v="; str "youtu.be/"] →
  id ≠ [] → Forall (λ c, id_char c = true) id →
  (∀ c rest', rest = c :: rest' → id_char c = false) →
  let text := scheme ++ www ++ path ++ id ++ rest in
  contains (str "playlist?list=") text = false →
  extract_youtube_url_info text
  = inr (Some (link_record (str "youtube") (str "video") id text)).
Proof.
  intros Hscheme Hwww Hpath Hne Hid Hrest text Hnot.
  assert (1 ≤ length id)%nat as Hlen by (destruct id; [done|cbn; lia]).
  unfold extract_youtube_url_info. rewrite Hnot.
  assert (is_Some (Re.search youtube_pattern text)) as [gs0 ->].
  { unfold text. rewrite (assoc_L (++) scheme www). cases_of Hpath.
    - apply (youtube_pattern_matches (scheme ++ www) [] [] (str "youtube.com")
               (str "watch?v=") id rest); in_list.
    - apply (youtube_pattern_matches (scheme ++ www) [] [] (str "youtu.be")
               [] id rest); in_list. }
  assert (∃ sep, Re.search video_id_pattern text = Some [sep; id]) as [sep ->]; [|done].
  unfold text. clear Hnot text.
  cases_of Hscheme; cases_of Hwww; cases_of Hpath.
  all: unfold video_id_pattern, Re.seq; cbn [foldr]; literals.
  all: cbn [app]; skip_misses.
  all: eexists; apply search_hit.
  all: cbn -[Re.rep_greedy]; rewrite ?drop_0.
  all: (erewrite rep_greedy_run; [|done|done|done|reflexivity]).
  all: rewrite take_run; reflexivity.
Qed.

Lemma extract_youtube_reads_a_video_link_witness :
  extract_youtube_url_info (str "https://www.youtube.com/watch?v=dQw4w9WgXcQ&t=42s")
  = inr (Some (link_record (str "youtube") (str "video") (str "dQw4w9WgXcQ")
                 (str "https://www.youtube.com/watch?v=dQw4w9WgXcQ&t=42s"))).
Proof.
  apply (extract_youtube_reads_a_video_link (str "https://") (str "www.")
           (str "youtube.com/watch?v=") (str "dQw4w9WgXcQ") (str "&t=42s")).
  - in_list.
  - in_list.
  - in_list.
  - discriminate.
  - vm_compute. repeat constructor.
  - intros c rest' [= <- _]. reflexivity.
  - reflexivity.
Defined.

(** X4. A playlist link [youtube.com/playlist?list=ID] (with or without
    scheme and [www.]) is read as a playlist with the identifier that
    follows [list=]. *)
Theorem extract_youtube_reads_a_playlist_link scheme www id rest :
  scheme ∈ [str "https://"; str "http://"; []] → www ∈ [str "www."; str "m."; []] →
  id ≠ [] → Forall (λ c, id_char c = true) id →
  (∀ c rest', rest = c :: rest' → id_char c = false) →
  let text := scheme ++ www ++ str "youtube.com/playlist?list=" ++ id ++ rest in
  extract_youtube_url_info text
  = inr (Some (link_record (str "youtube") (str "playlist") id text)).
Proof.
  intros Hscheme Hwww Hne Hid Hrest text.
  assert (1 ≤ length id)%nat as Hlen by (destruct id; [done|cbn; lia]).
  unfold extract_youtube_url_info.
  assert (is_Some (Re.search youtube_pattern text)) as [gs0 ->].
  { unfold text. rewrite (assoc_L (++) scheme www).
    apply (youtube_pattern_matches (scheme ++ www) [] [] (str "youtube.com")
             (str "playlist?list=") id rest); in_list. }
  assert (contains (str "playlist?list=") text = true) as ->.
  { unfold text. rewrite (assoc_L (++) scheme www).
    change (str "youtube.com/playlist?list=") with (str "youtube.com/" ++ str "playlist?list=").
    rewrite <- (assoc_L (++) (str "youtube.com/")), (assoc_L (++) (scheme ++ www)).
    apply contains_intro. }
  assert (Re.search list_id_pattern text = Some [id]) as ->; [|done].
  unfold text. clear text.
  cases_of Hscheme; cases_of Hwww.
  all: unfold list_id_pattern, Re.seq; cbn [foldr]; literals.
  all: cbn [app]; skip_misses.
  all: apply search_hit.
  all: cbn -[Re.rep_greedy]; rewrite ?drop_0.
  all: (erewrite rep_greedy_run; [|done|done|done|reflexivity]).
  all: by rewrite take_run.
Qed.

Lemma extract_youtube_reads_a_playlist_link_witness :
  extract_youtube_url_info (str "https://www.youtube.com/playlist?list=PL_ab-12")
  = inr (Some (link_record (str "youtube") (str "playlist") (str "PL_ab-12")
                 (str "https://www.youtube.com/playlist?list=PL_ab-12"))).
Proof.
  apply (extract_youtube_reads_a_playlist_link (str "https://") (str "www.")
           (str "PL_ab-12") []).
  - in_list.
  - in_list.
  - discriminate.
  - vm_compute. repeat constructor.
  - intros c rest' [=].
Defined.

(** X5. A playlist link without an identifier, followed by nothing that
    holds [list=] again, makes [extract_youtube_url_info] raise
    [AttributeError]: the first pattern matches (the word [playlist] is
    taken as the identifier), the text contains [playlist?list=], and the
    search for [list=] followed by an identifier fails. *)
Theorem extract_youtube_raises_on_an_empty_playlist_id scheme www rest :
  scheme ∈ [str "https://"; str "http://"; []] → www ∈ [str "www."; str "m."; []] →
  (∀ c rest', rest = c :: rest' → id_char c = false) →
  contains (str "list=") rest = false →
  extract_youtube_url_info (scheme ++ www ++ str "youtube.com/playlist?list=" ++ rest)
  = inl AttributeError.
Proof.
  intros Hscheme Hwww Hrest Hnot.
  set (text := scheme ++ www ++ str "youtube.com/playlist?list=" ++ rest).
  unfold extract_youtube_url_info.
  assert (is_Some (Re.search youtube_pattern text)) as [gs0 ->].
  { unfold text. rewrite (assoc_L (++) scheme www).
    apply (youtube_pattern_matches (scheme ++ www) [] [] (str "youtube.com")
             [] (str "playlist") (str "?list=" ++ rest)); [in_list..|done|].
    vm_compute. repeat constructor. }
  assert (contains (str "playlist?list=") text = true) as ->.
  { unfold text. rewrite (assoc_L (++) scheme www).
    change (str "youtube.com/playlist?list=") with (str "youtube.com/" ++ str "playlist?list=").
    rewrite <- (assoc_L (++) (str "youtube.com/")), (assoc_L (++) (scheme ++ www)).
    apply contains_intro. }
  assert (Re.search list_id_pattern text = None) as ->; [|done].
  unfold text. clear text.
  cases_of Hscheme; cases_of Hwww.
  all: unfold list_id_pattern, Re.seq; cbn [foldr]; literals.
  all: cbn [app]; skip_misses.
  all: by apply search_needs_literal.
Qed.

Lemma extract_youtube_raises_on_an_empty_playlist_id_witness :
  extract_youtube_url_info (str "https://www.youtube.com/playlist?list=") = inl AttributeError.
Proof.
  apply (extract_youtube_raises_on_an_empty_playlist_id (str "https://") (str "www.") []).
  - in_list.
  - in_list.
  - intros c rest' [=].
  - reflexivity.
Defined.

End LinkFacts.

(** ** The title read from the metadata listing, and the archive's name *)

Module NamingFacts.
Import Bot Links Archive CloudUploader StringFacts LinkFacts SafeFilenameFacts.

(** X6. When the listing of [spotdl list] gives a title, the tool had
    exited with status 0, and the title, stored under [search_term] and
    [artist_song] alike, is a single line with a dash in it and without
    whitespace at either end: stripping it again changes nothing, and it
    is not empty. *)
Theorem listed_metadata_gives_a_trimmed_title returncode stdout m :
  listed_metadata returncode stdout = Some m →
  returncode = 0
  ∧ ∃ term, m = {[ "search_term" := term; "artist_song" := term ]}
      ∧ term ≠ [] ∧ strip term = term ∧ (10%N ∉ term) ∧ (45%N ∈ term).
Proof.
  unfold listed_metadata.
  destruct (_ && _) eqn:Hc; [|done]. apply andb_prop in Hc as [Hrc%Z.eqb_eq _].
  destruct (filter _ _) as [|line rest] eqn:Hf; [done|]. intros [= <-].
  split; [done|]. exists (strip line).
  assert (line ∈ filter (λ line, metadata_line line = true) (split [10%N] (strip stdout)))
    as [Hline Hin]%list_elem_of_filter by (rewrite Hf; left).
  apply andb_prop in Hline as [(pre & suf & ->)%contains_inv _].
  assert (45%N ∈ strip (pre ++ str " - " ++ suf)) as Hdash.
  { apply strip_keeps; [|done]. rewrite !elem_of_app. right. left. by repeat constructor. }
  repeat split; [|apply strip_idem| |done].
  - intros H. rewrite H in Hdash. by apply elem_of_nil in Hdash.
  - intros H%elem_of_strip. pose proof (split_pieces 10%N (strip stdout)) as Hp.
    rewrite Forall_forall in Hp. by apply (Hp _ Hin).
Qed.

Lemma listed_metadata_gives_a_trimmed_title_witness :
  0 = 0
  ∧ ∃ term, ({[ "search_term" := str "Daft Punk - One More Time";
                "artist_song" := str "Daft Punk - One More Time" ]} : gmap string pystr)
            = {[ "search_term" := term; "artist_song" := term ]}
      ∧ term ≠ [] ∧ strip term = term ∧ (10%N ∉ term) ∧ (45%N ∈ term).
Proof.
  apply (listed_metadata_gives_a_trimmed_title 0
           (str "Found 1 songs - in Discovery" ++ [10%N]
            ++ str "  Daft Punk - One More Time " ++ [10%N])).
  vm_compute. reflexivity.
Defined.

(** *** The name of the archive *)

Lemma slice_to_app q z : slice_to (len q) (q ++ z) = q.
Proof.
  unfold slice_to, len. rewrite (proj2 (Z.leb_le 0 _)) by lia.
  by rewrite Nat2Z.id, take_app_length.
Qed.

Lemma slice_from_app q z : slice_from (len q) (q ++ z) = z.
Proof. unfold slice_from, len. by rewrite Nat2Z.id, drop_app_length. Qed.

Lemma rfind_dot_zip q : rfind 46%N (q ++ str ".zip") = len q.
Proof.
  unfold rfind. rewrite rfind_from_app. literals. cbn [rfind_from N.eqb Pos.eqb]. lia.
Qed.

Lemma splitext_zip q :
  splitext (q ++ str ".zip") = (q, str ".zip") ∨ splitext (q ++ str ".zip") = (q ++ str ".zip", []).
Proof.
  unfold splitext, _splitext. rewrite rfind_dot_zip.
  destruct (_ && _); [left|by right]. by rewrite slice_to_app, slice_from_app.
Qed.

Lemma slice1_at (pre : pystr) c rest : slice1 (pre ++ c :: rest) (len pre) = [c].
Proof.
  unfold slice1, len. rewrite (proj2 (Z.ltb_ge _ 0)) by lia.
  by rewrite Nat2Z.id, drop_app_length.
Qed.

Lemma skip_leading_dots_finds pre q z x :
  x ∈ q → x ≠ 46%N → skip_leading_dots (pre ++ q ++ z) 46%N (len pre) (length q) = true.
Proof.
  intros Hx Hne. revert pre. induction q as [|c q IH]; intros pre; [by apply elem_of_nil in Hx|].
  cbn [length skip_leading_dots app]. rewrite slice1_at.
  destruct (decide (c = 46%N)) as [->|Hc].
  - replace (negb (Py.eqb [46%N] [46%N])) with false by reflexivity.
    apply elem_of_cons in Hx as [->|Hx]; [done|].
    specialize (IH Hx (pre ++ [46%N])). rewrite <- !(assoc_L (++)) in IH. cbn [app] in IH.
    replace (len pre + 1) with (len (pre ++ [46%N])); [done|].
    unfold len. rewrite length_app. cbn. lia.
  - unfold Py.eqb. rewrite bool_decide_eq_false_2; [done|]. by intros [= ->].
Qed.

Lemma path_name_of_a_file p w :
  47%N ∉ w → w ≠ [] → w ≠ [46%N] → path_name (p ++ [47%N] ++ w) = w.
Proof.
  intros Hw Hne Hdot. unfold path_name, split.
  assert (∀ cur, last (split_go [47%N] (p ++ [47%N] ++ w) 0 cur) = Some w) as Hlast.
  { induction p as [|x p IH]; intros cur; cbn [app split_go starts_with].
    - cbn. by rewrite split_go_no_sep.
    - rewrite andb_true_r. destruct (N.eqb 47 x); [|apply IH].
      rewrite last_cons_nonempty by apply split_go_nonempty. apply IH. }
  by rewrite (last_filter_keep _ _ _ (Hlast [])).
Qed.

Section zip_name.
Variable U : unicodedata.

(** X7. Whatever the content name (accents, spaces, slashes, any
    length), the archive's file name is made of ASCII characters only,
    has none of the path-unsafe characters, and is at most 255
    characters long. *)
Theorem safe_zip_name_is_safe parent content_name :
  all_ascii (safe_zip_name U parent content_name)
  ∧ path_safe (safe_zip_name U parent content_name)
  ∧ len (safe_zip_name U parent content_name) ≤ 255.
Proof.
  unfold safe_zip_name.
  destruct (path_name_app (parent ++ str "/" ++ content_name) (str ".zip"))
    as (q & Hq & _); [by_compute|done| |].
  { intros [|c [|c' q]]; discriminate. }
  rewrite <- !(assoc_L (++)) in Hq. rewrite Hq.
  destruct (safe_filename_unfold U (q ++ str ".zip") 255) as (stem & -> & Ha & Hs & Hl).
  assert (kept_ext (q ++ str ".zip") = str ".zip" ∨ kept_ext (q ++ str ".zip") = []) as Hk.
  { unfold kept_ext. destruct (splitext_zip q) as [-> | ->]; [by left|by right]. }
  destruct Hk as [Hk|Hk]; rewrite Hk in *.
  - repeat split.
    + apply Forall_app. split; [done|]. vm_compute. repeat constructor.
    + apply Forall_app. split; [done|]. vm_compute. repeat constructor.
    + rewrite len_app. specialize (Hl ltac:(by vm_compute)).
      change (len (str ".zip")) with 4 in *. lia.
  - rewrite app_nil_r. repeat split; [done..|]. apply Hl. by vm_compute.
Qed.

(** X8. For a content name without a slash and with a character other
    than a dot, the archive is named by the content name itself,
    reduced to ASCII, with every run of path-unsafe characters made
    one underscore, cut to 251 characters, followed by [.zip]. *)
Theorem safe_zip_name_keeps_the_content_name parent content_name x :
  47%N ∉ content_name → x ∈ content_name → x ≠ 46%N →
  safe_zip_name U parent content_name
  = take 251 (sub_unsafe_runs false (ascii_ignore (nfkd U content_name))) ++ str ".zip".
Proof.
  intros Hslash Hx Hne. unfold safe_zip_name.
  change (str "/") with [47%N].
  rewrite (path_name_of_a_file parent (content_name ++ str ".zip")).
  - unfold safe_filename.
    assert (splitext (content_name ++ str ".zip") = (content_name, str ".zip")) as ->.
    { unfold splitext, _splitext. rewrite rfind_dot_zip.
      assert (rfind 47%N (content_name ++ str ".zip") = -1) as ->.
      { unfold rfind. apply rfind_from_absent. rewrite elem_of_app.
        intros [?|H]; [done|]. revert H. by_compute. }
      replace (-1 <? len content_name) with true
        by (symmetry; apply Z.ltb_lt; unfold len; lia).
      replace (Z.to_nat (len content_name - (-1 + 1))) with (length content_name)
        by (unfold len; lia).
      pose proof (skip_leading_dots_finds [] content_name (str ".zip") x Hx Hne) as Hdots.
      cbn [app] in Hdots. change (len []) with (-1 + 1) in Hdots.
      by rewrite Hdots, slice_to_app, slice_from_app. }
    change (10 <? len (str ".zip")) with false. cbv iota.
    change (255 - len (str ".zip")) with 251.
    set (base := sub_unsafe_runs false _).
    destruct (Z.ltb_spec 251 (len base)); [done|].
    rewrite take_ge; [done|]. unfold len in *. lia.
  - rewrite elem_of_app. intros [?|H]; [done|]. revert H. by_compute.
  - by destruct content_name.
  - destruct content_name as [|c [|c' q]]; [by apply elem_of_nil in Hx|discriminate..].
Qed.
End zip_name.

Lemma safe_zip_name_keeps_the_content_name_witness :
  safe_zip_name excerpt (str "/tmp/mbot") (str "Été 2024: mix")
  = take 251 (sub_unsafe_runs false (ascii_ignore (nfkd excerpt (str "Été 2024: mix"))))
    ++ str ".zip".
Proof.
  apply (safe_zip_name_keeps_the_content_name excerpt (str "/tmp/mbot") (str "Été 2024: mix")
           116%N).
  - by_compute.
  - by_compute.
  - discriminate.
Defined.

End NamingFacts.

(** ** A job works on its own progress record only *)

Module FrameFacts.
Import Bot Frame MonadFacts.

Lemma confined_refl R `{!Reflexive R} user b : confined R user b b.
Proof. repeat split; try done. by destruct (download_progress b !! user). Qed.

Lemma confined_trans R `{!Transitive R} user b1 b2 b3 :
  confined R user b1 b2 → confined R user b2 b3 → confined R user b1 b3.
Proof.
  intros (Ha & Hs & Ht & Ho & Hu) (Ha' & Hs' & Ht' & Ho' & Hu').
  repeat split; try congruence.
  - intros u Hne. by rewrite Ho', Ho.
  - destruct (download_progress b1 !! user), (download_progress b2 !! user),
      (download_progress b3 !! user); try done. by etrans.
Qed.

Global Instance same_job_refl : Reflexive same_job.
Proof. by intros p. Qed.

Global Instance same_job_trans : Transitive same_job.
Proof. unfold same_job. intros p1 p2 p3 ? ?. intuition congruence. Qed.

Global Instance same_job_and_counts_refl : Reflexive same_job_and_counts.
Proof. by intros p. Qed.

Global Instance same_job_and_counts_trans : Transitive same_job_and_counts.
Proof.
  unfold same_job_and_counts, same_job, same_counts. intros p1 p2 p3 ? ?. intuition congruence.
Qed.

Section keeps_to.
Context {A B : Type} (R : progress → progress → Prop) `{!Reflexive R, !Transitive R}.
Context (user : Z).

Lemma keeps_ret (a : A) : keeps_to R user (mret a : M A).
Proof. intros b. by apply confined_refl. Qed.

Lemma keeps_raise e : keeps_to R user (raise e : M A).
Proof. intros b. by apply confined_refl. Qed.

Lemma keeps_lift r : keeps_to R user (lift r : M A).
Proof. intros b. by apply confined_refl. Qed.

Lemma keeps_bind (m : M A) (k : A → M B) :
  keeps_to R user m → (∀ a, keeps_to R user (k a)) → keeps_to R user (m ≫= k).
Proof.
  intros Hm Hk b. specialize (Hm b). unfold mbind, M_bind.
  destruct (m b) as [[e|a] b']; cbn [snd] in *; [done|].
  apply (confined_trans R user b b'); [done|apply Hk].
Qed.
End keeps_to.

Section primitives.
Context (R : progress → progress → Prop) `{!Reflexive R, !Transitive R}.
Context (user : Z).

Lemma keeps_get : keeps_to R user get.
Proof. intros b. by apply confined_refl. Qed.

Lemma keeps_emit e : keeps_to R user (emit e).
Proof.
  intros b. unfold emit, modify. cbn [snd]. repeat split; try done.
  cbn. destruct (download_progress b !! user); [reflexivity|done].
Qed.

Lemma keeps_update f : (∀ p, R p (f p)) → keeps_to R user (update_progress user f).
Proof.
  intros Hf b. unfold update_progress, modify. cbn [snd]. repeat split; try done; cbn.
  - intros u Hne. by rewrite lookup_alter_ne.
    - rewrite lookup_alter_eq. destruct (download_progress b !! user); [apply Hf|done].
Qed.

Lemma keeps_when c m : keeps_to R user m → keeps_to R user (when c m).
Proof. intros H. destruct c; [done|by apply keeps_ret]. Qed.
End primitives.

(** One step of a proof that a method keeps to its user's record,
    following its shape; a write is justified by evaluating the setters. *)
Ltac keeps_step :=
  lazymatch goal with
  | |- keeps_to _ _ (mbind _ _) => apply keeps_bind; try tc_solve; [|intros ?]
  | |- keeps_to _ _ (mret _) => apply keeps_ret; tc_solve
  | |- keeps_to _ _ (raise _) => apply keeps_raise; tc_solve
  | |- keeps_to _ _ (lift _) => apply keeps_lift; tc_solve
  | |- keeps_to _ _ get => apply keeps_get; tc_solve
  | |- keeps_to _ _ (update_progress _ _) =>
      apply keeps_update; intros ?; repeat split; try reflexivity
  | |- keeps_to _ _ (emit _) => apply keeps_emit; tc_solve
  | |- keeps_to _ _ (when _ _) => apply keeps_when; try tc_solve
  | |- keeps_to _ _ (if ?c then _ else _) => destruct c
  | |- keeps_to _ _ (match ?x with _ => _ end) => destruct x
  end.

Ltac keeps := repeat keeps_step.

Lemma keeps_to_weaken {A} (R R' : progress → progress → Prop) user (m : M A) :
  (∀ p p', R p p' → R' p p') → keeps_to R user m → keeps_to R' user m.
Proof.
  intros HR Hm b. destruct (Hm b) as (Ha & Hs & Ht & Ho & Hu). repeat split; try done.
  destruct (download_progress b !! user), (download_progress (m b).2 !! user); try done.
  by apply HR.
Qed.

Global Instance same_but_completed_refl : Reflexive same_but_completed.
Proof. by intros p. Qed.

Global Instance same_but_completed_trans : Transitive same_but_completed.
Proof.
  unfold same_but_completed, same_job. intros p1 p2 p3 ? ?. intuition congruence.
Qed.

Section methods.
Variable U : unicodedata.
Variable W : world.
Variable user : Z.

Lemma keeps_ytdlp_line line : keeps_to same_job_and_counts user (ytdlp_line U user line).
Proof. unfold ytdlp_line. keeps. Qed.

Lemma keeps_process_ytdlp_output lines :
  keeps_to same_job_and_counts user (process_ytdlp_output U user lines).
Proof.
  induction lines as [|line rest IH]; cbn [process_ytdlp_output]; [keeps|].
  keeps_step; [apply keeps_ytdlp_line|]. keeps_step; [exact IH|keeps].
Qed.

Lemma keeps_run_ytdlp cmd timeout_seconds :
  keeps_to same_job_and_counts user (run_ytdlp U W cmd timeout_seconds user).
Proof.
  unfold run_ytdlp. keeps_step; [keeps|]. keeps_step; [apply keeps_process_ytdlp_output|].
  keeps.
Qed.

Lemma keeps_report_downloaded files :
  keeps_to same_job_and_counts user (report_downloaded user files).
Proof. unfold report_downloaded. keeps. Qed.

Lemma keeps_third_attempt t dir files :
  keeps_to same_job_and_counts user (third_attempt U W t dir user files).
Proof.
  unfold third_attempt. keeps_step; [apply keeps_run_ytdlp|]. keeps_step.
  repeat (keeps_step; try apply keeps_report_downloaded).
Qed.

Lemma keeps_second_attempt t dir files :
  keeps_to same_job_and_counts user (second_attempt U W t dir user files).
Proof.
  unfold second_attempt. keeps_step; [apply keeps_run_ytdlp|]. keeps_step.
  repeat (keeps_step; try apply keeps_report_downloaded; try apply keeps_third_attempt).
Qed.

(** X9. The fallback, with its three attempts, works on the progress
    record of its own user only: it adds and removes no record, leaves
    the records of the other users, the set of active downloads, the
    conversations and the tasks as they were, and in its own record it
    changes neither the place of the progress message, the platform,
    the password of the archive and the upload figures, nor the counts
    of total and completed tracks. *)
Theorem fallback_keeps_to_its_record t dir chat mode :
  keeps_to same_job_and_counts user (fallback_download_with_ytdlp U W t dir user chat mode).
Proof.
  unfold fallback_download_with_ytdlp. destruct (first_command t dir mode) as [yt_cmd cookies].
  keeps_step; [keeps|]. keeps_step; [keeps|]. keeps_step; [keeps|].
  keeps_step; [apply keeps_run_ytdlp|]. keeps_step.
  repeat (keeps_step; try apply keeps_report_downloaded; try apply keeps_second_attempt).
Qed.

Lemma keeps_fallback t dir chat mode :
  keeps_to same_job user (fallback_download_with_ytdlp U W t dir user chat mode).
Proof.
  apply (keeps_to_weaken same_job_and_counts); [by intros p p' [? _]|].
  unfold fallback_download_with_ytdlp. destruct (first_command t dir mode) as [yt_cmd cookies].
  keeps_step; [keeps|]. keeps_step; [keeps|]. keeps_step; [keeps|].
  keeps_step; [apply keeps_run_ytdlp|]. keeps_step.
  repeat (keeps_step; try apply keeps_report_downloaded; try apply keeps_second_attempt).
Qed.

Lemma keeps_parse_banner chat line_str :
  keeps_to same_job user (parse_banner U user chat line_str).
Proof. unfold parse_banner. keeps. Qed.

Lemma keeps_parse_progress line_str : keeps_to same_job user (parse_progress U user line_str).
Proof.
  unfold parse_progress. keeps.
  all: try (destruct (completed_tracks _ <? total_tracks _); repeat split; reflexivity).
Qed.

Lemma keeps_parse_errors chat dir url metadata l line_str :
  keeps_to same_job user (parse_errors U W user chat dir url metadata l line_str).
Proof. unfold parse_errors. repeat (keeps_step; try apply keeps_fallback). Qed.

Lemma keeps_spotdl_lines chat dir url metadata l lines :
  keeps_to same_job user (spotdl_lines U W user chat dir url metadata l lines).
Proof.
  revert l. induction lines as [|line rest IH]; intros l; cbn [spotdl_lines]; [keeps|].
  keeps_step; [|apply IH]. unfold spotdl_line.
  repeat (keeps_step; try apply keeps_parse_banner; try apply keeps_parse_progress;
          try apply keeps_parse_errors).
Qed.

(** X10. The stream parser of the primary tool, the fallback it may
    start included, works on the progress record of its own user only:
    no record is added or removed, the other users' records, the active
    downloads, the conversations and the tasks are left as they were,
    and in its own record the place of the progress message, the
    platform, the password of the archive and the upload figures are
    never rewritten. *)
Theorem parser_keeps_to_its_record lines chat dir url metadata :
  keeps_to same_job user (_process_spotdl_output U W lines user chat dir url metadata).
Proof.
  unfold _process_spotdl_output. keeps_step; [apply keeps_spotdl_lines|]. keeps.
Qed.

Lemma keeps_recount latest_dir : keeps_to same_but_completed user (recount user latest_dir).
Proof. unfold recount. keeps. Qed.

(** X11. The periodic corrective task works on the progress record of
    its own user only, and in that record it rewrites nothing but the
    completed count and the percentage: the total, the label, the
    status and the collection's name are left as the parser set them. *)
Theorem periodic_task_keeps_to_its_record observations last_update :
  keeps_to same_but_completed user (update_progress_periodically user observations last_update).
Proof.
  revert last_update.
  induction observations as [|[latest_dir current_time] rest IH]; intros last_update;
    cbn [update_progress_periodically]; [keeps|].
  keeps_step; [keeps|]. keeps_step; [|keeps]. keeps_step; [|apply IH].
  unfold periodic_iteration. keeps_step; [apply keeps_recount|]. keeps.
Qed.
End methods.

End FrameFacts.

(** ** The periodic task publishes at most once in fifteen seconds *)

Module PeriodicFacts.
Import Bot Publishing MonadFacts StringFacts.


Lemma recount_outbox user latest_dir b : outbox (recount user latest_dir b).2 = outbox b.
Proof.
  unfold recount. rewrite run_bind_get.
  destruct (download_progress b !! user) as [p|]; [|done].
  destruct latest_dir as [dir|]; [|done].
  destruct (Py.eqb _ _); [|done]. destruct (0 <? _); [|done].
  rewrite run_bind_update. destruct (0 <? total_tracks p); [|done].
  by destruct (percent _ _).
Qed.

Lemma recount_returns user latest_dir b : (recount user latest_dir b).1 = inr ().
Proof.
  unfold recount. rewrite run_bind_get.
  destruct (download_progress b !! user) as [p|]; [|done].
  destruct latest_dir as [dir|]; [|done].
  destruct (Py.eqb _ _); [|done]. destruct (0 <? _); [|done].
  rewrite run_bind_update. destruct (0 <? total_tracks p); [|done].
  by destruct (percent _ _).
Qed.

Lemma publications_app evs evs' :
  publications (evs ++ evs') = publications evs + publications evs'.
Proof. unfold publications. rewrite filter_app, length_app. lia. Qed.

Lemma nondecreasing_from prev prev' readings :
  prev' ≤ prev → nondecreasing prev readings → nondecreasing prev' readings.
Proof. destruct readings as [|t rest]; cbn; [done|]. intros ? [? ?]. split; [lia|done]. Qed.

Lemma nondecreasing_last prev readings :
  nondecreasing prev readings → prev ≤ default prev (last readings).
Proof.
  revert prev. induction readings as [|t rest IH]; intros prev; cbn [nondecreasing]; [done|].
  intros [Ht Hrest]. specialize (IH t Hrest).
  destruct rest as [|t' rest']; [done|]. rewrite last_cons_nonempty by done.
  destruct (last (t' :: rest')); cbn in *; lia.
Qed.

Lemma default_last_cons (d d' x : Z) l :
  l ≠ [] → default d (last (x :: l)) = default d' (last l).
Proof.
  intros Hl. rewrite last_cons_nonempty by done.
  destruct (proj2 (last_is_Some l) Hl) as [y ->]. done.
Qed.

(** X12. Whatever the disk shows, and as long as the clock does not go
    back, the periodic task publishes the progress message at most once
    in fifteen seconds: the publications it makes, times fifteen seconds,
    fit between the last publication before it and its last clock
    reading; it makes no other call. *)
Theorem periodic_task_publishes_at_most_every_15_seconds user observations last_update b :
  nondecreasing last_update (observations.*2) →
  ∃ evs,
    outbox (update_progress_periodically user observations last_update b).2 = outbox b ++ evs
    ∧ Forall (λ e, e = UpdateProgressMessage user) evs
    ∧ 15 * publications evs ≤ default last_update (last (observations.*2)) - last_update.
Proof.
  revert last_update b.
  induction observations as [|[latest_dir current_time] rest IH]; intros last_update b Hmono.
  - exists []. rewrite app_nil_r. cbn. split_and!; [done|by constructor|unfold publications; cbn; lia].
  - cbn [fmap list_fmap snd] in Hmono. destruct Hmono as [Hle Hrest].
    pose proof (nondecreasing_last _ _ Hrest) as Hend.
    assert (default last_update (last ((((latest_dir, current_time) :: rest)).*2))
            = default current_time (last (rest.*2))) as ->.
    { cbn [fmap list_fmap snd]. destruct (rest.*2) as [|t ts]; [done|].
      by apply default_last_cons. }
    cbn [update_progress_periodically]. rewrite run_bind_get.
    destruct (tracked user b).
    2:{ exists []. rewrite app_nil_r. cbn. split_and!; [done|by constructor|unfold publications; cbn; lia]. }
    unfold periodic_iteration, mbind, M_bind.
    pose proof (recount_outbox user latest_dir b) as Ho.
    pose proof (recount_returns user latest_dir b) as Hr.
    destruct (recount user latest_dir b) as [r b1]. cbn [fst snd] in Ho, Hr. subst r.
    destruct (Z.leb_spec 15 (current_time - last_update)) as [Hpub|Hnot].
    + rewrite run_emit. cbn [mret M_ret].
      destruct (IH current_time (with_outbox (λ o, o ++ [UpdateProgressMessage user]) b1) Hrest)
        as (evs & Hevs & Hall & Hn).
      exists (UpdateProgressMessage user :: evs). rewrite Hevs. cbn [outbox with_outbox].
      rewrite Ho, <- (assoc_L (++)). split_and!; [done|by constructor|].
      change (UpdateProgressMessage user :: evs) with ([UpdateProgressMessage user] ++ evs).
      rewrite publications_app. change (publications [UpdateProgressMessage user]) with 1. lia.
    + cbn [mret M_ret].
      destruct (IH last_update b1 (nondecreasing_from _ _ _ Hle Hrest)) as (evs & Hevs & Hall & Hn).
      exists evs. rewrite Hevs, Ho. split_and!; [done|done|].
      destruct (last (rest.*2)) as [t_end|] eqn:Hl; cbn [default] in *; [lia|].
      assert (rest.*2 = []) as Hnil by (by apply last_None).
      destruct rest; [|done]. cbn in Hevs. assert (evs = []) as ->.
      { apply (f_equal length) in Hevs. rewrite length_app in Hevs.
        destruct evs; [done|cbn in Hevs; lia]. }
      cbn. lia.
Qed.

Lemma periodic_task_publishes_at_most_every_15_seconds_witness :
  ∃ evs,
    outbox (update_progress_periodically 7
              [(None, 100); (Some [str "a.mp3"], 110); (None, 116); (None, 120); (None, 131)]
              100 (one_job 7 (initial_progress 1 2 (str "spotify") (str "1234")))).2
    = outbox (one_job 7 (initial_progress 1 2 (str "spotify") (str "1234"))) ++ evs
    ∧ Forall (λ e, e = UpdateProgressMessage 7) evs
    ∧ 15 * publications evs ≤ 131 - 100.
Proof.
  apply (periodic_task_publishes_at_most_every_15_seconds 7
           [(None, 100); (Some [str "a.mp3"], 110); (None, 116); (None, 120); (None, 131)]
           100 (one_job 7 (initial_progress 1 2 (str "spotify") (str "1234")))).
  cbn. lia.
Defined.

End PeriodicFacts.

(** ** The button callbacks *)

Module ButtonFacts.
Import Bot Conversation MonadFacts StringFacts LinkFacts.

(** *** The decimal numeral of an identifier *)

Local Abbreviation numeral_char := (λ c : ascii, c = "-"%char ∨ (48 ≤ N_of_ascii c ≤ 57)%N).

Lemma pretty_N_char_numeral x : numeral_char (pretty_N_char x).
Proof.
  right. unfold pretty_N_char. repeat case_match; by vm_compute.
Qed.

Lemma pretty_N_go_numeral x s :
  Forall numeral_char (String.list_ascii_of_string s) →
  Forall numeral_char (String.list_ascii_of_string (pretty_N_go x s)).
Proof.
  revert s. induction (N.lt_wf_0 x) as [x _ IH]; intros s Hs.
  assert (x = 0 ∨ 0 < x)%N as [->|Hx] by lia; [by rewrite pretty_N_go_0|].
  rewrite pretty_N_go_step by done. apply IH; [by apply N.div_lt|].
  cbn. constructor; [apply pretty_N_char_numeral|done].
Qed.

Lemma pretty_Z_numeral (n : Z) :
  Forall numeral_char (String.list_ascii_of_string (pretty n)).
Proof.
  assert (∀ p : positive, Forall numeral_char (String.list_ascii_of_string (pretty p))) as Hp.
  { intros p. unfold pretty, pretty_positive, pretty, pretty_N.
    destruct (decide _); [done|]. apply pretty_N_go_numeral. constructor. }
  destruct n as [|p|p]; unfold pretty, pretty_Z.
  - cbn. constructor; [right; by vm_compute|constructor].
  - apply Hp.
  - cbn. constructor; [by left|apply Hp].
Qed.

(** The numeral of an identifier holds no separator. *)
Lemma str_of_int_no_bar n : 124%N ∉ str_of_int n.
Proof.
  unfold str_of_int, str. intros (c & Hc & Hin)%list_elem_of_fmap.
  pose proof (pretty_Z_numeral n) as H. rewrite Forall_forall in H.
  destruct (H c Hin) as [->|Hd]; [done|]. rewrite <- Hc in Hd. lia.
Qed.

(** *** The three fields of a payload *)

Lemma split_go_field c a rest cur :
  c ∉ a → split_go [c] (a ++ c :: rest) 0 cur = (cur ++ a) :: split_go [c] rest 0 [].
Proof.
  revert cur. induction a as [|x a IH]; intros cur Ha; cbn [app split_go starts_with].
  - by rewrite N.eqb_refl, app_nil_r.
  - apply not_elem_of_cons in Ha as [Hx Ha]. rewrite andb_true_r.
    destruct (N.eqb_spec c x) as [->|_]; [done|].
    rewrite IH by done. by rewrite <- (assoc_L (++)).
Qed.

Lemma split_three a b c :
  124%N ∉ a → 124%N ∉ b → 124%N ∉ c →
  split (str "|") (a ++ str "|" ++ b ++ str "|" ++ c) = [a; b; c].
Proof.
  intros Ha Hb Hc. change (str "|") with [124%N]. unfold split. cbn [app].
  rewrite split_go_field by done. rewrite split_go_field by done.
  by rewrite split_go_no_sep.
Qed.

(** *** What a press may touch *)

Lemma others_untouched_refl user b : others_untouched user b b.
Proof. by repeat split. Qed.

Lemma others_untouched_trans user b1 b2 b3 :
  others_untouched user b1 b2 → others_untouched user b2 b3 → others_untouched user b1 b3.
Proof.
  intros (Ha & Hp & Ho) (Ha' & Hp' & Ho'). repeat split; try congruence.
  - destruct (Ho' u H), (Ho u H). congruence.
  - destruct (Ho' u H), (Ho u H). congruence.
Qed.

Section presses.
Context {A B : Type} (user : Z).

Lemma presses_ret (a : A) : presses user (mret a : M A).
Proof. intros b. apply others_untouched_refl. Qed.

Lemma presses_raise e : presses user (raise e : M A).
Proof. intros b. apply others_untouched_refl. Qed.

Lemma presses_bind (m : M A) (k : A → M B) :
  presses user m → (∀ a, presses user (k a)) → presses user (m ≫= k).
Proof.
  intros Hm Hk b. specialize (Hm b). unfold mbind, M_bind.
  destruct (m b) as [[e|a] b']; cbn [snd] in *; [done|].
  apply (others_untouched_trans user b b'); [done|apply Hk].
Qed.
End presses.

Lemma presses_get user : presses user get.
Proof. intros b. apply others_untouched_refl. Qed.

Lemma presses_emit user e : presses user (emit e).
Proof. intros b. by repeat split. Qed.

Lemma presses_set_state user v : presses user (set_conversation_state user v).
Proof.
  intros b. repeat split; try done. cbn. by rewrite lookup_alter_ne.
Qed.

Lemma presses_del_state user : presses user (del_user_state user).
Proof.
  intros b. repeat split; try done. cbn. by rewrite lookup_delete_ne.
Qed.

Lemma presses_start_download chat user info fmt : presses user (start_download chat user info fmt).
Proof.
  intros b. unfold start_download. rewrite run_bind_emit, run_modify. cbn [snd].
  repeat split; try done. cbn. by rewrite lookup_insert_ne.
Qed.

Ltac presses_step :=
  lazymatch goal with
  | |- presses _ (mbind _ _) => apply presses_bind; [|intros ?]
  | |- presses _ (mret _) => apply presses_ret
  | |- presses _ (raise _) => apply presses_raise
  | |- presses _ get => apply presses_get
  | |- presses _ (emit _) => apply presses_emit
  | |- presses _ (set_conversation_state _ _) => apply presses_set_state
  | |- presses _ (del_user_state _) => apply presses_del_state
  | |- presses _ (start_download _ _ _ _) => apply presses_start_download
  | |- presses _ (if ?c then _ else _) => destruct c
  | |- presses _ (match ?x with _ => _ end) => destruct x
  end.

Section callbacks.
Variable get_youtube_resolutions : pystr → list Z.

Lemma presses_callback_body chat user message_id_ data :
  presses user (callback_body get_youtube_resolutions chat user message_id_ data).
Proof.
  unfold callback_body, middle_of_three, send_audio_quality_choice, send_video_quality_choice.
  repeat presses_step.
Qed.

(** X13. Whatever the payload and whoever presses, a button press
    leaves the active downloads, the progress records and the
    conversations and tasks of every other user as they were; and when
    the presser has no conversation open, no conversation and no task
    is created or changed at all. *)
Theorem callback_touches_the_presser_only chat user message_id_ data b :
  let b' := handle_callback_query get_youtube_resolutions chat user message_id_ data b in
  others_untouched user b b'
  ∧ (user_state b !! user = None →
     user_state b' = user_state b ∧ user_tasks b' = user_tasks b).
Proof.
  intros b'. split.
  - pose proof (presses_callback_body chat user message_id_ data b) as H.
    unfold b', handle_callback_query.
    destruct (callback_body _ chat user message_id_ data b) as [[e|[]] b1]; cbn [snd] in H;
      [|done].
    apply (others_untouched_trans user b b1); [done|by repeat split].
  - intros Hnone. unfold b', handle_callback_query, callback_body.
    destruct (negb _); [done|]. rewrite run_bind_get, Hnone. done.
Qed.

Lemma callback_download_run chat user message_id_ kind fmt c b :
  kind ∈ [str "yt_audio"; str "yt_video"] → 124%N ∉ fmt →
  user_state b !! user = Some c →
  let data := kind ++ str "|" ++ fmt ++ str "|" ++ str_of_int user in
  let t := {| tk_chat_id := chat; tk_user_id := user; tk_url_info := cv_url_info c;
              tk_yt_format := Some fmt |} in
  let announcement :=
    if Py.eqb kind (str "yt_audio") then StartingAudioDownload fmt
    else StartingVideoDownload fmt in
  handle_callback_query get_youtube_resolutions chat user message_id_ data b
  = {| active_downloads := active_downloads b;
       download_progress := download_progress b;
       user_state := delete user (user_state b);
       user_tasks := <[user := t]> (user_tasks b);
       outbox := outbox b ++ [EditMessage chat message_id_ announcement; CreateTask t] |}.
Proof.
  intros Hkind Hfmt Hc data t announcement.
  assert (124%N ∉ kind) as Hk.
  { repeat (apply elem_of_cons in Hkind as [->|Hkind]); [by_compute..|].
    by apply elem_of_nil in Hkind. }
  assert (middle_of_three data = mret fmt) as Hmid.
  { unfold middle_of_three, data. by rewrite (split_three kind fmt) by apply str_of_int_no_bar || done. }
  unfold handle_callback_query, callback_body.
  assert (contains (str "|" ++ str_of_int user) data = true) as ->.
  { replace data with ((kind ++ str "|" ++ fmt) ++ (str "|" ++ str_of_int user) ++ [])
      by (unfold data; by rewrite app_nil_r, <- !(assoc_L (++))).
    apply contains_intro. }
  cbn [negb]. rewrite run_bind_get, Hc.
  repeat (apply elem_of_cons in Hkind as [->|Hkind]); [..|by apply elem_of_nil in Hkind].
  - replace (starts_with (str "yt_type|") data) with false by reflexivity.
    replace (starts_with (str "yt_audio|") data) with true by reflexivity.
    rewrite Hmid. unfold start_download, del_user_state.
    autorewrite with bot. unfold mbind, M_bind, emit, modify.
    cbn -[delete insert]. unfold with_user_state, with_user_tasks, with_outbox.
    cbn [active_downloads download_progress user_state user_tasks outbox].
    f_equal. by rewrite <- (assoc_L (++)).
  - replace (starts_with (str "yt_type|") data) with false by reflexivity.
    replace (starts_with (str "yt_audio|") data) with false by reflexivity.
    replace (starts_with (str "yt_video|") data) with true by reflexivity.
    rewrite Hmid. unfold start_download, del_user_state.
    autorewrite with bot. unfold mbind, M_bind, emit, modify.
    cbn -[delete insert]. unfold with_user_state, with_user_tasks, with_outbox.
    cbn [active_downloads download_progress user_state user_tasks outbox].
    f_equal. by rewrite <- (assoc_L (++)).
Qed.

Lemma callback_audio_run chat user message_id_ c b :
  user_state b !! user = Some c →
  handle_callback_query get_youtube_resolutions chat user message_id_
    (str "yt_type|mp3|" ++ str_of_int user) b
  = {| active_downloads := active_downloads b;
       download_progress := download_progress b;
       user_state := <[user := {| cv_url_info := cv_url_info c;
                                  cv_state := str "awaiting_audio_quality" |}]> (user_state b);
       user_tasks := user_tasks b;
       outbox := outbox b
                 ++ [EditMessage chat message_id_ AudioSelectedChooseQuality;
                     EditReplyMarkup chat message_id_
                       [str "yt_audio|mp3|" ++ str_of_int user;
                        str "yt_audio|flac|" ++ str_of_int user]] |}.
Proof.
  intros Hc. set (data := str "yt_type|mp3|" ++ str_of_int user).
  assert (middle_of_three data = mret (str "mp3")) as Hmid.
  { unfold middle_of_three, data.
    change (str "yt_type|mp3|") with (str "yt_type" ++ str "|" ++ str "mp3" ++ str "|").
    rewrite <- !(assoc_L (++)).
    by rewrite (split_three (str "yt_type") (str "mp3"))
      by (apply str_of_int_no_bar || by_compute). }
  unfold handle_callback_query, callback_body.
  assert (contains (str "|" ++ str_of_int user) data = true) as ->.
  { replace data with (str "yt_type|mp3" ++ (str "|" ++ str_of_int user) ++ [])
      by (unfold data; by rewrite app_nil_r, (assoc_L (++))).
    apply contains_intro. }
  cbn [negb]. rewrite run_bind_get, Hc.
  replace (starts_with (str "yt_type|") data) with true by reflexivity.
  rewrite Hmid. rewrite run_bind_ret.
  replace (Py.eqb (str "mp3") (str "mp3")) with true by reflexivity. cbv iota.
  unfold set_conversation_state, send_audio_quality_choice.
  rewrite run_bind_modify. unfold mbind, M_bind, emit, modify.
  cbn -[alter]. unfold with_user_state, with_outbox.
  cbn [active_downloads download_progress user_state user_tasks outbox].
  f_equal; [|by rewrite <- (assoc_L (++))].
  apply map_eq. intros u. destruct (decide (u = user)) as [->|Hu].
  - by rewrite lookup_alter_eq, lookup_insert_eq, Hc.
  - by rewrite lookup_alter_ne, lookup_insert_ne.
Qed.

(** X14. The button of the second question is read back as it was
    rendered: for a payload [yt_audio|FORMAT|USER] or
    [yt_video|FORMAT|USER] pressed by that user while a conversation of
    theirs is open, whatever step the conversation records, the
    message is edited to announce the download, a download of the
    conversation's link in that format is scheduled and registered as
    the user's task, and the conversation is removed. *)
Theorem callback_starts_the_chosen_download chat user message_id_ kind fmt c b :
  kind ∈ [str "yt_audio"; str "yt_video"] → 124%N ∉ fmt →
  user_state b !! user = Some c →
  let data := kind ++ str "|" ++ fmt ++ str "|" ++ str_of_int user in
  let t := {| tk_chat_id := chat; tk_user_id := user; tk_url_info := cv_url_info c;
              tk_yt_format := Some fmt |} in
  let announcement :=
    if Py.eqb kind (str "yt_audio") then StartingAudioDownload fmt
    else StartingVideoDownload fmt in
  handle_callback_query get_youtube_resolutions chat user message_id_ data b
  = {| active_downloads := active_downloads b;
       download_progress := download_progress b;
       user_state := delete user (user_state b);
       user_tasks := <[user := t]> (user_tasks b);
       outbox := outbox b ++ [EditMessage chat message_id_ announcement; CreateTask t] |}.
Proof. apply callback_download_run. Qed.
End callbacks.

Lemma callback_touches_the_presser_only_witness :
  let b := one_job 7 (initial_progress 1 2 (str "spotify") (str "1234")) in
  let b' := handle_callback_query (λ _, []) 1 8 3 (str "yt_audio|flac|8") b in
  user_state b' = user_state b ∧ user_tasks b' = user_tasks b.
Proof.
  intros b b'.
  apply (callback_touches_the_presser_only (λ _, []) 1 8 3 (str "yt_audio|flac|8") b).
  reflexivity.
Defined.

Lemma callback_starts_the_chosen_download_witness :
  let c := {| cv_url_info := Links.link_record (str "youtube") (str "video") (str "abc")
                               (str "https://youtu.be/abc");
              cv_state := str "awaiting_type" |} in
  let b := {| active_downloads := ∅; download_progress := ∅; user_state := {[ 8 := c ]};
              user_tasks := ∅; outbox := [] |} in
  let t := {| tk_chat_id := 1; tk_user_id := 8; tk_url_info := cv_url_info c;
              tk_yt_format := Some (str "flac") |} in
  handle_callback_query (λ _, []) 1 8 3
    (str "yt_audio" ++ str "|" ++ str "flac" ++ str "|" ++ str_of_int 8) b
  = {| active_downloads := ∅; download_progress := ∅;
       user_state := delete 8 (user_state b); user_tasks := <[8 := t]> ∅;
       outbox := [] ++ [EditMessage 1 3 (StartingAudioDownload (str "flac")); CreateTask t] |}.
Proof.
  intros c b t.
  apply (callback_starts_the_chosen_download (λ _, []) 1 8 3 (str "yt_audio") (str "flac") c b).
  - by repeat constructor.
  - by_compute.
  - reflexivity.
Defined.

End ButtonFacts.

(** ** The fallback: what it searches for and when it reports success *)

Module FallbackOutcomeFacts.
Import Bot Outcome MonadFacts StringFacts LinkFacts.

Section returns.
Context {A B : Type}.

Lemma returns_ret (P : A → Prop) (a : A) : P a → returns P (mret a : M A).
Proof. intros Ha b. by exists a. Qed.

Lemma returns_bind (P : A → Prop) (Q : B → Prop) (m : M A) (k : A → M B) :
  returns P m → (∀ a, P a → returns Q (k a)) → returns Q (m ≫= k).
Proof.
  intros Hm Hk b. destruct (Hm b) as (a & Ha & HP). unfold mbind, M_bind.
  destruct (m b) as [r b']. cbn [fst] in Ha. subst r. by apply Hk.
Qed.

Lemma returns_weaken (P Q : A → Prop) (m : M A) :
  (∀ a, P a → Q a) → returns P m → returns Q m.
Proof. intros HPQ Hm b. destruct (Hm b) as (a & Ha & HP). exists a. auto. Qed.
End returns.

Lemma returns_get : returns (λ _, True) get.
Proof. intros b. by exists b. Qed.

Lemma returns_emit e : returns (λ _, True) (emit e).
Proof. intros b. by exists (). Qed.

Lemma returns_update user f : returns (λ _, True) (update_progress user f).
Proof. intros b. by exists (). Qed.

Lemma returns_when c m : returns (λ _, True) m → returns (λ _, True) (when c m).
Proof. intros H. destruct c; [done|]. by apply returns_ret. Qed.

(** One step of a proof that a method raises nothing, following its
    shape. *)
Ltac returns_step :=
  lazymatch goal with
  | |- returns _ (mbind _ _) => eapply returns_bind; [|intros ? ?]
  | |- returns _ (mret _) => apply returns_ret
  | |- returns _ get => apply returns_get
  | |- returns _ (update_progress _ _) => apply returns_update
  | |- returns _ (emit _) => apply returns_emit
  | |- returns _ (when _ _) => apply returns_when
  | |- returns _ (if ?c then _ else _) => destruct c eqn:?
  | |- returns _ (match ?x with _ => _ end) => destruct x eqn:?
  end.

Ltac by_elem := repeat first [by left | right].

Lemma contains_prefix a b s : contains (a ++ b) s = true → contains a s = true.
Proof.
  intros (pre & suf & ->)%contains_inv. rewrite <- (assoc_L (++)). apply contains_intro.
Qed.

(** X15. What the first attempt of the fallback searches for when it is
    handed a bare Spotify link (one that starts with [http]): in
    playlist mode the fixed phrase [tamil songs 90s]; in single mode the
    fixed phrase [popular song 2024] for a track link, and the text of
    the link itself for any other link.  The link's own title is not
    looked up. *)
Theorem fallback_of_a_bare_spotify_link link dir :
  contains (str "spotify.com") link = true → starts_with (str "http") link = true →
  str "ytsearch1:tamil songs 90s" ∈ (first_command link dir true).1
  ∧ (contains (str "spotify.com/track") link = true →
     last (first_command link dir false).1 = Some (str "ytsearch1:popular song 2024"))
  ∧ (contains (str "spotify.com/track") link = false →
     last (first_command link dir false).1 = Some (str "ytsearch1:" ++ link)).
Proof.
  intros Hs Hh. unfold first_command. rewrite Hs, Hh. cbn [andb negb].
  split; [|split].
  - cbn [fst]. rewrite elem_of_app. left. do 13 right. left.
  - by intros ->.
  - by intros ->.
Qed.

Lemma fallback_of_a_bare_spotify_link_witness :
  last (first_command (str "https://open.spotify.com/track/abc") (str "/tmp/u") false).1
  = Some (str "ytsearch1:popular song 2024").
Proof.
  apply (fallback_of_a_bare_spotify_link (str "https://open.spotify.com/track/abc")
           (str "/tmp/u")); reflexivity.
Defined.

Section chain.
Variable U : unicodedata.
Variable W : world.
Variable user : Z.

Lemma returns_ytdlp_line line : returns (λ _, True) (ytdlp_line U user line).
Proof. unfold ytdlp_line. repeat (returns_step; try done). Qed.

Lemma returns_process_ytdlp_output lines :
  returns (λ _, True) (process_ytdlp_output U user lines).
Proof.
  induction lines as [|line rest IH]; cbn [process_ytdlp_output]; [by apply returns_ret|].
  returns_step; [apply returns_ytdlp_line|]. destruct a; [exact IH|by apply returns_ret].
Qed.

Lemma returns_run_ytdlp cmd timeout_seconds :
  returns (λ x, x.2 = W cmd) (run_ytdlp U W cmd timeout_seconds user).
Proof.
  unfold run_ytdlp. returns_step; [apply returns_emit|].
  returns_step; [apply returns_process_ytdlp_output|]. by apply returns_ret.
Qed.

Lemma returns_report_downloaded files : returns (λ ok, ok = true) (report_downloaded user files).
Proof. unfold report_downloaded. repeat (returns_step; try done). Qed.

Lemma returns_third_attempt t dir all_files :
  returns (λ o, match o with
                | inl ok => ok = true ∧ media_files (W (final_cmd t dir)) ≠ []
                | inr files => files = all_files ∨ files = media_files (W (final_cmd t dir))
                end)
    (third_attempt U W t dir user all_files).
Proof.
  unfold third_attempt. eapply returns_bind; [apply returns_run_ytdlp|].
  intros [timer_fired r] Hr. cbn in Hr. subst r.
  destruct timer_fired; [apply returns_ret; by left|].
  destruct (_ && _) eqn:Hc.
  - apply andb_prop in Hc as [_ Hfiles].
    eapply returns_bind; [apply returns_report_downloaded|]. intros ok ->.
    apply returns_ret. split; [done|]. by destruct (media_files _).
  - apply returns_ret. by right.
Qed.

Lemma returns_second_attempt t dir all_files :
  returns (λ o, match o with
                | inl ok =>
                    ok = true ∧ (media_files (W (simple_cmd t dir)) ≠ []
                                 ∨ media_files (W (final_cmd t dir)) ≠ [])
                | inr files =>
                    files = all_files ∨ files = media_files (W (simple_cmd t dir))
                    ∨ files = media_files (W (final_cmd t dir))
                end)
    (second_attempt U W t dir user all_files).
Proof.
  unfold second_attempt. eapply returns_bind; [apply returns_run_ytdlp|].
  intros [timer_fired r] Hr. cbn in Hr. subst r.
  destruct timer_fired; [apply returns_ret; by left|].
  destruct (_ && _) eqn:Hc.
  - apply andb_prop in Hc as [_ Hfiles].
    eapply returns_bind; [apply returns_report_downloaded|]. intros ok ->.
    apply returns_ret. split; [done|]. left. by destruct (media_files _).
  - eapply returns_weaken; [|apply returns_third_attempt].
    intros [ok|files]; [intros [? ?]; auto|intros [?|?]; auto].
Qed.

(** X16. The fallback raises no exception, and it reports success only
    when one of its attempts (the first command, the second under the
    alternate client identity, the third with the simplified search)
    left at least one audio file ([.mp3], [.flac] or [.m4a]) in the job
    directory. *)
Theorem fallback_reports_success_only_with_a_file t dir chat mode :
  returns (λ ok, ok = true →
                 ∃ cmd, cmd ∈ [(first_command t dir mode).1; simple_cmd t dir; final_cmd t dir]
                        ∧ media_files (W cmd) ≠ [])
    (fallback_download_with_ytdlp U W t dir user chat mode).
Proof.
  unfold fallback_download_with_ytdlp.
  destruct (first_command t dir mode) as [yt_cmd cookie_success]. cbn [fst].
  eapply returns_bind; [apply returns_emit|]. intros _ _.
  eapply returns_bind; [apply returns_get|]. intros b0 _.
  eapply returns_bind; [apply returns_when; repeat (returns_step; try done)|]. intros _ _.
  eapply returns_bind; [apply returns_run_ytdlp|].
  intros [timer_fired r] Hr. cbn in Hr. subst r.
  destruct timer_fired.
  { repeat (returns_step; try done). }
  assert (∀ files, files ≠ [] → files = media_files (W yt_cmd)
            ∨ files = media_files (W (simple_cmd t dir))
            ∨ files = media_files (W (final_cmd t dir)) →
          ∃ cmd, cmd ∈ [yt_cmd; simple_cmd t dir; final_cmd t dir]
                 ∧ media_files (W cmd) ≠ []) as Hfound.
  { intros files Hne [-> | [-> | ->]]; eexists; (split; [|exact Hne]); by_elem. }
  destruct (_ && _) eqn:Hc.
  - apply andb_prop in Hc as [_ Hfiles].
    eapply returns_weaken; [|apply returns_report_downloaded]. intros ok _ _.
    exists yt_cmd. split; [left|]. unfold media_files. rewrite (assoc_L (++)).
    destruct (glob_ext ".mp3" _ ++ glob_ext ".flac" _); [done|done].
  - eapply returns_bind.
    { instantiate (1 := λ o, match o with
                             | inl ok =>
                                 ok = true ∧ (media_files (W (simple_cmd t dir)) ≠ []
                                              ∨ media_files (W (final_cmd t dir)) ≠ [])
                             | inr files =>
                                 files = media_files (W yt_cmd)
                                 ∨ files = media_files (W (simple_cmd t dir))
                                 ∨ files = media_files (W (final_cmd t dir))
                             end).
      destruct (is_empty (media_files (W yt_cmd)) && cookie_success);
        [apply returns_second_attempt|by apply returns_ret; left]. }
    intros [ok|files] Ho.
    + apply returns_ret. intros _. destruct Ho as [_ [Hf|Hf]]; eauto.
    + eapply returns_bind; [apply returns_when, returns_emit|]. intros _ _.
      apply returns_ret. intros Hne. apply (Hfound files); [|done].
      by destruct files.
Qed.
End chain.

End FallbackOutcomeFacts.

(** ** The lines of the primary tool and the figures shown *)

Module ProgressLineFacts.
Import Bot MonadFacts.

Lemma int_of_digits_over_the_limit U s :
  int_max_str_digits < len s → int_of_digits U s = inl ValueError.
Proof.
  intros Hs. unfold int_of_digits. destruct s as [|c s]; [done|].
  by rewrite (proj2 (Z.ltb_lt _ _) Hs).
Qed.

Lemma int_of_digits_error U s e : int_of_digits U s = inl e → e = ValueError.
Proof.
  unfold int_of_digits. destruct s as [|c s]; [by intros [= <-]|].
  destruct (_ <? _); [by intros [= <-]|].
  destruct (digits_value U 0 (c :: s)); [done|by intros [= <-]].
Qed.

Lemma digits_value_defined U s acc :
  Forall (λ c, digit U c = true) s → is_Some (digits_value U acc s).
Proof.
  intros Hs. revert acc. induction Hs as [|c s Hc _ IH]; intros acc; cbn [digits_value]; [done|].
  unfold digit, is_digit in Hc. apply bool_decide_eq_true in Hc as [d ->]. apply IH.
Qed.

Lemma int_of_digits_defined U s :
  s ≠ [] → Forall (λ c, digit U c = true) s → len s ≤ int_max_str_digits →
  ∃ i, int_of_digits U s = inr i.
Proof.
  intros Hne Hs Hlen. unfold int_of_digits. destruct s as [|c s]; [done|].
  rewrite (proj2 (Z.ltb_ge _ _) Hlen).
  destruct (digits_value_defined U (c :: s) 0 Hs) as [i ->]. by exists i.
Qed.

(** X17. For every progress line [Downloading i of n: label] (two runs
    of ASCII digits and a non-empty one-line label): when the two runs
    have at most 4300 digits each, [int] reads them, and the parser
    stores [i] itself as the completed count, [n] as the total, the
    label, and the percentage [int((i / n) * 100)], or, when the
    percentage cannot be computed ([ZeroDivisionError] when [n] is
    zero), raises before any field is written; when one of the runs has
    more than 4300 digits, [int] raises [ValueError] and nothing is
    written. *)
Theorem progress_line_is_stored U user digits_i digits_n label b :
  ascii_digits U →
  digits_i ≠ [] → Forall (λ c, digit U c = true) digits_i →
  digits_n ≠ [] → Forall (λ c, digit U c = true) digits_n →
  label ≠ [] → Forall (λ c, Re.dot c = true) label →
  let line := str "Downloading " ++ digits_i ++ str " of " ++ digits_n ++ str ": " ++ label in
  (len digits_i ≤ int_max_str_digits → len digits_n ≤ int_max_str_digits →
   ∃ i n,
     int_of_digits U digits_i = inr i ∧ int_of_digits U digits_n = inr n
     ∧ (∀ pc, percent i n = inr pc →
          parse_progress U user line b
          = (inr (), with_progress
                       (alter (λ p, set_total_tracks n
                                      (set_completed_tracks i
                                         (set_current_track label (set_percentage pc p)))) user)
                       b))
     ∧ (∀ e, percent i n = inl e → parse_progress U user line b = (inl e, b))
     ∧ (n = 0 → parse_progress U user line b = (inl ZeroDivisionError, b)))
  ∧ (int_max_str_digits < len digits_i ∨ int_max_str_digits < len digits_n →
     parse_progress U user line b = (inl ValueError, b)).
Proof.
  intros HU Hi Hdi Hn Hdn Hl Hdl line. split.
  - intros Hli Hln.
    destruct (int_of_digits_defined U digits_i Hi Hdi Hli) as [i Hvi].
    destruct (int_of_digits_defined U digits_n Hn Hdn Hln) as [n Hvn].
    exists i, n. split; [done|]. split; [done|].
    pose proof (ProgressFacts.downloading_line_sets_completed_to_i U user digits_i digits_n
                  label i n b HU Hi Hdi Hvi Hn Hdn Hvn Hl Hdl) as H.
    fold line in H. split_and!.
    + intros pc Hpc. by rewrite Hpc in H.
    + intros e He. by rewrite He in H.
    + intros ->. by rewrite H.
  - intros Hover. unfold parse_progress, line.
    rewrite (PatternFacts.search_downloading U HU) by done.
    change (Re.group [digits_i; digits_n; label] 1) with digits_i.
    change (Re.group [digits_i; digits_n; label] 2) with digits_n.
    rewrite run_bind_lift.
    destruct (int_of_digits U digits_i) as [e|i] eqn:Hvi.
    { by rewrite (int_of_digits_error U digits_i e Hvi). }
    destruct Hover as [Hover|Hover].
    + by rewrite (int_of_digits_over_the_limit U digits_i Hover) in Hvi.
    + by rewrite run_bind_lift, (int_of_digits_over_the_limit U digits_n Hover).
Qed.

Lemma progress_line_is_stored_witness :
  let b := one_job 7 (initial_progress 1 2 (str "spotify") (str "1234")) in
  let line :=
    str "Downloading " ++ str "3" ++ str " of " ++ str "0" ++ str ": " ++ str "Song A" in
  ∃ i n,
    int_of_digits excerpt (str "3") = inr i ∧ int_of_digits excerpt (str "0") = inr n
    ∧ (∀ pc, percent i n = inr pc →
         parse_progress excerpt 7 line b
         = (inr (), with_progress
                      (alter (λ p, set_total_tracks n
                                     (set_completed_tracks i
                                        (set_current_track (str "Song A")
                                           (set_percentage pc p)))) 7)
                      b))
    ∧ (∀ e, percent i n = inl e → parse_progress excerpt 7 line b = (inl e, b))
    ∧ (n = 0 → parse_progress excerpt 7 line b = (inl ZeroDivisionError, b)).
Proof.
  intros b line.
  apply (progress_line_is_stored excerpt 7 (str "3") (str "0") (str "Song A") b).
  - apply ProgressFacts.excerpt_ascii_digits.
  - discriminate.
  - repeat constructor.
  - discriminate.
  - repeat constructor.
  - discriminate.
  - repeat constructor.
  - vm_compute. discriminate.
  - vm_compute. discriminate.
Defined.

(** X18. On a completion line (a line that the pattern [Downloaded] with
    a quoted title matches and the progress pattern does not), a record
    within its bounds stays within its bounds: the completed count is
    raised by one only below the total, and the percentage stored is
    between 0 and 100. *)
Theorem completion_line_keeps_the_bounds U user line gs b p :
  Re.search (downloading_pattern U) line = None →
  Re.search downloaded_pattern line = Some gs →
  download_progress b !! user = Some p →
  within_bounds p → 0 ≤ completed_tracks p →
  ∃ p', download_progress (parse_progress U user line b).2 !! user = Some p'
        ∧ within_bounds p' ∧ 0 ≤ completed_tracks p'
        ∧ total_tracks p' = total_tracks p
        ∧ completed_tracks p' = Z.min (completed_tracks p + 1) (total_tracks p).
Proof.
  intros Hnone Hsome Hp [Hpc Hct] Hc0.
  destruct (ProgressFacts.downloaded_line_keeps_bounds U user line gs b p
              Hnone Hsome Hp (conj Hpc Hct) Hc0) as (p' & Hp' & Hb & Hc).
  exists p'. split; [done|]. split; [done|]. split; [done|].
  revert Hp'. unfold parse_progress. rewrite Hnone, Hsome.
  rewrite run_bind_update, run_bind_get. autorewrite with bot.
  rewrite lookup_alter_eq, Hp. cbn [fmap option_fmap option_map].
  rewrite run_bind_lift. destruct (percent _ _) as [e|pc].
  - cbn [snd]. autorewrite with bot. rewrite lookup_alter_eq, Hp. cbn. intros [= <-].
    destruct (Z.ltb_spec (completed_tracks p) (total_tracks p)); cbn; lia.
  - rewrite run_update. cbn [snd]. autorewrite with bot.
    rewrite !lookup_alter_eq, Hp. cbn. intros [= <-].
    destruct (Z.ltb_spec (completed_tracks p) (total_tracks p)); cbn; lia.
Qed.

Lemma completion_line_keeps_the_bounds_witness :
  let p := set_completed_tracks 4 (set_total_tracks 5
             (initial_progress 1 2 (str "spotify") (str "1234"))) in
  let line := str "Downloaded " ++ quoted (str "Song A") ++ str ":" in
  ∃ p', download_progress (parse_progress excerpt 7 line (one_job 7 p)).2 !! 7 = Some p'
        ∧ within_bounds p' ∧ 0 ≤ completed_tracks p'
        ∧ total_tracks p' = total_tracks p
        ∧ completed_tracks p' = Z.min (completed_tracks p + 1) (total_tracks p).
Proof.
  intros p line.
  apply (completion_line_keeps_the_bounds excerpt 7 line [str "Song A"] (one_job 7 p) p).
  - vm_compute. reflexivity.
  - vm_compute. reflexivity.
  - reflexivity.
  - vm_compute. intuition discriminate.
  - vm_compute. discriminate.
Defined.

(** X19. Whatever the record holds, the progress message shows a
    completed count that does not exceed the total it shows, a total of
    at least one, and, when the recorded count is not negative, a bar of
    between 0 and 20 filled cells. *)
Theorem shown_figures_are_clamped p :
  0 ≤ completed_tracks p →
  let '(completed, total, filled) := shown_progress p in
  0 ≤ completed ≤ total ∧ 1 ≤ total ∧ 0 ≤ filled ≤ 20.
Proof.
  intros Hc. pose proof (ProgressFacts.shown_progress_clamped p) as H.
  destruct (shown_progress p) as [[completed total] filled].
  destruct H as (H1 & H2 & H3). specialize (H3 Hc). lia.
Qed.

Lemma shown_figures_are_clamped_witness :
  let '(completed, total, filled) :=
    shown_progress (set_completed_tracks 2 (initial_progress 1 2 (str "spotify") (str "1234"))) in
  0 ≤ completed ≤ total ∧ 1 ≤ total ∧ 0 ≤ filled ≤ 20.
Proof.
  apply (shown_figures_are_clamped
           (set_completed_tracks 2 (initial_progress 1 2 (str "spotify") (str "1234")))).
  vm_compute. discriminate.
Defined.

End ProgressLineFacts.

(** ** The first step of the conversation: [handle_message] *)

Module MessageFacts.
Import Bot Links Session Conversation MonadFacts StringFacts LinkFacts ButtonFacts.

Section equations.
Context {A B : Type}.

Lemma session_bind_ret (a : A) (k : A → S B) s : (mret a ≫= k) s = k a s.
Proof. reflexivity. Qed.


Lemma session_bind_say c (k : () → S B) s :
  (say c ≫= k) s = k () {| core := core s; calls := calls s ++ [c] |}.
Proof. reflexivity. Qed.

Lemma session_bind_look (k : bot → S B) s : (look ≫= k) s = k (core s) s.
Proof. reflexivity. Qed.

Lemma session_bind_change f (k : () → S B) s :
  outbox (f (core s)) = outbox (core s) →
  (change f ≫= k) s = k () {| core := f (core s); calls := calls s |}.
Proof.
  intros Ho. unfold change, run_core, mbind, S_bind. cbn.
  by rewrite Ho, drop_all, app_nil_r.
Qed.
End equations.

Lemma session_say c s : say c s = (inr (), {| core := core s; calls := calls s ++ [c] |}).
Proof. reflexivity. Qed.

Lemma session_change f s :
  outbox (f (core s)) = outbox (core s) →
  change f s = (inr (), {| core := f (core s); calls := calls s |}).
Proof.
  intros Ho. unfold change, run_core. cbn. by rewrite Ho, drop_all, app_nil_r.
Qed.

Lemma session_emit e s :
  run_core (emit e) s
  = (inr (), {| core := with_outbox (λ o, o ++ [e]) (core s); calls := calls s ++ [Core e] |}).
Proof.
  unfold run_core. cbn. by rewrite drop_app_length.
Qed.

Lemma discard_frees (user : Z) (a : gset Z) : user ∉ a ∖ {[user]}.
Proof. intros [_ H]%elem_of_difference. by apply H, elem_of_singleton. Qed.

Lemma discard_others (user u : Z) (a : gset Z) : u ≠ user → u ∈ a ∖ {[user]} ↔ u ∈ a.
Proof. intros Hu. rewrite elem_of_difference, elem_of_singleton. tauto. Qed.

Lemma stop_run chat user s :
  stop chat user s
  = (inr (),
     {| core := with_user_tasks (delete user)
                  (with_user_state (delete user)
                     (with_progress (delete user)
                        (with_active (λ a, a ∖ {[user]}) (core s))));
        calls := calls s
                 ++ match user_tasks (core s) !! user with
                    | Some t => [CancelTask t]
                    | None => []
                    end
                 ++ [Send chat AllTasksStopped] |}).
Proof.
  unfold stop. do 3 (rewrite session_bind_change by done; cbv beta).
  rewrite session_bind_look.
  cbn [core with_user_state with_progress with_active user_tasks].
  destruct (user_tasks (core s) !! user) as [t|] eqn:Ht.
  - unfold mbind, S_bind. rewrite session_change by done. cbv beta iota.
    rewrite session_say. cbv beta iota. rewrite session_say. cbn [core calls].
    by rewrite <- (assoc_L (++)).
  - unfold mbind, S_bind, mret, S_ret, say. cbn. do 2 f_equal.
    unfold with_user_tasks, with_user_state, with_progress, with_active. cbn.
    f_equal. symmetry. by apply delete_id.
Qed.

Lemma extract_youtube_record text info :
  extract_youtube_url_info text = inr (Some info) →
  ∃ type_ id_, info = link_record (str "youtube") type_ id_ text.
Proof.
  unfold extract_youtube_url_info. destruct (Re.search youtube_pattern text); [|done].
  destruct (contains _ text).
  - destruct (Re.search list_id_pattern text); [|done]. intros [= <-]. eauto.
  - intros [= <-]. eauto.
Qed.

Lemma last_two {A} (l : list A) x y : last (l ++ [x; y]) = Some y.
Proof. change [x; y] with ([x] ++ [y]). by rewrite (assoc_L (++)), last_snoc. Qed.

Lemma only_sender_refl user b : only_sender user b b.
Proof. by intros u Hu. Qed.

Section messages.
Variable youtube_api : pystr → pystr → option (gmap string pystr).

Lemma spotify_link_run chat user raw info s :
  extract_spotify_url_info (strip raw) = Some info →
  let t := {| tk_chat_id := chat; tk_user_id := user; tk_url_info := info;
              tk_yt_format := None |} in
  message_body youtube_api chat user (Some raw) s
  = (inr (),
     {| core := with_user_tasks (insert user t)
                  (with_outbox (λ o, o ++ [CreateTask t]) (core s));
        calls := calls s ++ [Send chat SpotifyLinkDetected; Core (CreateTask t)] |}).
Proof.
  intros Hinfo t. unfold message_body. cbv zeta.
  destruct (Py.eqb (strip raw) (str "/start")) eqn:H1.
  { apply bool_decide_eq_true_1 in H1. by rewrite H1 in Hinfo. }
  destruct (Py.eqb (strip raw) (str "/stop")) eqn:H2.
  { apply bool_decide_eq_true_1 in H2. by rewrite H2 in Hinfo. }
  rewrite Hinfo, session_bind_say. unfold mbind, S_bind. rewrite session_emit.
  rewrite session_change by done. cbn. by rewrite <- (assoc_L (++)).
Qed.

Lemma youtube_link_run chat user raw type_ id_ s :
  extract_spotify_url_info (strip raw) = None →
  extract_youtube_url_info (strip raw)
  = inr (Some (link_record (str "youtube") type_ id_ (strip raw))) →
  message_body youtube_api chat user (Some raw) s
  = (inr (),
     {| core := with_user_state
                  (insert user
                     {| cv_url_info := link_record (str "youtube") type_ id_ (strip raw);
                        cv_state := str "awaiting_type" |}) (core s);
        calls := calls s ++ details youtube_api chat type_ id_
                 ++ [SendKeyboard chat YouTubeLinkDetected
                       [[str "yt_type|mp3|" ++ str_of_int user;
                         str "yt_type|mp4|" ++ str_of_int user]]] |}).
Proof.
  intros Hsp Hyt. unfold message_body. cbv zeta.
  destruct (Py.eqb (strip raw) (str "/start")) eqn:H1.
  { apply bool_decide_eq_true_1 in H1. by rewrite H1 in Hyt. }
  destruct (Py.eqb (strip raw) (str "/stop")) eqn:H2.
  { apply bool_decide_eq_true_1 in H2. by rewrite H2 in Hyt. }
  rewrite Hsp, Hyt. unfold item, details.
  replace (link_record (str "youtube") type_ id_ (strip raw) !! "type") with (Some type_)
    by reflexivity.
  replace (link_record (str "youtube") type_ id_ (strip raw) !! "id") with (Some id_)
    by reflexivity.
  rewrite session_bind_ret.
  destruct (Py.eqb type_ (str "video") || Py.eqb type_ (str "playlist"));
    unfold mbind, S_bind, mret, S_ret, send_media_type_choice; cbv beta iota;
    [destruct (youtube_api type_ id_)|];
    rewrite ?session_say; cbv beta iota; (rewrite session_change by done);
    cbv beta iota; rewrite session_say; cbn [core calls app];
    by rewrite <- ?(assoc_L (++)), ?app_nil_r.
Qed.

(** X20. The [/stop] command frees its sender: afterwards the sender is
    not among the active downloads and has no progress record, no
    conversation and no task (a task they had is cancelled); the
    entries of every other user are as they were; and the only reply
    is the confirmation. *)
Theorem stop_frees_its_sender chat user raw s :
  strip raw = str "/stop" →
  let s' := handle_message youtube_api chat user (Some raw) s in
  ((user ∉ active_downloads (core s')) ∧ download_progress (core s') !! user = None
   ∧ user_state (core s') !! user = None ∧ user_tasks (core s') !! user = None)
  ∧ only_sender user (core s) (core s')
  ∧ calls s' = calls s
               ++ match user_tasks (core s) !! user with
                  | Some t => [CancelTask t]
                  | None => []
                  end
               ++ [Send chat AllTasksStopped].
Proof.
  intros Hstop s'. unfold s', handle_message, message_body. cbv zeta. rewrite Hstop.
  replace (Py.eqb (str "/stop") (str "/start")) with false by reflexivity.
  replace (Py.eqb (str "/stop") (str "/stop")) with true by reflexivity.
  cbv iota. rewrite stop_run. cbn. split; [|split; [|done]].
  - rewrite !lookup_delete_eq. split; [apply discard_frees|done].
  - intros u Hu. cbn. rewrite !lookup_delete_ne by done.
    split; [by apply discard_others|done].
Qed.

(** X21. Whatever the message, [handle_message] changes nothing for
    any user but its sender; and unless the text is [/stop], it leaves
    the set of active downloads and the progress records as they
    were. *)
Theorem handle_message_touches_its_sender_only chat user text s :
  let s' := handle_message youtube_api chat user text s in
  only_sender user (core s) (core s')
  ∧ ((∀ raw, text = Some raw → strip raw ≠ str "/stop") →
     active_downloads (core s') = active_downloads (core s)
     ∧ download_progress (core s') = download_progress (core s)).
Proof.
  intros s'. unfold s', handle_message.
  destruct text as [raw|]; [|split; [apply only_sender_refl|done]].
  destruct (decide (strip raw = str "/stop")) as [Hstop|Hstop].
  { split; [|intros H; by destruct (H raw eq_refl)].
    unfold message_body. cbv zeta. rewrite Hstop.
    replace (Py.eqb (str "/stop") (str "/start")) with false by reflexivity.
    replace (Py.eqb (str "/stop") (str "/stop")) with true by reflexivity.
    cbv iota. rewrite stop_run. intros u Hu. cbn. rewrite !lookup_delete_ne by done.
    split; [by apply discard_others|done]. }
  assert (Py.eqb (strip raw) (str "/stop") = false) as Hnot_stop
    by (by apply bool_decide_eq_false_2).
  destruct (extract_spotify_url_info (strip raw)) as [spotify_info|] eqn:Hsp.
  { rewrite (spotify_link_run chat user raw spotify_info s Hsp). cbn. split; [|done].
    intros u Hu. cbn. by rewrite lookup_insert_ne. }
  destruct (extract_youtube_url_info (strip raw)) as [e|[youtube_info|]] eqn:Hyt.
  - unfold message_body. cbv zeta. rewrite Hsp, Hyt, Hnot_stop.
    destruct (Py.eqb (strip raw) (str "/start")); cbn;
      split; (apply only_sender_refl || done).
  - destruct (extract_youtube_record _ _ Hyt) as (type_ & id_ & ->).
    rewrite (youtube_link_run chat user raw type_ id_ s Hsp Hyt). cbn. split; [|done].
    intros u Hu. cbn. by rewrite lookup_insert_ne.
  - unfold message_body. cbv zeta. rewrite Hsp, Hyt, Hnot_stop.
    destruct (Py.eqb (strip raw) (str "/start")); cbn;
      split; (apply only_sender_refl || done).
Qed.

(** X22. A text with a Spotify link starts a download at once,
    whatever else it holds and whatever the state of its sender: the
    link is acknowledged, a download of the link record (type,
    identifier and the whole text as url, no format) is scheduled and
    registered as the sender's task in place of any task registered
    before, and nothing else changes. *)
Theorem spotify_link_schedules_a_download chat user raw info s :
  extract_spotify_url_info (strip raw) = Some info →
  let t := {| tk_chat_id := chat; tk_user_id := user; tk_url_info := info;
              tk_yt_format := None |} in
  handle_message youtube_api chat user (Some raw) s
  = {| core := with_user_tasks (insert user t)
                 (with_outbox (λ o, o ++ [CreateTask t]) (core s));
       calls := calls s ++ [Send chat SpotifyLinkDetected; Core (CreateTask t)] |}.
Proof.
  intros Hinfo t. unfold handle_message. by rewrite (spotify_link_run chat user raw info s).
Qed.

(** X23. When [extract_youtube_url_info] raises on the text of a
    message that holds no Spotify link, the message is dropped: no
    reply is sent and nothing changes. *)
Theorem failed_extraction_gets_no_reply chat user raw e s :
  extract_spotify_url_info (strip raw) = None →
  extract_youtube_url_info (strip raw) = inl e →
  handle_message youtube_api chat user (Some raw) s = s.
Proof.
  intros Hsp Hyt. unfold handle_message, message_body. cbv zeta.
  destruct (Py.eqb (strip raw) (str "/start")) eqn:H1.
  { apply bool_decide_eq_true_1 in H1. by rewrite H1 in Hyt. }
  destruct (Py.eqb (strip raw) (str "/stop")) eqn:H2.
  { apply bool_decide_eq_true_1 in H2. by rewrite H2 in Hyt. }
  by rewrite Hsp, Hyt.
Qed.

Variable get_youtube_resolutions : pystr → list Z.

(** X24. The dialogue for a YouTube link holds together: the buttons
    rendered at each step carry the payloads that the next step
    accepts.  After a message with a YouTube link (and no Spotify
    link), the question asked carries [yt_type|mp3|USER] and
    [yt_type|mp4|USER]; pressing the first renders [yt_audio|mp3|USER]
    and [yt_audio|flac|USER]; pressing either of these schedules the
    download of the link in that format as the sender's task and
    closes the conversation. *)
Theorem youtube_dialogue_ends_in_a_download chat user raw type_ id_ message_id_ fmt s :
  extract_spotify_url_info (strip raw) = None →
  extract_youtube_url_info (strip raw)
  = inr (Some (link_record (str "youtube") type_ id_ (strip raw))) →
  fmt ∈ [str "mp3"; str "flac"] →
  let info := link_record (str "youtube") type_ id_ (strip raw) in
  let uid := str_of_int user in
  let t := {| tk_chat_id := chat; tk_user_id := user; tk_url_info := info;
              tk_yt_format := Some fmt |} in
  let s1 := handle_message youtube_api chat user (Some raw) s in
  let b2 := handle_callback_query get_youtube_resolutions chat user message_id_
              (str "yt_type|mp3|" ++ uid) (core s1) in
  let b3 := handle_callback_query get_youtube_resolutions chat user message_id_
              (str "yt_audio|" ++ fmt ++ str "|" ++ uid) b2 in
  last (calls s1)
  = Some (SendKeyboard chat YouTubeLinkDetected
            [[str "yt_type|mp3|" ++ uid; str "yt_type|mp4|" ++ uid]])
  ∧ last (outbox b2)
    = Some (EditReplyMarkup chat message_id_
              [str "yt_audio|mp3|" ++ uid; str "yt_audio|flac|" ++ uid])
  ∧ user_state b3 !! user = None
  ∧ user_tasks b3 !! user = Some t
  ∧ last (outbox b3) = Some (CreateTask t).
Proof.
  intros Hsp Hyt Hfmt info uid t s1 b2 b3.
  assert (s1 = {| core := with_user_state
                            (insert user {| cv_url_info := info;
                                            cv_state := str "awaiting_type" |}) (core s);
                  calls := calls s ++ details youtube_api chat type_ id_
                           ++ [SendKeyboard chat YouTubeLinkDetected
                                 [[str "yt_type|mp3|" ++ uid; str "yt_type|mp4|" ++ uid]]] |})
    as Hs1.
  { unfold s1, handle_message. by rewrite (youtube_link_run chat user raw type_ id_ s). }
  assert (user_state (core s1) !! user
          = Some {| cv_url_info := info; cv_state := str "awaiting_type" |}) as Hc1.
  { rewrite Hs1. cbn. by rewrite lookup_insert_eq. }
  pose proof (callback_audio_run get_youtube_resolutions chat user message_id_ _ (core s1) Hc1)
    as Hb2.
  fold uid in Hb2. fold b2 in Hb2. cbn [cv_url_info] in Hb2.
  assert (user_state b2 !! user
          = Some {| cv_url_info := info; cv_state := str "awaiting_audio_quality" |}) as Hc2.
  { rewrite Hb2. cbn. by rewrite lookup_insert_eq. }
  assert (124%N ∉ fmt) as Hbar.
  { repeat (apply elem_of_cons in Hfmt as [->|Hfmt]); [by_compute..|].
    by apply elem_of_nil in Hfmt. }
  pose proof (callback_download_run get_youtube_resolutions chat user message_id_
                (str "yt_audio") fmt _ b2 ltac:(by left) Hbar Hc2) as Hb3.
  cbv zeta in Hb3. fold uid in Hb3.
  change (str "yt_audio" ++ str "|" ++ fmt ++ str "|" ++ uid)
    with (str "yt_audio|" ++ fmt ++ str "|" ++ uid) in Hb3.
  fold b3 in Hb3. cbn [cv_url_info] in Hb3. fold t in Hb3.
  split_and!.
  - rewrite Hs1. cbn [calls]. by rewrite !(assoc_L (++)), last_snoc.
  - rewrite Hb2. cbn [outbox]. apply last_two.
  - rewrite Hb3. cbn. by rewrite lookup_delete_eq.
  - rewrite Hb3. cbn. by rewrite lookup_insert_eq.
  - rewrite Hb3. cbn [outbox]. apply last_two.
Qed.
End messages.

Lemma stop_frees_its_sender_witness :
  let s := {| core := one_job 7 (initial_progress 1 2 (str "spotify") (str "1234"));
              calls := [] |} in
  calls (handle_message (λ _ _, None) 1 7 (Some (str " /stop ")) s)
  = calls s
    ++ match user_tasks (core s) !! 7 with Some t => [CancelTask t] | None => [] end
    ++ [Send 1 AllTasksStopped].
Proof.
  intros s. apply (stop_frees_its_sender (λ _ _, None) 1 7 (str " /stop ") s).
  reflexivity.
Defined.

Lemma handle_message_touches_its_sender_only_witness :
  let s := {| core := one_job 8 (initial_progress 1 2 (str "spotify") (str "1234"));
              calls := [] |} in
  let s' := handle_message (λ _ _, None) 1 7 (Some (str "hello")) s in
  active_downloads (core s') = active_downloads (core s)
  ∧ download_progress (core s') = download_progress (core s).
Proof.
  intros s s'.
  destruct (handle_message_touches_its_sender_only (λ _ _, None) 1 7 (Some (str "hello")) s)
    as [_ Hsame].
  apply Hsame. intros raw [= <-]. vm_compute. discriminate.
Defined.

Lemma spotify_link_schedules_a_download_witness :
  let s := {| core := one_job 7 (initial_progress 1 2 (str "spotify") (str "1234"));
              calls := [] |} in
  let text := str "https://open.spotify.com/track/abc and https://youtu.be/xyz" in
  let t := {| tk_chat_id := 1; tk_user_id := 7;
              tk_url_info := link_record (str "spotify") (str "track") (str "abc") text;
              tk_yt_format := None |} in
  handle_message (λ _ _, None) 1 7 (Some text) s
  = {| core := with_user_tasks (insert 7 t) (with_outbox (λ o, o ++ [CreateTask t]) (core s));
       calls := calls s ++ [Send 1 SpotifyLinkDetected; Core (CreateTask t)] |}.
Proof.
  intros s text t.
  apply (spotify_link_schedules_a_download (λ _ _, None) 1 7 text _ s).
  vm_compute. reflexivity.
Defined.

Lemma failed_extraction_gets_no_reply_witness :
  let s := {| core := one_job 7 (initial_progress 1 2 (str "spotify") (str "1234"));
              calls := [] |} in
  handle_message (λ _ _, None) 1 8 (Some (str "https://www.youtube.com/playlist?list=")) s = s.
Proof.
  intros s.
  apply (failed_extraction_gets_no_reply (λ _ _, None) 1 8
           (str "https://www.youtube.com/playlist?list=") AttributeError s).
  - vm_compute. reflexivity.
  - vm_compute. reflexivity.
Defined.

Lemma youtube_dialogue_ends_in_a_download_witness :
  let raw := str "https://youtu.be/abc" in
  let info := link_record (str "youtube") (str "video") (str "abc") raw in
  let t := {| tk_chat_id := 1; tk_user_id := 7; tk_url_info := info;
              tk_yt_format := Some (str "flac") |} in
  let s := {| core := {| active_downloads := ∅; download_progress := ∅; user_state := ∅;
                         user_tasks := ∅; outbox := [] |};
              calls := [] |} in
  let s1 := handle_message (λ _ _, None) 1 7 (Some raw) s in
  let b2 := handle_callback_query (λ _, []) 1 7 3 (str "yt_type|mp3|" ++ str_of_int 7) (core s1) in
  let b3 := handle_callback_query (λ _, []) 1 7 3
              (str "yt_audio|" ++ str "flac" ++ str "|" ++ str_of_int 7) b2 in
  user_state b3 !! 7 = None ∧ user_tasks b3 !! 7 = Some t ∧ last (outbox b3) = Some (CreateTask t).
Proof.
  intros raw info t s s1 b2 b3.
  apply (youtube_dialogue_ends_in_a_download (λ _ _, None) (λ _, []) 1 7 raw
           (str "video") (str "abc") 3 (str "flac") s).
  - vm_compute. reflexivity.
  - vm_compute. reflexivity.
  - by repeat constructor.
Defined.

End MessageFacts.

(** ** The primary tool's run: [run_spotdl_command] *)

Module SpotdlFacts.
Import Bot Trace Session MonadFacts ParserFacts MessageFacts.

Lemma core_events_app cs cs' : core_events (cs ++ cs') = core_events cs ++ core_events cs'.
Proof. unfold core_events. apply omap_app. Qed.

Lemma core_events_core evs : core_events (Core <$> evs) = evs.
Proof. unfold core_events. induction evs as [|e evs IH]; [done|]. cbn. by f_equal. Qed.

(** A method of [Bot] that only adds calls adds the same calls, in the
    same order, when it is run from here. *)
Lemma run_core_appends {A} (m : M A) s evs :
  outbox (m (core s)).2 = outbox (core s) ++ evs →
  run_core m s
  = (match (m (core s)).1 with inl e => inl (Raised e) | inr a => inr a end,
     {| core := (m (core s)).2; calls := calls s ++ (Core <$> evs) |}).
Proof.
  intros Ho. unfold run_core. destruct (m (core s)) as [r b']. cbn [fst snd] in *.
  by rewrite Ho, drop_app_length.
Qed.

Section fallbacks_at_most.
Context {A B : Type}.

Lemma few_ret (a : A) : fallbacks_at_most 0 (mret a : S A).
Proof. intros s. exists []. by rewrite app_nil_r. Qed.

Lemma few_fail e : fallbacks_at_most 0 (fail e : S A).
Proof. intros s. exists []. by rewrite app_nil_r. Qed.

Lemma few_bind n1 n2 (m : S A) (k : A → S B) :
  fallbacks_at_most n1 m → (∀ a, fallbacks_at_most n2 (k a)) →
  fallbacks_at_most (n1 + n2) (m ≫= k).
Proof.
  intros Hm Hk s. destruct (Hm s) as (cs & Hc & Hn).
  unfold mbind, S_bind. destruct (m s) as [[e|a] s']; cbn [snd] in *.
  - exists cs. split; [done|lia].
  - destruct (Hk a s') as (cs' & Hc' & Hn'). exists (cs ++ cs').
    rewrite Hc', Hc, core_events_app, fallback_starts_app, (assoc_L (++)). split; [done|lia].
Qed.

Lemma few_weaken n n' (m : S A) :
  (n ≤ n')%nat → fallbacks_at_most n m → fallbacks_at_most n' m.
Proof. intros Hn Hm s. destruct (Hm s) as (cs & Hc & Hk). exists cs. split; [done|lia]. Qed.

Lemma few_run_core n (m : M A) : starts_at_most n m → fallbacks_at_most n (run_core m).
Proof.
  intros Hm s. destruct (Hm (core s)) as (evs & Ho & Hn).
  exists (Core <$> evs). rewrite (run_core_appends m s evs Ho). cbn [snd calls].
  by rewrite core_events_core.
Qed.

Lemma few_try_except n n' (m handler : S A) :
  fallbacks_at_most n m → fallbacks_at_most n' handler →
  fallbacks_at_most (n + n') (try_except m handler).
Proof.
  intros Hm Hh s. destruct (Hm s) as (cs & Hc & Hn). unfold try_except.
  destruct (m s) as [[e|a] s']; cbn [snd] in *.
  - destruct (Hh s') as (cs' & Hc' & Hn'). exists (cs ++ cs').
    rewrite Hc', Hc, core_events_app, fallback_starts_app, (assoc_L (++)). split; [done|lia].
  - exists cs. split; [done|lia].
Qed.
End fallbacks_at_most.

Lemma few_say c :
  (∀ cmd, c ≠ Core (LogRunningFallback cmd)) → fallbacks_at_most 0 (say c).
Proof.
  intros Hc s. exists [c]. split; [done|].
  destruct c as [[]| | | | | | | |]; try done. by destruct (Hc cmd).
Qed.

Lemma few_look : fallbacks_at_most 0 look.
Proof. intros s. exists []. by rewrite app_nil_r. Qed.

Lemma few_provided n c m : fallbacks_at_most n m → fallbacks_at_most n (provided c m).
Proof.
  intros H. destruct c; [done|]. apply (few_weaken 0); [lia|apply few_ret].
Qed.

(** One step of a proof that a method starts no fallback. *)
Ltac few_step :=
  lazymatch goal with
  | |- fallbacks_at_most 0 (mbind _ _) => apply (few_bind 0 0); [|intros ?]
  | |- fallbacks_at_most 0 (mret _) => apply few_ret
  | |- fallbacks_at_most 0 (fail _) => apply few_fail
  | |- fallbacks_at_most 0 look => apply few_look
  | |- fallbacks_at_most 0 (say _) => apply few_say; intros ?; discriminate
  | |- fallbacks_at_most 0 (provided _ _) => apply few_provided
  | |- fallbacks_at_most 0 (run_core (emit _)) =>
      apply few_run_core, quiet_emit; reflexivity
  | |- fallbacks_at_most 0 (run_core (update_progress _ _)) =>
      apply few_run_core, quiet_update
  | |- fallbacks_at_most 0 (if ?c then _ else _) => destruct c
  | |- fallbacks_at_most 0 (match ?x with _ => _ end) => destruct x
  end.

Section run.
Variable U : unicodedata.
Variable W : world.
Variable ffmpeg_path : option pystr.
Variable kill_ok : bool.

Lemma few_epilogue user r failed : fallbacks_at_most 0 (spotdl_epilogue user r failed).
Proof. unfold spotdl_epilogue. repeat few_step. Qed.

Lemma few_fallback t dir user chat mode :
  fallbacks_at_most 1 (run_core (fallback_download_with_ytdlp U W t dir user chat mode)).
Proof. apply few_run_core, fallback_starts_once. Qed.

(** X25. In one run of the primary tool the fallback is started at
    most twice, whatever the tool prints and however it ends: at most
    once by the stream parser, and at most once afterwards (after the
    timer fired, or after a failing exit that left no file). *)
Theorem run_spotdl_command_starts_the_fallback_at_most_twice url dir user chat metadata :
  fallbacks_at_most 2 (run_spotdl_command U W ffmpeg_path kill_ok url dir user chat metadata).
Proof.
  unfold run_spotdl_command. apply (few_try_except 2 0); [|apply few_ret].
  unfold spotdl_body. cbv zeta.
  apply (few_bind 0 2); [few_step|]. intros _.
  apply (few_bind 0 2); [few_step|]. intros _.
  apply (few_bind 1 1); [apply few_run_core, process_spotdl_output_starts_once|].
  intros failed. destruct (timed_out _).
  - apply (few_bind 0 1); [destruct kill_ok; few_step|]. intros _.
    apply (few_bind 0 1); [few_step|]. intros b.
    apply (few_bind 0 1); [repeat few_step|]. intros _. apply few_fallback.
  - apply (few_bind 0 1); [few_step|]. intros _.
    apply (few_bind 0 1); [few_step|]. intros b.
    destruct (_ && _).
    + destruct (is_empty _); [|apply (few_weaken 0); [lia|apply few_epilogue]].
      destruct (tracked user b); [|apply (few_weaken 0); [lia|apply few_epilogue]].
      apply (few_bind 0 1); [few_step|]. intros _.
      apply (few_bind 0 1); [few_step|]. intros _. apply few_fallback.
    + destruct (_ && _).
      * apply (few_weaken 0); [lia|]. apply (few_bind 0 0); [few_step|].
        intros _. apply few_epilogue.
      * apply (few_weaken 0); [lia|apply few_epilogue].
Qed.
Lemma session_bind_emit {B} e (k : () → S B) s :
  (run_core (emit e) ≫= k) s
  = k () {| core := with_outbox (λ o, o ++ [e]) (core s); calls := calls s ++ [Core e] |}.
Proof. unfold mbind, S_bind. by rewrite session_emit. Qed.

Lemma epilogue_run user r failed s0 :
  (spotdl_epilogue user r failed s0).1
  = inr (negb failed || negb (is_empty (glob_ext ".mp3" (listing r))))
  ∧ download_progress (core (spotdl_epilogue user r failed s0).2) !! user
    = finished <$> download_progress (core s0) !! user.
Proof.
  unfold spotdl_epilogue. rewrite session_bind_look. unfold tracked.
  destruct (download_progress (core s0) !! user) as [p|] eqn:Hp.
  - rewrite bool_decide_eq_true_2 by eauto.
    unfold provided, mbind, S_bind, run_core, look, say, mret, S_ret. cbn.
    rewrite lookup_alter_eq, Hp. cbn. destruct (_ =? 0); cbn; by rewrite ?lookup_alter_eq, ?Hp.
  - rewrite bool_decide_eq_false_2 by (by intros [? ?]).
    unfold provided, mbind, S_bind, run_core, look, say, mret, S_ret. cbn.
    by rewrite Hp.
Qed.

(** X26. When the timer does not fire, the stream parser returns, and
    the tool exits with status 0 or leaves at least one file,
    [run_spotdl_command] ends by bringing the record to completion,
    whatever the parser stored (an error status included): the
    percentage becomes 100, the status [completed], the completed
    count is raised to the total when it was below it and otherwise
    left as it is.  The value returned is [not spotdl_failed or] (the
    job directory holds an [.mp3] file), [spotdl_failed] being the
    flag the stream parser returned. *)
Theorem run_spotdl_command_completes_the_record url dir user chat metadata s failed b1 :
  let cmd := spotdl_cmd url dir ffmpeg_path in
  let r := W cmd in
  timed_out r = false → return_code r = 0 ∨ listing r ≠ [] →
  _process_spotdl_output U W (output r) user chat dir (Some url) metadata
    (with_outbox (λ o, o ++ [Exec cmd 120]) (core s)) = (inr failed, b1) →
  let after := run_spotdl_command U W ffmpeg_path kill_ok url dir user chat metadata s in
  after.1 = inr (negb failed || negb (is_empty (glob_ext ".mp3" (listing r))))
  ∧ ∀ p1, download_progress b1 !! user = Some p1 →
      ∃ p', download_progress (core after.2) !! user = Some p'
            ∧ percentage p' = 100 ∧ status p' = str "completed"
            ∧ total_tracks p' = total_tracks p1
            ∧ completed_tracks p' = Z.max (completed_tracks p1) (total_tracks p1)
            ∧ current_track p' = current_track p1.
Proof.
  intros cmd r Htimer Hleft Hparser after.
  assert (∃ s1, core s1 = b1
            ∧ spotdl_body U W ffmpeg_path kill_ok url dir user chat metadata s
              = spotdl_epilogue user r failed s1) as (s1 & Hs1 & Hbody).
  { unfold spotdl_body. cbv zeta.
    fold cmd. fold r. rewrite session_bind_emit, session_bind_say.
    unfold mbind at 1, S_bind at 1. unfold run_core at 1. cbn [core].
    rewrite Hparser, Htimer. cbv iota. rewrite session_bind_say, session_bind_look.
    assert (negb (return_code r =? 0) && is_empty (listing r) = false) as ->.
    { destruct Hleft as [-> | Hne]; [done|]. destruct (listing r); [done|].
      apply andb_false_r. }
    destruct (negb (return_code r =? 0) && negb (is_empty (listing r))).
    - rewrite session_bind_say. eexists. split; [|reflexivity]. reflexivity.
    - eexists. split; [|reflexivity]. reflexivity. }
  assert (after = spotdl_epilogue user r failed s1) as Hafter.
  { unfold after, run_spotdl_command, try_except. rewrite Hbody.
    pose proof (epilogue_run user r failed s1) as [Hres _].
    by destruct (spotdl_epilogue user r failed s1) as [[e|ok] s2]. }
  rewrite Hafter. destruct (epilogue_run user r failed s1) as [Hres Hrec].
  split; [done|]. intros p1 Hp1. rewrite Hrec, Hs1, Hp1. cbn [fmap option_fmap option_map].
  eexists. split; [reflexivity|]. unfold finished.
  destruct (Z.ltb_spec (completed_tracks p1) (total_tracks p1)); cbn; repeat split; lia.
Qed.

End run.

Lemma run_spotdl_command_completes_the_record_witness :
  let W : world := λ cmd,
    {| timed_out := false;
       output := [str "Downloading 1 of 1: Song A"; str "AudioProviderError: no stream"];
       return_code := 1; listing := [str "cover.jpg"] |} in
  let s := {| core := one_job 7 (initial_progress 1 2 (str "spotify") (str "1234"));
              calls := [] |} in
  let after := run_spotdl_command excerpt W None true (str "https://open.spotify.com/track/abc")
                 (str "/tmp/mbot/user_7_0") 7 1 None s in
  after.1 = inr false
  ∧ (percentage <$> download_progress (core after.2) !! 7 = Some 100
     ∧ status <$> download_progress (core after.2) !! 7 = Some (str "completed")).
Proof.
  intros W s after.
  destruct (run_spotdl_command_completes_the_record excerpt W None true
              (str "https://open.spotify.com/track/abc") (str "/tmp/mbot/user_7_0") 7 1 None s
              true
              (_process_spotdl_output excerpt W
                 [str "Downloading 1 of 1: Song A"; str "AudioProviderError: no stream"] 7 1
                 (str "/tmp/mbot/user_7_0") (Some (str "https://open.spotify.com/track/abc")) None
                 (with_outbox (λ o, o ++ [Exec (spotdl_cmd (str "https://open.spotify.com/track/abc")
                                                  (str "/tmp/mbot/user_7_0") None) 120])
                    (core s))).2
              eq_refl ltac:(right; discriminate) ltac:(vm_compute; reflexivity))
    as [Hres Hrec].
  split; [exact Hres|].
  destruct (Hrec _ ltac:(vm_compute; reflexivity)) as (p' & Hp' & Hpc & Hst & _).
  fold after in Hp'. rewrite Hp'. cbn. by rewrite Hpc, Hst.
Defined.


End SpotdlFacts.

(** ** A job from start to end: [process_download] *)

Module JobFacts.
Import Bot Links Session MonadFacts MessageFacts.


Lemma add_then_discard (user : Z) (a : gset Z) : user ∉ (a ∪ {[user]}) ∖ {[user]}.
Proof. apply discard_frees. Qed.

Section download.
Variable U : unicodedata.
Variable W : world.
Variable ffmpeg_path : option pystr.
Variable kill_ok : bool.
Variable temp_dir : pystr.
Variable start_message : option Z.
Variable password : Z.
Variable playlist_title : option pystr.
Variable now : Z.
Variable mkdir_ok : bool.
Variable spotdl_list : option (Z * pystr).
Variable download_youtube_with_ytdlp : pystr → pystr → pystr → Z → Z → S bool.
Variable int_accepts : pystr → bool.
Variable job_files : list (pystr * Z).
Variable sent : bool.



Lemma refused chat user info yt_format s :
  user ∈ active_downloads (core s) →
  process_download U W ffmpeg_path kill_ok temp_dir start_message password playlist_title now
    mkdir_ok spotdl_list download_youtube_with_ytdlp int_accepts job_files sent
    chat user info yt_format s
  = (inr (), {| core := core s; calls := calls s ++ [Send chat AlreadyActive] |}).
Proof.
  intros Hu. unfold process_download. rewrite session_bind_look.
  by rewrite bool_decide_eq_true_2.
Qed.


(** X29. A link record that lacks its platform, type or address makes
    [process_download] raise [KeyError] after the user was added to
    the active set and before anything is sent: the user stays in the
    set, and every later request of that user is only answered that a
    download is already active, the state being left as it is. *)
Theorem process_download_keeps_the_slot_on_a_missing_key chat user info yt_format s :
  user ∉ active_downloads (core s) →
  info !! "platform" = None ∨ info !! "type" = None ∨ info !! "url" = None →
  let run :=
    process_download U W ffmpeg_path kill_ok temp_dir start_message password playlist_title now
      mkdir_ok spotdl_list download_youtube_with_ytdlp int_accepts job_files sent in
  let after := run chat user info yt_format s in
  after.1 = inl (Raised KeyError)
  ∧ user ∈ active_downloads (core after.2)
  ∧ calls after.2 = calls s
  ∧ ∀ chat' info' yt_format',
      run chat' user info' yt_format' after.2
      = (inr (), {| core := core after.2;
                    calls := calls after.2 ++ [Send chat' AlreadyActive] |}).
Proof.
  intros Hu Hmiss run after.
  assert (after = (inl (Raised KeyError),
                   {| core := with_active (λ a, a ∪ {[user]}) (core s); calls := calls s |}))
    as Hafter.
  { unfold after, run, process_download.
    rewrite session_bind_look, bool_decide_eq_false_2 by done.
    rewrite session_bind_change by done. cbv beta. unfold item.
    destruct (info !! "platform") as [p|]; [|done]. rewrite session_bind_ret.
    destruct (info !! "type") as [t|]; [|done]. rewrite session_bind_ret.
    destruct (info !! "url") as [l|]; [|done].
    by destruct Hmiss as [? | [? | ?]]. }
  assert (user ∈ active_downloads (core after.2)) as Hin.
  { rewrite Hafter. cbn. apply elem_of_union_r. by apply elem_of_singleton. }
  split_and!; [by rewrite Hafter|done|by rewrite Hafter|].
  intros chat' info' yt_format'. by apply refused.
Qed.
End download.


Lemma process_download_keeps_the_slot_on_a_missing_key_witness :
  let info : url_info := {[ "platform" := str "spotify"; "type" := str "track" ]} in
  let s := {| core := no_job; calls := [] |} in
  let after := process_download excerpt quiet_tool None true (str "/tmp/mbot") (Some 12) 4821
                 None 1700000000 true None (λ _ _ _ _ _, mret true)
                 (λ _, false) [] true 1 7 info None s in
  after.1 = inl (Raised KeyError) ∧ 7 ∈ active_downloads (core after.2).
Proof.
  intros info s after.
  destruct (process_download_keeps_the_slot_on_a_missing_key excerpt quiet_tool None true
              (str "/tmp/mbot") (Some 12) 4821 None 1700000000 true None
              (λ _ _ _ _ _, mret true) (λ _, false) [] true 1 7 info None s)
    as (Hres & Hin & _).
  - apply not_elem_of_empty.
  - right. right. reflexivity.
  - by split.
Defined.

End JobFacts.
